(** * reliable-orders: the client-side reliability stack of the order service

    A shallow embedding of the Go sources

      - [order-service/internal/reliability/retry.go]
        (RetryConfig, RetryableHTTPCall, calculateBackoff, Bulkhead),
      - [order-service/internal/reliability/circuit_breaker.go]
        (NewCircuitBreaker, CircuitBreaker.Execute),
      - the idempotency store (IdempotencyStore, Get, Set, cleanup),
      - the service package (CreateOrder, callPaymentService,
        doPaymentRequest, persistOrder),

    followed by the properties of the stack.

    Conventions.
      - Go's [int], [int64] and [time.Duration] (nanoseconds) are [Z];
        a [time.Time] is the number of nanoseconds since the epoch.
      - A [float64] of the retry policy is an IEEE 754 binary64 value: NaN,
        an infinity or a rational.  Each operation rounds its exact result
        to nearest, ties to even, by itself: this is what the Go compiler
        produces on amd64, where it does not fuse a multiplication with an
        addition.  [math.Pow] is an oracle of the environment.
      - In payment-service the amounts and the percentages are rationals
        and the product [rand.Float64()*100] of the fault injection is
        taken exactly; the properties of the fault injection are stated
        for percentages of zero or less, where nothing is drawn, and of 100
        or more, where rounding the product does not change the comparison.
      - A Go function with side effects is a function in the state monad [M]
        over [World]; what the process cannot decide by itself (the clock,
        the uuid generator, the random source, the downstream service, how a
        wait on a context ends) is read from an [Env] of oracles, each
        indexed by the number of times it has been consulted so far.
      - A Go result pair of a pointer and an error, in which both
        components may be nil independently, is [option T * option error]. *)

From Stdlib Require Import ZArith QArith Qminmax Qround Qpower Qabs Lia Lqa Bool.
From stdpp Require Import gmap strings pretty list fin_maps.

Local Open Scope Z_scope.

(** ** Errors *)

(** Go error values.  [Errorf msg cause] is [fmt.Errorf(msg + ": %w", cause)]:
    it wraps [cause], which [errors.Is] can still find. *)
Inductive error : Type :=
| ErrNewRequest                        (* http.NewRequestWithContext failed *)
| ErrTransport                         (* httpClient.Do failed *)
| ErrContext                           (* ctx.Err() of a done context *)
| ErrOpenState                         (* gobreaker.ErrOpenState *)
| ErrTooManyRequests                   (* gobreaker.ErrTooManyRequests *)
| ErrStatus (code : Z) (body : string) (* "payment service returned %d: %s" *)
| Errorf (msg : string) (cause : error).

Fixpoint error_eqb (a b : error) : bool :=
  match a, b with
  | ErrNewRequest, ErrNewRequest => true
  | ErrTransport, ErrTransport => true
  | ErrContext, ErrContext => true
  | ErrOpenState, ErrOpenState => true
  | ErrTooManyRequests, ErrTooManyRequests => true
  | ErrStatus c1 b1, ErrStatus c2 b2 => (c1 =? c2) && String.eqb b1 b2
  | Errorf m1 c1, Errorf m2 c2 => String.eqb m1 m2 && error_eqb c1 c2
  | _, _ => false
  end.

(** [errors.Is(err, target)]: [target] occurs on the unwrap chain of [err]. *)
Fixpoint errors_Is (err target : error) : bool :=
  error_eqb err target ||
  match err with
  | Errorf _ cause => errors_Is cause target
  | _ => false
  end.

(** ** HTTP *)

Record Response := { StatusCode : Z }.

(** What [httpClient.Do] produced: a transport failure (this includes a
    context that is done while the call is in flight) or a response. *)
Inductive DoResult :=
| DoError
| DoResponse (status : Z) (body : string).

(** ** Tracing: what is recorded on spans *)

Inductive Attr :=
| AttrInt (z : Z)
| AttrBool (b : bool)
| AttrString (s : string)
| AttrFloat (q : Q)
| AttrError (e : error).     (* attribute.String(k, err.Error()) *)

Inductive Code := CodeOk | CodeError.

Inductive SpanOp :=
| SpanStart (span : string) (attrs : list (string * Attr))
| SpanEnd (span : string)
| SetAttributes (span key : string) (v : Attr)
| AddEvent (span name : string) (attrs : list (string * Attr))
| SetStatus (span : string) (code : Code) (msg : string)
| SetStatusErr (span : string) (e : error)   (* SetStatus(codes.Error, err.Error()) *)
| RecordError (span : string) (e : error).

(** ** Idempotency store: data *)

Record IdempotentResponse := {
  OrderID : string;
  Status : string;
  CreatedAt : Z
}.

Inductive StoreOp :=
| StoreGet (key : string)
| StoreSet (key : string).

(** ** Circuit breaker: data *)

Inductive State := StateClosed | StateHalfOpen | StateOpen.

Record Counts := {
  Requests : Z;
  TotalFailures : Z;
  ConsecutiveFailures : Z
}.

(** The mutable part of a breaker (spec, section 3, BreakerState). *)
Record BreakerState := {
  state : State;
  counts : Counts;
  opened_at : Z;
  half_open_inflight : Z;
  probes_ok : bool   (* no probe of the current half-open episode has failed *)
}.

(** ** float64 *)

(** Go's [float64] is IEEE 754 binary64.  A value is NaN, an infinity or a
    rational; a finite value of the machine is a multiple of [2^e] of
    magnitude at most [2^53 * 2^e], where [e >= -1074], and below [2^1024]
    ([representable] below).  Whatever their arguments, the operations
    return such values, since they round.  The two zeros are not told
    apart: no operation used here depends on the sign of a zero. *)
Inductive float64 : Type :=
| NaN
| PosInf
| NegInf
| Finite (x : Q).

Definition pow2 (k : Z) : Q := (2 ^ k)%Q.

(** The [e] with [2^e <= x < 2^(e+1)], for [0 < x]. *)
Definition binade (x : Q) : Z :=
  let e := Z.log2 (Qnum x) - Z.log2 (Z.pos (Qden x)) in
  if Qle_bool (pow2 e) x then e else e - 1.

(** Rounding to the nearest integer, ties to the even one. *)
Definition rne (x : Q) : Z :=
  let f := Qfloor x in
  match (x - inject_Z f ?= 1 # 2)%Q with
  | Lt => f
  | Gt => f + 1
  | Eq => if Z.even f then f else f + 1
  end.

(** The exponent of the last place of [x]: 52 places below the leading
    one, and never below that of the subnormal numbers. *)
Definition ulp_exp (x : Q) : Z := Z.max (binade (Qabs x)) (-1022) - 52.

(** Rounding to nearest, ties to even, with 53 significant bits. *)
Definition round_finite (x : Q) : Q :=
  (inject_Z (rne (x / pow2 (ulp_exp x))) * pow2 (ulp_exp x))%Q.

(** The result of an operation whose exact value is [x]: it overflows to
    an infinity when the rounded value reaches [2^1024].  The fraction is
    kept in lowest terms. *)
Definition round64 (x : Q) : float64 :=
  let y := Qred (round_finite x) in
  if Qle_bool (pow2 1024) y then PosInf
  else if Qle_bool y (- pow2 1024) then NegInf
  else Finite y.

(** A constant or an integer converted to [float64]. *)
Definition F64 (x : Q) : float64 := round64 x.
Definition of_int64 (z : Z) : float64 := round64 (inject_Z z).

Definition fneg (a : float64) : float64 :=
  match a with
  | NaN => NaN
  | PosInf => NegInf
  | NegInf => PosInf
  | Finite x => Finite (- x)
  end.

Definition fadd (a b : float64) : float64 :=
  match a, b with
  | NaN, _ | _, NaN => NaN
  | PosInf, NegInf | NegInf, PosInf => NaN
  | PosInf, _ | _, PosInf => PosInf
  | NegInf, _ | _, NegInf => NegInf
  | Finite x, Finite y => round64 (x + y)
  end.

Definition fsub (a b : float64) : float64 := fadd a (fneg b).

(** An infinity times [x]. *)
Definition scale_inf (i : float64) (x : Q) : float64 :=
  match (x ?= 0)%Q with
  | Eq => NaN
  | Gt => i
  | Lt => fneg i
  end.

Definition fmul (a b : float64) : float64 :=
  match a, b with
  | NaN, _ | _, NaN => NaN
  | PosInf, PosInf | NegInf, NegInf => PosInf
  | PosInf, NegInf | NegInf, PosInf => NegInf
  | Finite x, (PosInf | NegInf) => scale_inf b x
  | (PosInf | NegInf), Finite y => scale_inf a y
  | Finite x, Finite y => round64 (x * y)
  end.

(** [a < b]; false when either is NaN. *)
Definition flt (a b : float64) : bool :=
  match a, b with
  | NaN, _ | _, NaN => false
  | _, NegInf => false
  | NegInf, _ => true
  | PosInf, _ => false
  | _, PosInf => true
  | Finite x, Finite y => negb (Qle_bool y x)
  end.

Definition fgt (a b : float64) : bool := flt b a.

Definition MinInt64 : Z := - 2 ^ 63.
Definition MaxInt64 : Z := 2 ^ 63 - 1.

(** [z] is a nearest integer of [x], the even one of the two when there
    are two. *)
Definition nearest_even (x : Q) (z : Z) : Prop :=
  (- (1 # 2) < x - inject_Z z < 1 # 2)%Q
  \/ (((x - inject_Z z == 1 # 2) \/ (x - inject_Z z == - (1 # 2)))%Q /\ Z.even z = true).

(** The finite values of the machine (and, with them, the values of larger
    exponent that [round_finite] yields before the overflow test). *)
Definition representable (x : Q) : Prop :=
  exists m k, (x == inject_Z m * pow2 k)%Q /\ Z.abs m <= 2 ^ 53 /\ -1074 <= k.

(** A stand-in for [math.Pow] in the example environments: [x^y] rounded
    once, for [y] a whole number that is not negative.  This is what
    [math.Pow] returns when [y] is 0 or 1 and for the powers of 1 and of 2,
    the only cases the examples meet; the general theorems are stated for
    every [math_Pow]. *)
Definition Pow_rounded (x y : float64) : float64 :=
  match x, y with
  | Finite a, Finite b => if Qle_bool 0 b then round64 (a ^ Qfloor b) else NaN
  | _, _ => NaN
  end.

(** A float that is neither NaN nor negative. *)
Definition not_negative (f : float64) : Prop :=
  f = PosInf \/ exists x, f = Finite x /\ (0 <= x)%Q.

(** ** The environment and the world *)

Record Env := {
  clock : nat -> Z;             (* successive readings of time.Now() *)
  fresh_uuid : nat -> string;   (* successive results of uuid.New().String() *)
  rand_float : nat -> Q;        (* successive results of rand.Float64() *)
  math_Pow : float64 -> float64 -> float64; (* math.Pow *)
  url_ok : string -> bool;      (* does http.NewRequestWithContext accept the URL *)
  downstream : nat -> DoResult; (* outcome of the n-th httpClient.Do *)
  ctx_done_first : nat -> bool; (* n-th backoff select: does <-ctx.Done() win *)
  acquire_cancelled : nat -> bool (* n-th sem.Acquire: context done before a permit *)
}.

Record World := mkWorld {
  entries : gmap string IdempotentResponse; (* idempotencyStore.entries *)
  store_log : list StoreOp;                 (* Get/Set calls on the store, newest first *)
  breaker : BreakerState;                   (* state of the payment breaker *)
  permits : Z;                              (* permits this goroutine holds *)
  trace : list SpanOp;                      (* span operations, newest first *)
  http_calls : nat;                         (* httpClient.Do calls made so far *)
  now_reads : nat;
  uuid_reads : nat;
  rand_reads : nat;
  selects : nat;
  acquires : nat
}.

Definition set_entries (f : gmap string IdempotentResponse -> gmap string IdempotentResponse)
  (w : World) : World :=
  mkWorld (f (entries w)) (store_log w) (breaker w) (permits w) (trace w)
    (http_calls w) (now_reads w) (uuid_reads w) (rand_reads w) (selects w) (acquires w).

Definition set_store_log (f : list StoreOp -> list StoreOp) (w : World) : World :=
  mkWorld (entries w) (f (store_log w)) (breaker w) (permits w) (trace w)
    (http_calls w) (now_reads w) (uuid_reads w) (rand_reads w) (selects w) (acquires w).

Definition set_breaker (f : BreakerState -> BreakerState) (w : World) : World :=
  mkWorld (entries w) (store_log w) (f (breaker w)) (permits w) (trace w)
    (http_calls w) (now_reads w) (uuid_reads w) (rand_reads w) (selects w) (acquires w).

Definition set_permits (f : Z -> Z) (w : World) : World :=
  mkWorld (entries w) (store_log w) (breaker w) (f (permits w)) (trace w)
    (http_calls w) (now_reads w) (uuid_reads w) (rand_reads w) (selects w) (acquires w).

Definition set_trace (f : list SpanOp -> list SpanOp) (w : World) : World :=
  mkWorld (entries w) (store_log w) (breaker w) (permits w) (f (trace w))
    (http_calls w) (now_reads w) (uuid_reads w) (rand_reads w) (selects w) (acquires w).

Definition set_http_calls (f : nat -> nat) (w : World) : World :=
  mkWorld (entries w) (store_log w) (breaker w) (permits w) (trace w)
    (f (http_calls w)) (now_reads w) (uuid_reads w) (rand_reads w) (selects w) (acquires w).

Definition set_now_reads (f : nat -> nat) (w : World) : World :=
  mkWorld (entries w) (store_log w) (breaker w) (permits w) (trace w)
    (http_calls w) (f (now_reads w)) (uuid_reads w) (rand_reads w) (selects w) (acquires w).

Definition set_uuid_reads (f : nat -> nat) (w : World) : World :=
  mkWorld (entries w) (store_log w) (breaker w) (permits w) (trace w)
    (http_calls w) (now_reads w) (f (uuid_reads w)) (rand_reads w) (selects w) (acquires w).

Definition set_rand_reads (f : nat -> nat) (w : World) : World :=
  mkWorld (entries w) (store_log w) (breaker w) (permits w) (trace w)
    (http_calls w) (now_reads w) (uuid_reads w) (f (rand_reads w)) (selects w) (acquires w).

Definition set_selects (f : nat -> nat) (w : World) : World :=
  mkWorld (entries w) (store_log w) (breaker w) (permits w) (trace w)
    (http_calls w) (now_reads w) (uuid_reads w) (rand_reads w) (f (selects w)) (acquires w).

Definition set_acquires (f : nat -> nat) (w : World) : World :=
  mkWorld (entries w) (store_log w) (breaker w) (permits w) (trace w)
    (http_calls w) (now_reads w) (uuid_reads w) (rand_reads w) (selects w) (f (acquires w)).

(** ** The state monad *)

Definition M (A : Type) : Type := World -> A * World.

Definition ret {A : Type} (a : A) : M A := fun w => (a, w).

Definition bind {A B : Type} (c : M A) (k : A -> M B) : M B :=
  fun w => let (a, w') := c w in k a w'.

Declare Scope go_scope.
Delimit Scope go_scope with go.
Notation "'let*' x := c 'in' k" := (bind c (fun x => k))
  (at level 10, x name, c at level 100, k at level 200) : go_scope.
Notation "c ;; k" := (bind c (fun _ => k))
  (at level 100, k at level 200, right associativity) : go_scope.
Local Open Scope go_scope.

(** Go's [if cond { stmt }] with no else branch. *)
Definition when (b : bool) (c : M unit) : M unit := if b then c else ret tt.

(** ** Primitive effects *)

Section Primitives.
Variable env : Env.

Definition span_op (op : SpanOp) : M unit :=
  fun w => (tt, set_trace (cons op) w).

Definition time_Now : M Z :=
  fun w => (clock env (now_reads w), set_now_reads S w).

Definition uuid_New : M string :=
  fun w => (fresh_uuid env (uuid_reads w), set_uuid_reads S w).

Definition rand_Float64 : M Q :=
  fun w => (rand_float env (rand_reads w), set_rand_reads S w).

Definition httpClient_Do : M DoResult :=
  fun w => (downstream env (http_calls w), set_http_calls S w).

(** [select { case <-time.After(d): ...; case <-ctx.Done(): ... }]:
    [true] when the context is done before the timer fires. *)
Definition select_backoff (d : Z) : M bool :=
  fun w => (ctx_done_first env (selects w), set_selects S w).

Definition get_breaker : M BreakerState := fun w => (breaker w, w).

Definition put_breaker (b : BreakerState) : M unit :=
  fun w => (tt, set_breaker (fun _ => b) w).
End Primitives.

(** ** retry.go: the retry policy and the backoff calculator *)

Definition Millisecond : Z := 1000000.
Definition Second : Z := 1000000000.
Definition Hour : Z := 3600 * Second.

Record RetryConfig := {
  MaxAttempts : Z;
  InitialBackoff : Z;
  MaxBackoff : Z;
  BackoffMultiple : float64;
  JitterFraction : float64
}.

Definition DefaultRetryConfig : RetryConfig :=
  {| MaxAttempts := 3;
     InitialBackoff := 50 * Millisecond;
     MaxBackoff := 1 * Second;
     BackoffMultiple := F64 2;
     JitterFraction := F64 (3 # 10) |}.

Definition Qltb (a b : Q) : bool := negb (Qle_bool b a).

(** Conversion of a float to [time.Duration], an int64: the fraction is
    discarded.  For NaN, the infinities and the numbers beyond the int64
    range Go leaves the result to the implementation; amd64, followed
    here, yields the smallest int64. *)
Definition Duration_of_float (f : float64) : Z :=
  match f with
  | Finite x =>
      let t := Z.quot (Qnum x) (Z.pos (Qden x)) in
      if (MinInt64 <=? t) && (t <=? MaxInt64) then t else MinInt64
  | _ => MinInt64
  end.

(** [calculateBackoff cfg attempt], with [r] the value [rand.Float64()]
    returned to it; [math.Pow] is read from the environment. *)
Definition calculateBackoff (env : Env) (cfg : RetryConfig) (attempt : Z) (r : Q) : Z :=
  let backoff := fmul (of_int64 (InitialBackoff cfg))
                      (math_Pow env (BackoffMultiple cfg) (of_int64 attempt)) in
  let backoff := if fgt backoff (of_int64 (MaxBackoff cfg))
                 then of_int64 (MaxBackoff cfg) else backoff in
  let jitterRange := fmul backoff (JitterFraction cfg) in
  let jitter := fsub (fmul (fmul (Finite r) (F64 2)) jitterRange) jitterRange in
  let backoff := fadd backoff jitter in
  let backoff := if flt backoff (Finite 0) then Finite 0 else backoff in
  Duration_of_float backoff.

(** [d.Milliseconds()] *)
Definition Milliseconds (d : Z) : Z := Z.quot d Millisecond.

(** ** retry.go: the retry executor *)

(** The test of line 51: no error, a response, and a status that is neither
    5xx nor 429. *)
Definition attempt_ok (resp : option Response) (lastErr : option error) : bool :=
  match lastErr, resp with
  | None, Some r => (StatusCode r <? 500) && negb (StatusCode r =? 429)
  | _, _ => false
  end.

Section Retry.
Variable env : Env.
Variable span : string.
Variable cfg : RetryConfig.
Variable fn : M (option Response * option error).

(** The code after the loop (lines 87-94). *)
Definition retry_exhausted (resp : option Response) (lastErr : option error)
  : M (option Response * option error) :=
  span_op (SetAttributes span "retry.exhausted" (AttrBool true));;
  span_op (SetStatus span CodeError "all retry attempts failed");;
  match lastErr with
  | Some e =>
      ret (None, Some (Errorf ("retry exhausted after " +:+ pretty (MaxAttempts cfg)
                                 +:+ " attempts") e))
  | None => ret (resp, None)
  end.

(** The loop of lines 43-85, entered with loop variable [attempt];
    [remaining] is the number of iterations the loop condition
    [attempt < cfg.MaxAttempts] still admits, [Z.to_nat (MaxAttempts - attempt)].
    [resp] and [lastErr] are the variables of lines 40-41.  A [Response]
    carries no body, so closing it (line 68) has no counterpart. *)
Fixpoint retry_loop (remaining : nat) (attempt : Z)
    (resp : option Response) (lastErr : option error)
  : M (option Response * option error) :=
  match remaining with
  | O => retry_exhausted resp lastErr
  | S remaining' =>
    span_op (SetAttributes span "retry.attempt" (AttrInt attempt));;
    let* out := fn in
    let resp := fst out in
    let lastErr := snd out in
    if attempt_ok resp lastErr then
      when (0 <? attempt)
        (span_op (SetAttributes span "retry.succeeded" (AttrBool true)));;
      ret (resp, None)
    else
      match lastErr, resp with
      | Some e, _ => span_op (AddEvent span "retry_due_to_error" [("error", AttrError e)])
      | None, Some r =>
          span_op (AddEvent span "retry_due_to_status"
                     [("status_code", AttrInt (StatusCode r))])
      | None, None => ret tt
      end;;
      if attempt <? MaxAttempts cfg - 1 then
        let* r := rand_Float64 env in
        let backoff := calculateBackoff env cfg attempt r in
        span_op (SetAttributes span "retry.backoff_ms" (AttrInt (Milliseconds backoff)));;
        let* cancelled := select_backoff env backoff in
        if cancelled then
          span_op (SetStatus span CodeError "context cancelled during retry backoff");;
          ret (None, Some (Errorf "retry cancelled" ErrContext))
        else retry_loop remaining' (attempt + 1) resp lastErr
      else retry_loop remaining' (attempt + 1) resp lastErr
  end.

Definition RetryableHTTPCall : M (option Response * option error) :=
  retry_loop (Z.to_nat (MaxAttempts cfg)) 0 None None.
End Retry.

(** ** retry.go: the bulkhead *)

Record Bulkhead := { max : Z }.

Definition NewBulkhead (maxConcurrent : Z) : Bulkhead := {| max := maxConcurrent |}.

Section BulkheadExecute.
Variable env : Env.

(** Modelled from the spec: [semaphore.Weighted.Acquire(ctx, 1)] of
    golang.org/x/sync, which is not part of the sources.  Section 4.4:
    the caller waits until either a permit is available or the context is
    cancelled.  Seen from the one goroutine that runs a request, the other
    holders of permits belong to the environment, so how the wait ends is
    read from the oracle [acquire_cancelled]. *)
Definition sem_Acquire : M (option error) :=
  fun w =>
    if acquire_cancelled env (acquires w)
    then (Some ErrContext, set_acquires S w)
    else (None, set_permits (fun p => p + 1) (set_acquires S w)).

(** Modelled from the spec: [semaphore.Weighted.Release(1)]. *)
Definition sem_Release : M unit :=
  fun w => (tt, set_permits (fun p => p - 1) w).

(** [Bulkhead.Execute]; the deferred [Release] runs when [fn] has returned. *)
Definition Bulkhead_Execute (b : Bulkhead) (span : string) (fn : M (option error))
  : M (option error) :=
  let* acq := sem_Acquire in
  match acq with
  | Some err =>
      span_op (SetStatus span CodeError "bulkhead acquire failed");;
      span_op (SetAttributes span "bulkhead.rejected" (AttrBool true));;
      ret (Some (Errorf "bulkhead limit reached" err))
  | None =>
      span_op (SetAttributes span "bulkhead.max" (AttrInt (max b)));;
      let* r := fn in
      sem_Release;;
      ret r
  end.
End BulkheadExecute.

(** ** circuit_breaker.go *)

Record Settings := {
  Name : string;
  MaxRequests : Z;     (* spec: half_open_probe_budget *)
  Interval : Z;        (* spec: rolling_window *)
  Timeout : Z;         (* spec: open_cooldown *)
  ReadyToTrip : Counts -> bool   (* spec: trip_predicate *)
}.

Record CircuitBreaker := { cb : Settings }.

(** [NewCircuitBreaker].  The ratio is a float division in the source; when
    [Requests] is 0 the conjunct [Requests >= 10] already fails. *)
Definition NewCircuitBreaker : CircuitBreaker :=
  {| cb :=
       {| Name := "payment-service";
          MaxRequests := 3;
          Interval := 10 * Second;
          Timeout := 30 * Second;
          ReadyToTrip := fun counts =>
            let failureRatio :=
              (inject_Z (TotalFailures counts) / inject_Z (Requests counts))%Q in
            (5 <=? ConsecutiveFailures counts)
            || ((10 <=? Requests counts) && Qle_bool (6 # 10) failureRatio) |} |}.

Definition zero_counts : Counts :=
  {| Requests := 0; TotalFailures := 0; ConsecutiveFailures := 0 |}.

(** Modelled from the spec: the breaker of github.com/sony/gobreaker, which
    is not part of the sources, as section 4.3 describes it.  The initial
    state is Closed with zero counts. *)
Definition initial_breaker : BreakerState :=
  {| state := StateClosed; counts := zero_counts; opened_at := 0;
     half_open_inflight := 0; probes_ok := true |}.

Inductive Entry :=
| Rejected (e : error)
| Passed (slot : bool).   (* [slot]: a half-open probe slot was reserved *)

(** Modelled from the spec: what the breaker does on entry, under its lock
    (section 4.3, transitions and public contract).  Open rejects while
    [now - opened_at < open_cooldown] and otherwise becomes HalfOpen for the
    arriving call; HalfOpen rejects when [half_open_inflight] already equals
    the probe budget.  Both rejections are the spec's BreakerOpen. *)
Definition on_entry (st : Settings) (now : Z) (b : BreakerState)
  : Entry * BreakerState :=
  match state b with
  | StateClosed => (Passed false, b)
  | StateOpen =>
      if now - opened_at b <? Timeout st then (Rejected ErrOpenState, b)
      else (Passed true,
            {| state := StateHalfOpen; counts := counts b; opened_at := opened_at b;
               half_open_inflight := 1; probes_ok := true |})
  | StateHalfOpen =>
      if half_open_inflight b =? MaxRequests st then (Rejected ErrOpenState, b)
      else (Passed true,
            {| state := StateHalfOpen; counts := counts b; opened_at := opened_at b;
               half_open_inflight := half_open_inflight b + 1;
               probes_ok := probes_ok b |})
  end.

(** Modelled from the spec: the accounting on return (section 4.3):
    [requests++]; on failure [total_failures++] and [consecutive_failures++],
    on success [consecutive_failures = 0]; the trip predicate is evaluated;
    the probe slot is given back.  The spec fixes no mechanism for the
    rolling window, so the counts are only reset on closing. *)
Definition on_return (st : Settings) (slot success : bool) (now : Z) (b : BreakerState)
  : BreakerState :=
  let c := counts b in
  let c' := {| Requests := Requests c + 1;
               TotalFailures := if success then TotalFailures c else TotalFailures c + 1;
               ConsecutiveFailures := if success then 0 else ConsecutiveFailures c + 1 |} in
  let inflight := if slot then half_open_inflight b - 1 else half_open_inflight b in
  match state b with
  | StateClosed =>
      if negb success && ReadyToTrip st c' then
        {| state := StateOpen; counts := c'; opened_at := now;
           half_open_inflight := inflight; probes_ok := probes_ok b |}
      else
        {| state := StateClosed; counts := c'; opened_at := opened_at b;
           half_open_inflight := inflight; probes_ok := probes_ok b |}
  | StateHalfOpen =>
      if success then
        if (inflight =? 0) && probes_ok b then
          {| state := StateClosed; counts := zero_counts; opened_at := opened_at b;
             half_open_inflight := inflight; probes_ok := true |}
        else
          {| state := StateHalfOpen; counts := c'; opened_at := opened_at b;
             half_open_inflight := inflight; probes_ok := probes_ok b |}
      else
        {| state := StateOpen; counts := c'; opened_at := now;
           half_open_inflight := inflight; probes_ok := false |}
  | StateOpen =>
      {| state := StateOpen; counts := c'; opened_at := opened_at b;
         half_open_inflight := inflight; probes_ok := probes_ok b |}
  end.

Section Breaker.
Variable env : Env.

(** Modelled from the spec: [gobreaker.CircuitBreaker.State()]. *)
Definition gobreaker_State : M State :=
  let* b := get_breaker in ret (state b).

(** Modelled from the spec: [gobreaker.CircuitBreaker.Execute(req)]: the
    entry accounting, the operation outside the lock, the return
    accounting.  A rejected call does not run [req]. *)
Definition gobreaker_Execute (st : Settings) (req : M (option error)) : M (option error) :=
  let* now := time_Now env in
  let* b := get_breaker in
  match on_entry st now b with
  | (Rejected e, _) => ret (Some e)
  | (Passed slot, b') =>
      put_breaker b';;
      let* err := req in
      let* now' := time_Now env in
      let* b'' := get_breaker in
      put_breaker (on_return st slot (bool_decide (err = None)) now' b'');;
      ret err
  end.

Definition State_String (s : State) : string :=
  match s with
  | StateClosed => "closed"
  | StateHalfOpen => "half-open"
  | StateOpen => "open"
  end.

(** [CircuitBreaker.Execute] *)
Definition CircuitBreaker_Execute (c : CircuitBreaker) (span : string)
    (fn : M (option error)) : M (option error) :=
  let* state := gobreaker_State in
  span_op (SetAttributes span "cb.state" (AttrString (State_String state)));;
  let* err := gobreaker_Execute (cb c) fn in
  match err with
  | Some err =>
      if errors_Is err ErrOpenState then
        span_op (SetAttributes span "cb.open" (AttrBool true));;
        ret (Some (Errorf "circuit breaker open" err))
      else ret (Some err)
  | None => ret None
  end.
End Breaker.

(** ** The idempotency store *)

Section Store.
Variable env : Env.

(** [IdempotencyStore.Get] *)
Definition Get (key : string) : M (option IdempotentResponse) :=
  fun w => (entries w !! key, set_store_log (cons (StoreGet key)) w).

(** [IdempotencyStore.Set] ([Set] itself is a reserved word). *)
Definition Set_ (key : string) (resp : IdempotentResponse) : M unit :=
  fun w => (tt, set_entries (insert key resp) (set_store_log (cons (StoreSet key)) w)).

(** One iteration of the loop of [IdempotencyStore.cleanup] (one tick of
    the hourly ticker): entries created before [now - 24h] are deleted. *)
Definition cleanup_tick : M unit :=
  let* now := time_Now env in
  let cutoff := now - 24 * Hour in
  fun w => (tt, set_entries
                  (filter (fun kv : string * IdempotentResponse =>
                             ~ (CreatedAt (snd kv) < cutoff))) w).

Fixpoint cleanup_ticks (n : nat) : M unit :=
  match n with
  | O => ret tt
  | S n' => cleanup_tick;; cleanup_ticks n'
  end.
End Store.

(** ** Rendering a time with layout [time.RFC3339]

    The layout "2006-01-02T15:04:05Z07:00" has no sub-second field.  The
    process is taken to run in UTC (the spec's [created_at] is RFC3339 UTC),
    and years are taken to have four digits. *)

Definition pad (width : nat) (n : Z) : string :=
  let d := pretty n in
  String.concat "" (replicate (width - String.length d) "0"%string) +:+ d.

(** Civil date of a day count since 1970-01-01 (proleptic Gregorian). *)
Definition civil_of_days (days : Z) : Z * Z * Z :=
  let z := days + 719468 in
  let era := z `div` 146097 in
  let doe := z - era * 146097 in
  let yoe := (doe - doe `div` 1460 + doe `div` 36524 - doe `div` 146096) `div` 365 in
  let doy := doe - (365 * yoe + yoe `div` 4 - yoe `div` 100) in
  let mp := (5 * doy + 2) `div` 153 in
  let d := doy - (153 * mp + 2) `div` 5 + 1 in
  let m := if mp <? 10 then mp + 3 else mp - 9 in
  let y := yoe + era * 400 + (if m <=? 2 then 1 else 0) in
  (y, m, d).

Definition rfc3339_of_seconds (secs : Z) : string :=
  let days := secs `div` 86400 in
  let rem := secs `mod` 86400 in
  let '(y, m, d) := civil_of_days days in
  pad 4 y +:+ "-" +:+ pad 2 m +:+ "-" +:+ pad 2 d +:+ "T"
    +:+ pad 2 (rem `div` 3600) +:+ ":" +:+ pad 2 ((rem `mod` 3600) `div` 60)
    +:+ ":" +:+ pad 2 (rem `mod` 60) +:+ "Z".

(** [t.Format(time.RFC3339)] *)
Definition Format_RFC3339 (t : Z) : string := rfc3339_of_seconds (t `div` Second).

(** ** The order service *)

Record OrderService := {
  paymentURL : string;
  circuitBreaker : CircuitBreaker;
  bulkhead : Bulkhead;
  retryConfig : RetryConfig
}.

(** [NewOrderService]; the idempotency store it creates is the [entries]
    field of the world, the HTTP client is the [downstream] oracle. *)
Definition NewOrderService (paymentURL : string) : OrderService :=
  {| paymentURL := paymentURL;
     circuitBreaker := NewCircuitBreaker;
     bulkhead := NewBulkhead 10;
     retryConfig := DefaultRetryConfig |}.

(** The world when the service has just been created. *)
Definition NewWorld : World :=
  mkWorld ∅ [] initial_breaker 0 [] 0 0 0 0 0 0.

Record CreateOrderRequest := {
  MerchantID : string;
  Amount : Q;
  Currency : string
}.

Record CreateOrderResponse := {
  resp_OrderID : string;
  resp_Status : string;
  resp_CreatedAt : string
}.

(** A Go result pair (pointer, error) of which exactly one component is non-nil. *)
Inductive result (A : Type) :=
| Ok (a : A)
| Fail (e : error).
Arguments Ok {A} a.
Arguments Fail {A} e.

Section Service.
Variable env : Env.
Variable s : OrderService.

(** [doPaymentRequest].  The JSON payload and the header do not influence
    the control flow and are not represented; the body that is read and
    closed is the [body] of the [DoResponse]. *)
Definition doPaymentRequest (span : string) (orderID : string) (req : CreateOrderRequest)
  : M (option Response * option error) :=
  if negb (url_ok env (paymentURL s +:+ "/charge")) then ret (None, Some ErrNewRequest)
  else
    let* res := httpClient_Do env in
    match res with
    | DoError =>
        span_op (RecordError span ErrTransport);;
        ret (None, Some (Errorf "payment request failed" ErrTransport))
    | DoResponse status body =>
        let resp := {| StatusCode := status |} in
        if (status <? 200) || (300 <=? status) then
          span_op (SetAttributes span "payment.status_code" (AttrInt status));;
          ret (Some resp, Some (ErrStatus status body))
        else ret (Some resp, None)
    end.

(** [persistOrder]: a span and a sleep of 10ms; it never fails. *)
Definition persistOrder (orderID : string) (req : CreateOrderRequest) : M (option error) :=
  span_op (SpanStart "persistOrder" [("order.id", AttrString orderID)]);;
  span_op (SetStatus "persistOrder" CodeOk "order persisted");;
  span_op (SpanEnd "persistOrder");;
  ret None.

(** [callPaymentService]: bulkhead around breaker around retry around the
    HTTP call.  The bulkhead waits on the request context, the retry
    executor on the context with the 500ms deadline; when either context is
    done is decided by the oracles [acquire_cancelled], [ctx_done_first]
    and [downstream]. *)
Definition callPaymentService (orderID : string) (req : CreateOrderRequest)
  : M (option error) :=
  let span := "callPayment" in
  span_op (SpanStart span []);;
  span_op (SetAttributes span "timeout_ms" (AttrInt 500));;
  let* err :=
    Bulkhead_Execute env (bulkhead s) span
      (CircuitBreaker_Execute env (circuitBreaker s) span
         (let* out := RetryableHTTPCall env span (retryConfig s)
                        (doPaymentRequest span orderID req) in
          ret (snd out))) in
  match err with
  | Some err =>
      span_op (SetStatusErr span err);;
      span_op (SpanEnd span);;
      ret (Some err)
  | None =>
      span_op (SetStatus span CodeOk "payment successful");;
      span_op (SpanEnd span);;
      ret None
  end.

(** The part of [CreateOrder] after a cache miss (lines 85-118), with
    [persist] in the place of the method [s.persistOrder]: the code
    provides for an error of the persist step (lines 96-99) that
    [persistOrder] itself never returns. *)
Definition processOrder_with (persist : string -> CreateOrderRequest -> M (option error))
    (span : string) (req : CreateOrderRequest)
    (idempotencyKey : string) : M (result CreateOrderResponse) :=
  let* orderID := uuid_New env in
  span_op (SetAttributes span "order.id" (AttrString orderID));;
  let* err := callPaymentService orderID req in
  match err with
  | Some err =>
      span_op (SetStatusErr span err);;
      ret (Fail (Errorf "payment failed" err))
  | None =>
      let* err := persist orderID req in
      match err with
      | Some err =>
          span_op (SetStatusErr span err);;
          ret (Fail (Errorf "failed to persist order" err))
      | None =>
          let* now := time_Now env in
          let response := {| resp_OrderID := orderID;
                             resp_Status := "completed";
                             resp_CreatedAt := Format_RFC3339 now |} in
          (if negb (String.eqb idempotencyKey "") then
             let* now' := time_Now env in
             Set_ idempotencyKey
               {| OrderID := orderID; Status := "completed"; CreatedAt := now' |}
           else ret tt);;
          span_op (SetStatus span CodeOk "order created successfully");;
          ret (Ok response)
      end
  end.

Definition processOrder : string -> CreateOrderRequest -> string -> M (result CreateOrderResponse) :=
  processOrder_with persistOrder.

(** [CreateOrder]; the deferred [span.End()] runs on every return. *)
Definition CreateOrder_with (persist : string -> CreateOrderRequest -> M (option error))
    (req : CreateOrderRequest) (idempotencyKey : string)
  : M (result CreateOrderResponse) :=
  let span := "createOrder" in
  span_op (SpanStart span [("merchant.id", AttrString (MerchantID req));
                           ("order.amount", AttrFloat (Amount req));
                           ("order.currency", AttrString (Currency req))]);;
  let* cached :=
    if negb (String.eqb idempotencyKey "") then
      span_op (SetAttributes span "idempotency.key" (AttrString idempotencyKey));;
      Get idempotencyKey
    else ret None in
  let* r :=
    match cached with
    | Some cached =>
        span_op (AddEvent span "idempotent_request_cached" []);;
        ret (Ok {| resp_OrderID := OrderID cached;
                   resp_Status := Status cached;
                   resp_CreatedAt := Format_RFC3339 (CreatedAt cached) |})
    | None => processOrder_with persist span req idempotencyKey
    end in
  span_op (SpanEnd span);;
  ret r.

Definition CreateOrder : CreateOrderRequest -> string -> M (result CreateOrderResponse) :=
  CreateOrder_with persistOrder.
End Service.

(** ** The bulkhead under concurrency

    Several goroutines run [Bulkhead.Execute] on one bulkhead.  A goroutine
    is at one of three places of lines 150-164; the semaphore is shared. *)

Module Concurrent.

(** Modelled from the spec: the counting semaphore [semaphore.Weighted] of
    golang.org/x/sync, which is not part of the sources (section 3: a
    counting semaphore of permits equal to [max_concurrent]; section 4.4:
    a permit is acquired when one is available). *)
Record Weighted := { size : Z; cur : Z }.

Definition NewWeighted (n : Z) : Weighted := {| size := n; cur := 0 |}.

Definition TryAcquire (s : Weighted) : option Weighted :=
  if cur s + 1 <=? size s then Some {| size := size s; cur := cur s + 1 |} else None.

Definition Release (s : Weighted) : Weighted := {| size := size s; cur := cur s - 1 |}.

(** How [fn(ctx)] ends. *)
Inductive Exit :=
| Returns (r : option error)
| Panics.

Inductive Pc :=
| AtAcquire             (* line 152: waiting in b.sem.Acquire(ctx, 1) *)
| InFn                  (* line 163: fn runs, Release is deferred *)
| Left (out : Exit).    (* Execute is over: returned [r], or unwinding a panic *)

(** A goroutine, with counters of what it has done so far. *)
Record Goroutine := {
  pc : Pc;
  acquired : nat;   (* successful Acquire calls *)
  released : nat;   (* Release calls *)
  started : nat     (* invocations of fn *)
}.

Record Pool := {
  sem : Weighted;
  goroutines : list Goroutine
}.

Definition NewPool (b : Bulkhead) : Pool :=
  {| sem := NewWeighted (max b); goroutines := [] |}.

Inductive Action :=
| Call                          (* a further goroutine calls Execute *)
| Acquire (i : nat)             (* goroutine i obtains a permit and starts fn *)
| Cancel (i : nat)              (* the context of goroutine i is done while it waits *)
| Finish (i : nat) (out : Exit). (* fn of goroutine i returns or panics *)

Definition rejection : Exit := Returns (Some (Errorf "bulkhead limit reached" ErrContext)).

Definition step (a : Action) (p : Pool) : option Pool :=
  match a with
  | Call =>
      Some {| sem := sem p;
              goroutines := goroutines p ++
                [{| pc := AtAcquire; acquired := 0; released := 0; started := 0 |}] |}
  | Acquire i =>
      match goroutines p !! i with
      | Some {| pc := AtAcquire; acquired := a; released := r; started := n |} =>
          match TryAcquire (sem p) with
          | Some sem' =>
              Some {| sem := sem';
                      goroutines := <[i := {| pc := InFn; acquired := S a;
                                              released := r; started := S n |}]>
                                      (goroutines p) |}
          | None => None
          end
      | _ => None
      end
  | Cancel i =>
      match goroutines p !! i with
      | Some {| pc := AtAcquire; acquired := a; released := r; started := n |} =>
          Some {| sem := sem p;
                  goroutines := <[i := {| pc := Left rejection; acquired := a;
                                          released := r; started := n |}]>
                                  (goroutines p) |}
      | _ => None
      end
  | Finish i out =>
      match goroutines p !! i with
      | Some {| pc := InFn; acquired := a; released := r; started := n |} =>
          Some {| sem := Release (sem p);
                  goroutines := <[i := {| pc := Left out; acquired := a;
                                          released := S r; started := n |}]>
                                  (goroutines p) |}
      | _ => None
      end
  end.

Fixpoint run (acts : list Action) (p : Pool) : option Pool :=
  match acts with
  | [] => Some p
  | a :: acts' =>
      match step a p with
      | Some p' => run acts' p'
      | None => None
      end
  end.

Definition running (g : Goroutine) : bool :=
  match pc g with InFn => true | _ => false end.

(** Operations in flight: goroutines that are inside [fn]. *)
Definition in_flight (p : Pool) : Z :=
  Z.of_nat (length (filter (fun g => running g = true) (goroutines p))).

(** What the claim says of one goroutine. *)
Definition permit_discipline (g : Goroutine) : Prop :=
  match pc g with
  | AtAcquire => acquired g = 0%nat /\ released g = 0%nat /\ started g = 0%nat
  | InFn => acquired g = 1%nat /\ released g = 0%nat /\ started g = 1%nat
  | Left out =>
      (acquired g = 1%nat /\ released g = 1%nat /\ started g = 1%nat)
      \/ (acquired g = 0%nat /\ released g = 0%nat /\ started g = 0%nat
          /\ out = rejection)
  end.

Definition weight (g : Goroutine) : nat := if running g then 1%nat else 0%nat.

Definition count_running (gs : list Goroutine) : nat :=
  length (filter (fun g => running g = true) gs).

(** The invariant of the pool of a bulkhead [b]. *)
Definition Inv (b : Bulkhead) (p : Pool) : Prop :=
  size (sem p) = max b
  /\ cur (sem p) = in_flight p
  /\ in_flight p <= max b
  /\ Forall permit_discipline (goroutines p).

End Concurrent.

(** ** Runs used in the statements *)

(** An environment in which nothing is cancelled, every URL parses, the
    clock stands still and the downstream answers [d n] to the n-th call. *)
Definition quiet_env (d : nat -> DoResult) : Env :=
  {| clock := fun _ => 0;
     fresh_uuid := fun n => "order-" +:+ pretty n;
     rand_float := fun _ => 0%Q;
     math_Pow := Pow_rounded;
     url_ok := fun _ => true;
     downstream := d;
     ctx_done_first := fun _ => false;
     acquire_cancelled := fun _ => false |}.

Definition env_400 : Env := quiet_env (fun _ => DoResponse 400 "bad request").

Definition env_500 : Env := quiet_env (fun _ => DoResponse 500 "").

Definition env_200 : Env := quiet_env (fun _ => DoResponse 200 "").

(** The downstream fails once and then recovers. *)
Definition env_500_then_200 : Env :=
  quiet_env (fun n => match n with O => DoResponse 500 "" | _ => DoResponse 200 "" end).

(** As [quiet_env], but the deadline of the payment context expires during
    every backoff. *)
Definition hasty_env (d : nat -> DoResult) : Env :=
  {| clock := fun _ => 0;
     fresh_uuid := fun n => "order-" +:+ pretty n;
     rand_float := fun _ => 0%Q;
     math_Pow := Pow_rounded;
     url_ok := fun _ => true;
     downstream := d;
     ctx_done_first := fun _ => true;
     acquire_cancelled := fun _ => false |}.

(** The downstream always answers 500 and the 500ms deadline expires during
    the first backoff. *)
Definition env_500_deadline : Env := hasty_env (fun _ => DoResponse 500 "").

(** The downstream would recover at the second call, but the deadline
    expires during the first backoff. *)
Definition env_recovery_too_late : Env :=
  hasty_env (fun n => match n with O => DoResponse 500 "" | _ => DoResponse 200 "" end).

(** The downstream is rate limiting: always 429. *)
Definition env_429 : Env := quiet_env (fun _ => DoResponse 429 "").

(** An operation that hands over what [http.Client.Do] returns, without
    turning a status into an error. *)
Definition bare_Do (env : Env) : M (option Response * option error) :=
  let* res := httpClient_Do env in
  match res with
  | DoError => ret (None, Some ErrTransport)
  | DoResponse status _ => ret (Some {| StatusCode := status |}, None)
  end.


(** A healthy downstream; the clock passes a whole second between the third
    and the fourth reading (the two [time.Now()] of [CreateOrder] follow the
    two readings of the breaker). *)
Definition env_second_boundary : Env :=
  {| clock := fun n => if (n <? 3)%nat then 999999999 else 1000000000;
     fresh_uuid := fun n => "order-" +:+ pretty n;
     rand_float := fun _ => 0%Q;
     math_Pow := Pow_rounded;
     url_ok := fun _ => true;
     downstream := fun _ => DoResponse 200 "";
     ctx_done_first := fun _ => false;
     acquire_cancelled := fun _ => false |}.

Definition svc : OrderService := NewOrderService "http://payment-service:8081".

Definition order_m : CreateOrderRequest :=
  {| MerchantID := "m"; Amount := 10; Currency := "USD" |}.

(** A policy of 1ns backoff with half of it as jitter. *)
Definition cfg_1ns : RetryConfig :=
  {| MaxAttempts := 3; InitialBackoff := 1; MaxBackoff := 1;
     BackoffMultiple := F64 1; JitterFraction := F64 (1 # 2) |}.

(** The backoff of [calculateBackoff] before the jitter: the nominal delay
    of section 4.1, as the float64 the code computes. *)
Definition nominal (env : Env) (cfg : RetryConfig) (attempt : Z) : float64 :=
  let backoff := fmul (of_int64 (InitialBackoff cfg))
                      (math_Pow env (BackoffMultiple cfg) (of_int64 attempt)) in
  if fgt backoff (of_int64 (MaxBackoff cfg)) then of_int64 (MaxBackoff cfg) else backoff.

(** The jitter of [calculateBackoff].  [b] is the capped backoff, [j] the jitter fraction, [r] the random
    draw.  The float that results from adding the jitter lies between the
    floats [b - b*j] and [b + b*j] (each operation rounded), clamped below
    at zero, provided the upper one is below [2^63]. *)
Definition add_jitter (backoff jitterFraction : float64) (r : Q) : float64 :=
  let jitterRange := fmul backoff jitterFraction in
  let jitter := fsub (fmul (fmul (Finite r) (F64 2)) jitterRange) jitterRange in
  let backoff := fadd backoff jitter in
  if flt backoff (Finite 0) then Finite 0 else backoff.

(** The two ends of the jitter window, in float64 arithmetic. *)
Definition window_lo (env : Env) (cfg : RetryConfig) (attempt : Z) : float64 :=
  fsub (nominal env cfg attempt) (fmul (nominal env cfg attempt) (JitterFraction cfg)).

Definition window_hi (env : Env) (cfg : RetryConfig) (attempt : Z) : float64 :=
  fadd (nominal env cfg attempt) (fmul (nominal env cfg attempt) (JitterFraction cfg)).

(** The float that [calculateBackoff] converts to a duration. *)
Definition jittered (env : Env) (cfg : RetryConfig) (attempt : Z) (r : Q) : float64 :=
  add_jitter (nominal env cfg attempt) (JitterFraction cfg) r.

(** An operation that makes one HTTP call each time it is invoked and does
    not itself wait on the context. *)
Definition http_operation {A : Type} (fn : M A) : Prop :=
  forall w, http_calls (snd (fn w)) = S (http_calls w)
            /\ selects (snd (fn w)) = selects w.

(** A status the executor retries: 5xx or 429. *)
Definition retryable_status (st : Z) : Prop := 500 <= st \/ st = 429.

(** The world a call leaves behind that [CircuitBreaker.Execute] rejected:
    two span attributes and one reading of the clock. *)
Definition rejected_world (span : string) (w : World) : World :=
  set_trace (cons (SetAttributes span "cb.open" (AttrBool true)))
    (set_now_reads S
       (set_trace (cons (SetAttributes span "cb.state" (AttrString "open"))) w)).

(** The bulkhead hands out a permit and the breaker lets the call pass. *)
Definition let_through (env : Env) (s : OrderService) (w : World) : Prop :=
  acquire_cancelled env (acquires w) = false
  /\ exists slot,
       fst (on_entry (cb (circuitBreaker s)) (clock env (now_reads w)) (breaker w))
       = Passed slot.


(** What the executor returns when a backoff is cut short (line 82). *)
Definition cancelled_result : option Response * option error :=
  (None, Some (Errorf "retry cancelled" ErrContext)).

(** What a computation below the orchestrator may do to the world: it leaves
    the idempotency store alone and makes at most [n] HTTP calls. *)
Definition stack_effect (n : nat) (w w' : World) : Prop :=
  entries w' = entries w
  /\ store_log w' = store_log w
  /\ (http_calls w <= http_calls w' <= http_calls w + n)%nat.

Definition within (n : nat) {A : Type} (c : M A) : Prop :=
  forall w, stack_effect n w (snd (c w)).

(** The value the executor returns once the loop is over, from the outcome
    of the last attempt (lines 91-94). *)
Definition exhausted_result (cfg : RetryConfig) (out : option Response * option error)
  : option Response * option error :=
  match snd out with
  | Some e =>
      (None, Some (Errorf ("retry exhausted after " +:+ pretty (MaxAttempts cfg)
                             +:+ " attempts") e))
  | None => (fst out, None)
  end.

(** What [processOrder] may do to the world: at most [max_attempts] HTTP
    calls; the store is written exactly when the order succeeded under a
    non-empty key, and then with the order that is returned. *)
Definition order_effect (s : OrderService) (key : string) (w : World)
    (r : result CreateOrderResponse) (w' : World) : Prop :=
  (http_calls w <= http_calls w'
   <= http_calls w + Z.to_nat (MaxAttempts (retryConfig s)))%nat
  /\ match r with
     | Fail _ => entries w' = entries w /\ store_log w' = store_log w
     | Ok resp =>
         if String.eqb key "" then entries w' = entries w /\ store_log w' = store_log w
         else exists t,
           entries w' = <[key := {| OrderID := resp_OrderID resp;
                                    Status := resp_Status resp;
                                    CreatedAt := t |}]> (entries w)
           /\ store_log w' = StoreSet key :: store_log w
     end.

(** What the layers of the stack look at in the world. *)
Definition stack_view (w : World) : BreakerState * nat * nat * nat * nat :=
  (breaker w, acquires w, now_reads w, http_calls w, selects w).


(** A world in which the breaker has opened at time 0. *)
Definition open_world : World :=
  set_breaker (fun b => {| state := StateOpen; counts := counts b; opened_at := 0;
                           half_open_inflight := 0; probes_ok := false |}) NewWorld.

(** The bulkhead is saturated and the request context is done before a
    permit is free. *)
Definition env_busy : Env :=
  {| clock := fun _ => 0;
     fresh_uuid := fun n => "order-" +:+ pretty n;
     rand_float := fun _ => 0%Q;
     math_Pow := Pow_rounded;
     url_ok := fun _ => true;
     downstream := fun _ => DoResponse 200 "";
     ctx_done_first := fun _ => false;
     acquire_cancelled := fun _ => true |}.

(** The world a call leaves behind that the bulkhead rejected. *)
Definition bulkhead_rejected_world (span : string) (w : World) : World :=
  set_trace (cons (SetAttributes span "bulkhead.rejected" (AttrBool true)))
    (set_trace (cons (SetStatus span CodeError "bulkhead acquire failed"))
       (set_acquires S w)).

(** [n] orders without idempotency key, one after the other. *)
Fixpoint orders (env : Env) (s : OrderService) (n : nat) (w : World) : World :=
  match n with
  | O => w
  | S k => orders env s k (snd (CreateOrder env s order_m "" w))
  end.

(** A computation that does not look at the contents of the idempotency
    store: run on a world whose store has been changed by [f], it returns
    the same value and the same world, with the store changed by [f]. *)
Definition store_blind {A : Type} (c : M A) : Prop :=
  forall f w, c (set_entries f w) = (fst (c w), set_entries f (snd (c w))).

(** ** Further vocabulary *)

(** A computation that leaves one component of the world as it found it. *)
Definition keeps {X A : Type} (proj : World -> X) (c : M A) : Prop :=
  forall w, proj (snd (c w)) = proj w.

(** An operation that neither sleeps on the backoff timer nor draws a
    random number. *)
Definition quiet_operation {A : Type} (fn : M A) : Prop :=
  forall w, selects (snd (fn w)) = selects w /\ rand_reads (snd (fn w)) = rand_reads w.

(** The errors [doPaymentRequest] returns. *)
Inductive leaf_error : error -> Prop :=
| leaf_new_request : leaf_error ErrNewRequest
| leaf_transport : leaf_error (Errorf "payment request failed" ErrTransport)
| leaf_status status body :
    status < 200 \/ 300 <= status -> leaf_error (ErrStatus status body).

(** The errors [RetryableHTTPCall] returns when it runs [doPaymentRequest]. *)
Inductive retry_error (cfg : RetryConfig) : error -> Prop :=
| retry_cancelled : retry_error cfg (Errorf "retry cancelled" ErrContext)
| retries_exhausted cause :
    leaf_error cause ->
    retry_error cfg (Errorf ("retry exhausted after " +:+ pretty (MaxAttempts cfg)
                               +:+ " attempts") cause).

(** The errors [callPaymentService] returns.  [CircuitBreaker.Execute]
    wraps the breaker's open-state error and hands every other error on
    as it is, so a breaker that rejects with its too-many-requests error
    has a case of its own. *)
Inductive payment_error (cfg : RetryConfig) : error -> Prop :=
| bulkhead_rejected : payment_error cfg (Errorf "bulkhead limit reached" ErrContext)
| breaker_open : payment_error cfg (Errorf "circuit breaker open" ErrOpenState)
| breaker_too_many_requests : payment_error cfg ErrTooManyRequests
| retry_failed e : retry_error cfg e -> payment_error cfg e.

(** What a sweep at time [now] leaves of the entry found under a key. *)
Definition retained (now : Z) (o : option IdempotentResponse) : option IdempotentResponse :=
  match o with
  | Some c => if decide (now - 24 * Hour <= CreatedAt c) then Some c else None
  | None => None
  end.

(** ** Further instances *)

(** The default service with a retry policy that admits no attempt. *)
Definition svc_no_attempts : OrderService :=
  {| paymentURL := "http://payment-service:8081";
     circuitBreaker := NewCircuitBreaker;
     bulkhead := NewBulkhead 10;
     retryConfig := {| MaxAttempts := 0; InitialBackoff := 50 * Millisecond;
                       MaxBackoff := 1 * Second; BackoffMultiple := F64 2;
                       JitterFraction := F64 (3 # 10) |} |}.

(** The default policy without jitter. *)
Definition cfg_no_jitter : RetryConfig :=
  {| MaxAttempts := 3; InitialBackoff := 50 * Millisecond; MaxBackoff := 1 * Second;
     BackoffMultiple := F64 2; JitterFraction := F64 0 |}.

(** A policy whose backoffs are not float64 numbers. *)
Definition cfg_2_53 : RetryConfig :=
  {| MaxAttempts := 3; InitialBackoff := 2 ^ 53 + 3; MaxBackoff := 2 ^ 53 + 3;
     BackoffMultiple := F64 1; JitterFraction := F64 0 |}.

(** An operation that answers 404 with a nil error. *)
Definition answers_404 : M (option Response * option error) :=
  fun w => ((Some {| StatusCode := 404 |}, None), set_http_calls S w).

(** A store that holds one order, created at time 0. *)
Definition one_entry_world : World :=
  set_entries (insert "k-1" {| OrderID := "order-0"; Status := "completed"; CreatedAt := 0 |})
    NewWorld.

(** A healthy downstream, 25 hours after time 0. *)
Definition env_next_day : Env :=
  {| clock := fun _ => 25 * Hour;
     fresh_uuid := fun n => "order-" +:+ pretty n;
     rand_float := fun _ => 0%Q;
     math_Pow := Pow_rounded;
     url_ok := fun _ => true;
     downstream := fun _ => DoResponse 200 "";
     ctx_done_first := fun _ => false;
     acquire_cancelled := fun _ => false |}.

(** The downstream answers 200 to the first call and 500 to the later
    ones; the first backoff is slept in full and the second is cut short. *)
Definition env_second_backoff_cut : Env :=
  {| clock := fun _ => 0;
     fresh_uuid := fun n => "order-" +:+ pretty n;
     rand_float := fun _ => 0%Q;
     math_Pow := Pow_rounded;
     url_ok := fun _ => true;
     downstream := fun n => match n with O => DoResponse 200 "" | _ => DoResponse 500 "" end;
     ctx_done_first := fun n => match n with O => false | _ => true end;
     acquire_cancelled := fun _ => false |}.

(** ** The steps of [CreateOrder] *)

(** The world in which [CreateOrder] enters the payment call after a lookup
    under a non-empty key has found nothing. *)
Definition miss_world (env : Env) (req : CreateOrderRequest) (key : string) (w : World)
  : World :=
  set_trace (cons (SetAttributes "createOrder" "order.id"
                     (AttrString (fresh_uuid env (uuid_reads w)))))
    (set_uuid_reads S
       (set_store_log (cons (StoreGet key))
          (set_trace (cons (SetAttributes "createOrder" "idempotency.key" (AttrString key)))
             (set_trace (cons (SpanStart "createOrder"
                                 [("merchant.id", AttrString (MerchantID req));
                                  ("order.amount", AttrFloat (Amount req));
                                  ("order.currency", AttrString (Currency req))])) w)))).

(** The world [CreateOrder] leaves when the persist step has returned nil
    in world [w3]: two readings of the clock, the write to the store, the
    status and the end of the span. *)
Definition stored_world (env : Env) (key orderID : string) (w3 : World) : World :=
  set_trace (cons (SpanEnd "createOrder"))
    (set_trace (cons (SetStatus "createOrder" CodeOk "order created successfully"))
       (set_entries (insert key {| OrderID := orderID; Status := "completed";
                                   CreatedAt := clock env (S (now_reads w3)) |})
          (set_store_log (cons (StoreSet key))
             (set_now_reads S (set_now_reads S w3))))).

(** The world [CreateOrder] leaves when the payment call or the persist step
    has failed with [e] in world [w2]. *)
Definition failed_world (e : error) (w2 : World) : World :=
  set_trace (cons (SpanEnd "createOrder"))
    (set_trace (cons (SetStatusErr "createOrder" e)) w2).

(** A persist step that fails, as a database that honours a done context
    would. *)
Definition persist_fails (orderID : string) (req : CreateOrderRequest) : M (option error) :=
  ret (Some ErrContext).

(** The first of the two lock sections of [CreateOrder] on the store:
    lines 62-76, up to the return of [Get]. *)
Definition CreateOrder_lookup (req : CreateOrderRequest) (idempotencyKey : string)
  : M (option IdempotentResponse) :=
  let span := "createOrder" in
  span_op (SpanStart span [("merchant.id", AttrString (MerchantID req));
                           ("order.amount", AttrFloat (Amount req));
                           ("order.currency", AttrString (Currency req))]);;
  if negb (String.eqb idempotencyKey "") then
    span_op (SetAttributes span "idempotency.key" (AttrString idempotencyKey));;
    Get idempotencyKey
  else ret None.

(** The rest of [CreateOrder] (lines 76-118), given what the lookup
    returned. *)
Definition CreateOrder_rest (env : Env) (s : OrderService) (req : CreateOrderRequest)
    (idempotencyKey : string) (cached : option IdempotentResponse)
  : M (result CreateOrderResponse) :=
  let span := "createOrder" in
  let* r :=
    match cached with
    | Some cached =>
        span_op (AddEvent span "idempotent_request_cached" []);;
        ret (Ok {| resp_OrderID := OrderID cached;
                   resp_Status := Status cached;
                   resp_CreatedAt := Format_RFC3339 (CreatedAt cached) |})
    | None => processOrder env s span req idempotencyKey
    end in
  span_op (SpanEnd span);;
  ret r.

(** Two requests with the same key of which the second runs between the
    two lock sections of the first. *)
Definition second_between (env : Env) (s : OrderService) (req : CreateOrderRequest)
    (key : string) (w : World) : World :=
  snd (CreateOrder env s req key w).

(** ** handler/order.go *)

(** What the handler reads from the [gin.Context]: the outcome of
    [ShouldBindJSON] on the body, and the request headers. *)
Record gin_Context := {
  ShouldBindJSON : result CreateOrderRequest;
  Header : gmap string string
}.

(** [c.GetHeader(key)]: the empty string when the header is absent. *)
Definition GetHeader (c : gin_Context) (key : string) : string :=
  default ""%string (Header c !! key).

(** The value handed to [c.JSON]. *)
Inductive JSONBody :=
| ErrorBody (err : error)                  (* gin.H{"error": err.Error()} *)
| OrderBody (resp : CreateOrderResponse).

Record Reply := { Status_ : Z; Body : JSONBody }.

Definition StatusOK : Z := 200.
Definition StatusBadRequest : Z := 400.
Definition StatusInternalServerError : Z := 500.

(** [OrderHandler.CreateOrder] *)
Definition OrderHandler_CreateOrder (env : Env) (orderService : OrderService)
    (c : gin_Context) : M Reply :=
  match ShouldBindJSON c with
  | Fail err => ret {| Status_ := StatusBadRequest; Body := ErrorBody err |}
  | Ok req =>
      let idempotencyKey := GetHeader c "Idempotency-Key" in
      let* r := CreateOrder env orderService req idempotencyKey in
      match r with
      | Fail err => ret {| Status_ := StatusInternalServerError; Body := ErrorBody err |}
      | Ok resp => ret {| Status_ := StatusOK; Body := OrderBody resp |}
      end
  end.

(** * payment-service *)

Module Payment.

Record PaymentService := {
  delayMS : Z;
  errorPercentage : Q
}.

Record ChargeRequest := {
  OrderID : string;
  MerchantID : string;
  Amount : Q;
  Currency : string
}.

Record ChargeResponse := {
  TransactionID : string;
  Status : string;
  resp_Amount : Q;
  resp_Currency : string
}.

(** The two errors the service creates with [fmt.Errorf]. *)
Inductive ChargeError :=
| ErrInjected                      (* "payment gateway error (injected)" *)
| ErrInvalidAmount (amount : Q).   (* "invalid amount: %f" *)

Section Service.
Variable env : Env.
(** The rendering of a float by the verb [%f]. *)
Variable Sprintf_f : Q -> string.
Variable s : PaymentService.

(** [err.Error()] *)
Definition Error_ (e : ChargeError) : string :=
  match e with
  | ErrInjected => "payment gateway error (injected)"
  | ErrInvalidAmount amount => "invalid amount: " +:+ Sprintf_f amount
  end.

(** [p > 0 && rand.Float64()*100 < p]: the random number is drawn only
    when the percentage is positive. *)
Definition drawn_below (p : Q) : M bool :=
  if Qltb 0 p then
    let* r := rand_Float64 env in
    ret (Qltb (r * 100) p)
  else ret false.

(** [validateRequest]; the sleep of 5ms leaves no trace. *)
Definition validateRequest (req : ChargeRequest) : M (option ChargeError) :=
  span_op (SpanStart "validate" []);;
  if Qle_bool (Amount req) 0 then
    span_op (SpanEnd "validate");;
    ret (Some (ErrInvalidAmount (Amount req)))
  else
    span_op (SetStatus "validate" CodeOk "validation passed");;
    span_op (SpanEnd "validate");;
    ret None.

(** [callPaymentGateway]: it never fails. *)
Definition callPaymentGateway (req : ChargeRequest) : M (string * option ChargeError) :=
  span_op (SpanStart "gatewayCall" []);;
  let* transactionID := uuid_New env in
  span_op (SetAttributes "gatewayCall" "transaction.id" (AttrString transactionID));;
  span_op (SetStatus "gatewayCall" CodeOk "gateway call successful");;
  span_op (SpanEnd "gatewayCall");;
  ret (transactionID, None).

(** [ProcessCharge]; the injected delay is a sleep and leaves only its
    span attribute. *)
Definition ProcessCharge (req : ChargeRequest)
  : M (option ChargeResponse * option ChargeError) :=
  let span := "processCharge" in
  span_op (SpanStart span [("order.id", AttrString (OrderID req));
                           ("merchant.id", AttrString (MerchantID req));
                           ("payment.amount", AttrFloat (Amount req));
                           ("payment.currency", AttrString (Currency req))]);;
  when (0 <? delayMS s)
    (span_op (SetAttributes span "fault.injected_delay_ms" (AttrInt (delayMS s))));;
  let* inject := drawn_below (errorPercentage s) in
  if inject then
    span_op (SetAttributes span "fault.injected_error" (AttrBool true));;
    span_op (SetStatus span CodeError "injected error for testing");;
    span_op (SpanEnd span);;
    ret (None, Some ErrInjected)
  else
    let* err := validateRequest req in
    match err with
    | Some err =>
        span_op (SetStatus span CodeError (Error_ err));;
        span_op (SpanEnd span);;
        ret (None, Some err)
    | None =>
        let* out := callPaymentGateway req in
        match snd out with
        | Some err =>
            span_op (SetStatus span CodeError (Error_ err));;
            span_op (SpanEnd span);;
            ret (None, Some err)
        | None =>
            let response := {| TransactionID := fst out;
                               Status := "approved";
                               resp_Amount := Amount req;
                               resp_Currency := Currency req |} in
            span_op (SetStatus span CodeOk "payment processed");;
            span_op (SpanEnd span);;
            ret (Some response, None)
        end
    end.
End Service.

(** ** The handler of the payment service *)

Record PaymentHandler := {
  paymentService : PaymentService;
  rateLimitPct : Q
}.

(** The outcome of [c.ShouldBindJSON(&req)] on the body of the request:
    the request, or the message of the binding error. *)
Record gin_Context := {
  ShouldBindJSON : ChargeRequest + string
}.

(** The value handed to [c.JSON]. *)
Inductive JSONBody :=
| RateLimitBody                      (* gin.H{"error": "rate limit exceeded"} *)
| BindErrorBody (msg : string)
| ChargeErrorBody (e : ChargeError)
| ChargeBody (resp : option ChargeResponse).   (* the pointer [resp], nil or not *)

Record Reply := { Status_ : Z; Body : JSONBody }.

Section Handler.
Variable env : Env.
Variable Sprintf_f : Q -> string.

(** [PaymentHandler.Charge] *)
Definition Charge (h : PaymentHandler) (c : gin_Context) : M Reply :=
  let* limited := drawn_below env (rateLimitPct h) in
  if limited then ret {| Status_ := 429; Body := RateLimitBody |}
  else
    match ShouldBindJSON c with
    | inr err => ret {| Status_ := 400; Body := BindErrorBody err |}
    | inl req =>
        let* out := ProcessCharge env Sprintf_f (paymentService h) req in
        match snd out with
        | Some err => ret {| Status_ := 500; Body := ChargeErrorBody err |}
        | None => ret {| Status_ := 200; Body := ChargeBody (fst out) |}
        end
    end.
End Handler.

(** A service without fault injection, one that fails every charge, and a
    charge of 10 USD. *)
Definition no_faults : PaymentService := {| delayMS := 0; errorPercentage := 0 |}.
Definition all_faults : PaymentService := {| delayMS := 0; errorPercentage := 100 |}.
Definition charge_m : ChargeRequest :=
  {| OrderID := "order-0"; MerchantID := "m"; Amount := 10; Currency := "USD" |}.
End Payment.

(** * loadgen *)

Module Loadgen.

Record Stats := {
  total : Z;
  success : Z;
  failed : Z;
  timeout : Z;
  durations : list Z;
  statusCode : gmap Z Z
}.

(** [m[code]++] on a Go map: a missing key counts as zero. *)
Definition increment (code : Z) (m : gmap Z Z) : gmap Z Z :=
  <[code := default 0 (m !! code) + 1]> m.

Definition recordSuccess (duration : Z) (code : Z) (s : Stats) : Stats :=
  {| total := total s; success := success s + 1; failed := failed s;
     timeout := timeout s;
     durations := durations s ++ [duration];
     statusCode := increment code (statusCode s) |}.

Definition recordFailure (s : Stats) : Stats :=
  {| total := total s; success := success s; failed := failed s + 1;
     timeout := timeout s; durations := durations s; statusCode := statusCode s |}.

Definition recordTimeout (s : Stats) : Stats :=
  {| total := total s; success := success s; failed := failed s;
     timeout := timeout s + 1; durations := durations s; statusCode := statusCode s |}.

(** What happens to the request [makeRequest] builds. *)
Inductive Outcome :=
| NewRequestFailed                         (* http.NewRequest returned an error *)
| DoFailed                                 (* client.Do returned an error *)
| Answered (status : Z) (duration : Z).

(** [makeRequest], given the outcome of its request.  The counters are
    updated atomically or under the mutex, and the updates commute. *)
Definition makeRequest (o : Outcome) (stats : Stats) : Stats :=
  match o with
  | NewRequestFailed => recordFailure stats
  | DoFailed => recordTimeout stats
  | Answered status duration =>
      if (200 <=? status) && (status <? 300)
      then recordSuccess duration status stats
      else
        let stats := recordFailure stats in
        {| total := total stats; success := success stats; failed := failed stats;
           timeout := timeout stats; durations := durations stats;
           statusCode := increment status (statusCode stats) |}
  end.

(** The requests of a run, in the order in which they complete. *)
Definition makeRequests (os : list Outcome) (stats : Stats) : Stats :=
  fold_left (fun s o => makeRequest o s) os stats.

(** The [Stats] that [main] starts with. *)
Definition NewStats : Stats :=
  {| total := 0; success := 0; failed := 0; timeout := 0; durations := [];
     statusCode := ∅ |}.

(** ** printResults: the latency statistics *)

(** The body of the inner loop of the sort: indexing out of range panics
    ([None]). *)
Definition compare_swap (i j : nat) (d : list Z) : option (list Z) :=
  match d !! i, d !! j with
  | Some x, Some y => Some (if y <? x then <[j := x]> (<[i := y]> d) else d)
  | _, _ => None
  end.

(** The inner loop, entered at [j] with [n] iterations to go: [n] is
    [len(durations) - j], and the length does not change. *)
Fixpoint sort_inner (n : nat) (i j : nat) (d : list Z) : option (list Z) :=
  match n with
  | O => Some d
  | S n' =>
      match compare_swap i j d with
      | Some d' => sort_inner n' i (S j) d'
      | None => None
      end
  end.

(** The outer loop, entered at [i] with [n = len(durations) - i]. *)
Fixpoint sort_outer (n : nat) (i : nat) (d : list Z) : option (list Z) :=
  match n with
  | O => Some d
  | S n' =>
      match sort_inner (length d - S i) i (S i) d with
      | Some d' => sort_outer n' (S i) d'
      | None => None
      end
  end.

(** The sort of lines 158-165. *)
Definition sort (d : list Z) : option (list Z) := sort_outer (length d) 0 d.

Record Latency := {
  Average : Z; P50 : Z; P95 : Z; P99 : Z; Min : Z; Max : Z
}.

Inductive Printed :=
| NoLatency                 (* no duration was recorded: the section is skipped *)
| Panic                     (* index out of range *)
| LatencyStatistics (l : Latency).

Definition sum (d : list Z) : Z := fold_left Z.add d 0.

(** The latency section of [printResults] (lines 152-183). *)
Definition latency (stats : Stats) : Printed :=
  let len := length (durations stats) in
  if (0 <? len)%nat then
    match sort (durations stats) with
    | None => Panic
    | Some d =>
        match d !! (len * 50 / 100)%nat, d !! (len * 95 / 100)%nat,
              d !! (len * 99 / 100)%nat, d !! 0%nat, d !! (len - 1)%nat with
        | Some p50, Some p95, Some p99, Some mn, Some mx =>
            LatencyStatistics
              {| Average := Z.quot (sum d) (Z.of_nat len);
                 P50 := p50; P95 := p95; P99 := p99; Min := mn; Max := mx |}
        | _, _, _, _, _ => Panic
        end
    end
  else NoLatency.

(** ** Vocabulary for the properties of the load generator *)

Definition answered_with (code : Z) (o : Outcome) : bool :=
  match o with Answered status _ => status =? code | _ => false end.

Definition is_success (o : Outcome) : bool :=
  match o with Answered status _ => (200 <=? status) && (status <? 300) | _ => false end.

Definition success_duration (o : Outcome) : option Z :=
  match o with
  | Answered status d => if (200 <=? status) && (status <? 300) then Some d else None
  | _ => None
  end.

(** Every position before [i] holds a value that no later position undercuts. *)
Definition settled (i : nat) (d : list Z) : Prop :=
  forall p k x y, (p < i)%nat -> (p < k)%nat ->
    d !! p = Some x -> d !! k = Some y -> x <= y.

(** Position [i] holds a value that no position in [(i, j)] undercuts. *)
Definition leads (i j : nat) (d : list Z) : Prop :=
  forall k x y, (i < k < j)%nat -> d !! i = Some x -> d !! k = Some y -> x <= y.
End Loadgen.

(** * Properties *)

(** ** Sanity checks of the time rendering *)

Example rfc3339_sample :
  Format_RFC3339 (1705314645 * Second + 999) = "2024-01-15T10:30:45Z"%string.
Proof. vm_compute. reflexivity. Qed.

Example rfc3339_epoch : Format_RFC3339 0 = "1970-01-01T00:00:00Z"%string.
Proof. vm_compute. reflexivity. Qed.

Example rfc3339_leap_day :
  Format_RFC3339 (1709251199 * Second) = "2024-02-29T23:59:59Z"%string.
Proof. vm_compute. reflexivity. Qed.

(** ** Effects of the layers below the orchestrator *)

Lemma stack_effect_refl w : stack_effect 0 w w.
Proof. unfold stack_effect. repeat split; lia. Qed.

Lemma stack_effect_trans n m p w1 w2 w3 :
  stack_effect n w1 w2 -> stack_effect m w2 w3 -> (n + m <= p)%nat ->
  stack_effect p w1 w3.
Proof.
  unfold stack_effect. intros (E1 & L1 & C1) (E2 & L2 & C2) Hp.
  repeat split; try congruence; lia.
Qed.

Lemma within_mono {A} n m (c : M A) : within n c -> (n <= m)%nat -> within m c.
Proof.
  intros H Hle w. eapply stack_effect_trans; [apply H | apply stack_effect_refl | lia].
Qed.

Lemma within_ret {A} (a : A) : within 0 (ret a).
Proof. intros w. apply stack_effect_refl. Qed.

Lemma within_bind {A B} n m p (c : M A) (k : A -> M B) :
  within n c -> (forall a, within m (k a)) -> (n + m <= p)%nat ->
  within p (bind c k).
Proof.
  intros Hc Hk Hp w. unfold bind.
  specialize (Hc w). destruct (c w) as [a w1]. simpl in Hc.
  eapply stack_effect_trans; [exact Hc | apply Hk | exact Hp].
Qed.

Lemma within_seq0 {A B} n (c : M A) (k : M B) :
  within 0 c -> within n k -> within n (bind c (fun _ => k)).
Proof. intros Hc Hk. apply (within_bind 0 n); auto. Qed.

Lemma within_span_op op : within 0 (span_op op).
Proof. intros w. unfold span_op, stack_effect. simpl. repeat split; lia. Qed.

Lemma within_time_Now env : within 0 (time_Now env).
Proof. intros w. unfold time_Now, stack_effect. simpl. repeat split; lia. Qed.

Lemma within_uuid_New env : within 0 (uuid_New env).
Proof. intros w. unfold uuid_New, stack_effect. simpl. repeat split; lia. Qed.

Lemma within_rand_Float64 env : within 0 (rand_Float64 env).
Proof. intros w. unfold rand_Float64, stack_effect. simpl. repeat split; lia. Qed.

Lemma within_select_backoff env d : within 0 (select_backoff env d).
Proof. intros w. unfold select_backoff, stack_effect. simpl. repeat split; lia. Qed.

Lemma within_get_breaker : within 0 get_breaker.
Proof. intros w. unfold get_breaker, stack_effect. simpl. repeat split; lia. Qed.

Lemma within_put_breaker b : within 0 (put_breaker b).
Proof. intros w. unfold put_breaker, stack_effect. simpl. repeat split; lia. Qed.

Lemma within_sem_Acquire env : within 0 (sem_Acquire env).
Proof.
  intros w. unfold sem_Acquire, stack_effect.
  destruct (acquire_cancelled env (acquires w)); simpl; repeat split; lia.
Qed.

Lemma within_sem_Release : within 0 sem_Release.
Proof. intros w. unfold sem_Release, stack_effect. simpl. repeat split; lia. Qed.

Lemma within_httpClient_Do env : within 1 (httpClient_Do env).
Proof. intros w. unfold httpClient_Do, stack_effect. simpl. repeat split; lia. Qed.

Lemma within_when b (c : M unit) : within 0 c -> within 0 (when b c).
Proof. intros H. destruct b; simpl; [exact H | apply within_ret]. Qed.

Create HintDb stack.

#[local] Hint Resolve within_ret within_span_op within_time_Now within_uuid_New
  within_rand_Float64 within_select_backoff within_get_breaker within_put_breaker
  within_sem_Acquire within_sem_Release within_when : stack.

(** Sequencing steps that make no HTTP call in front of [k]. *)
Ltac quiet_steps :=
  repeat first
    [ apply within_ret
    | apply within_seq0; [solve [auto with stack] |]
    | apply (within_bind 0 0 0); [solve [auto with stack] | intros ? | lia] ].

Lemma within_doPaymentRequest env s span orderID req :
  within 1 (doPaymentRequest env s span orderID req).
Proof.
  unfold doPaymentRequest.
  destruct (negb (url_ok env (paymentURL s +:+ "/charge"))).
  { apply (within_mono 0); [apply within_ret | lia]. }
  apply (within_bind 1 0); [apply within_httpClient_Do | | lia].
  intros [|status body].
  - quiet_steps.
  - destruct ((status <? 200) || (300 <=? status)); quiet_steps.
Qed.

Lemma within_persistOrder orderID req : within 0 (persistOrder orderID req).
Proof. unfold persistOrder. quiet_steps. Qed.

Section RetryEffects.
Context (env : Env) (span : string) (cfg : RetryConfig).
Context (fn : M (option Response * option error)).
Hypothesis fn_one : within 1 fn.

Lemma within_retry_exhausted resp lastErr :
  within 0 (retry_exhausted span cfg resp lastErr).
Proof. unfold retry_exhausted. quiet_steps. destruct lastErr; apply within_ret. Qed.

(** The loop makes at most as many calls as it has iterations left. *)
Lemma within_retry_loop remaining : forall attempt resp lastErr,
  within remaining (retry_loop env span cfg fn remaining attempt resp lastErr).
Proof.
  induction remaining as [|k IH]; intros attempt resp lastErr.
  - apply within_retry_exhausted.
  - cbn [retry_loop].
    apply (within_bind 0 (S k)); [auto with stack | intros _ | lia].
    apply (within_bind 1 k); [exact fn_one | intros out | lia].
    cbv zeta.
    destruct (attempt_ok (fst out) (snd out)).
    { apply (within_mono 0); [quiet_steps | lia]. }
    apply within_seq0.
    { destruct (snd out); [|destruct (fst out)]; auto with stack. }
    destruct (attempt <? MaxAttempts cfg - 1); [|apply IH].
    apply (within_bind 0 k); [auto with stack | intros r | lia].
    apply within_seq0; [auto with stack |].
    apply (within_bind 0 k); [auto with stack | intros cancelled | lia].
    destruct cancelled; [|apply IH].
    apply (within_mono 0); [quiet_steps | lia].
Qed.

Lemma within_RetryableHTTPCall :
  within (Z.to_nat (MaxAttempts cfg)) (RetryableHTTPCall env span cfg fn).
Proof. apply within_retry_loop. Qed.
End RetryEffects.

Lemma within_Bulkhead_Execute env b span n (fn : M (option error)) :
  within n fn -> within n (Bulkhead_Execute env b span fn).
Proof.
  intros Hfn. unfold Bulkhead_Execute.
  apply (within_bind 0 n); [auto with stack | intros [err|] | lia].
  - apply (within_mono 0); [quiet_steps | lia].
  - apply within_seq0; [auto with stack |].
    apply (within_bind n 0); [exact Hfn | intros r; quiet_steps | lia].
Qed.

Lemma within_gobreaker_Execute env st n (req : M (option error)) :
  within n req -> within n (gobreaker_Execute env st req).
Proof.
  intros Hreq. unfold gobreaker_Execute.
  apply (within_bind 0 n); [auto with stack | intros now | lia].
  apply (within_bind 0 n); [auto with stack | intros b | lia].
  destruct (on_entry st now b) as [[e|slot] b'].
  - apply (within_mono 0); [apply within_ret | lia].
  - apply within_seq0; [auto with stack |].
    apply (within_bind n 0); [exact Hreq | intros err; quiet_steps | lia].
Qed.

Lemma within_CircuitBreaker_Execute env c span n (fn : M (option error)) :
  within n fn -> within n (CircuitBreaker_Execute env c span fn).
Proof.
  intros Hfn. unfold CircuitBreaker_Execute, gobreaker_State.
  apply (within_bind 0 n); [quiet_steps | intros st | lia].
  apply within_seq0; [auto with stack |].
  apply (within_bind n 0); [apply within_gobreaker_Execute, Hfn | intros [err|] | lia].
  - destruct (errors_Is err ErrOpenState); quiet_steps.
  - apply within_ret.
Qed.

Lemma within_callPaymentService env s orderID req :
  within (Z.to_nat (MaxAttempts (retryConfig s))) (callPaymentService env s orderID req).
Proof.
  unfold callPaymentService. cbv zeta.
  apply within_seq0; [auto with stack |].
  apply within_seq0; [auto with stack |].
  set (n := Z.to_nat (MaxAttempts (retryConfig s))).
  apply (within_bind n 0); [| intros [err|]; quiet_steps | lia].
  apply within_Bulkhead_Execute, within_CircuitBreaker_Execute.
  apply (within_bind n 0); [| intros out; apply within_ret | lia].
  apply within_RetryableHTTPCall, within_doPaymentRequest.
Qed.

(** ** Effects of the orchestrator *)

Lemma processOrder_effect env s span req key w r w' :
  processOrder env s span req key w = (r, w') -> order_effect s key w r w'.
Proof.
  unfold processOrder, processOrder_with, bind. cbn [uuid_New span_op].
  match goal with |- context [callPaymentService env s ?o req ?w1] =>
    pose proof (within_callPaymentService env s o req w1) as H;
    destruct (callPaymentService env s o req w1) as [err w2] end.
  unfold stack_effect in H. simpl in H. destruct H as (He & Hl & Hc).
  destruct err as [err|].
  - intros [= <- <-]. unfold order_effect. simpl. repeat split; try congruence; lia.
  - unfold persistOrder, bind, span_op, ret, time_Now. simpl.
    unfold order_effect.
    destruct (String.eqb key ""); simpl; intros [= <- <-]; simpl.
    + repeat split; try congruence; lia.
    + repeat split; try lia. eexists. rewrite He, Hl. split; reflexivity.
Qed.

Lemma order_effect_end s key w r w' op :
  order_effect s key w r w' -> order_effect s key w r (set_trace (cons op) w').
Proof. unfold order_effect. simpl. tauto. Qed.

(** The three ways of [CreateOrder]: a cache hit, no key, a cache miss. *)
Lemma CreateOrder_effect env s req key w r w' :
  CreateOrder env s req key w = (r, w') ->
  (exists cached, key <> ""%string /\ entries w !! key = Some cached
     /\ r = Ok {| resp_OrderID := OrderID cached; resp_Status := Status cached;
                  resp_CreatedAt := Format_RFC3339 (CreatedAt cached) |}
     /\ entries w' = entries w /\ store_log w' = StoreGet key :: store_log w
     /\ http_calls w' = http_calls w)
  \/ (key = ""%string /\ order_effect s key w r w')
  \/ (key <> ""%string /\ entries w !! key = None /\
       exists w1, entries w1 = entries w /\ store_log w1 = StoreGet key :: store_log w
         /\ http_calls w1 = http_calls w /\ order_effect s key w1 r w').
Proof.
  unfold CreateOrder, CreateOrder_with. cbv zeta. unfold bind at 1. cbn [span_op].
  unfold bind at 1.
  destruct (String.eqb_spec key "") as [->|Hne]; cbn [negb].
  - cbn [ret]. unfold bind.
    destruct (processOrder_with _ _ _ _ _ _ _) as [r0 w0] eqn:E.
    apply processOrder_effect in E.
    cbn. intros [= <- <-]. right; left. split; [reflexivity|].
    apply order_effect_end. exact E.
  - unfold bind at 1. cbn [span_op Get].
    cbn [entries set_trace set_store_log].
    destruct (entries w !! key) as [cached|] eqn:Hk.
    + unfold bind, span_op, ret. cbn. intros [= <- <-].
      left. exists cached. repeat split; auto.
    + unfold bind.
      destruct (processOrder_with _ _ _ _ _ _ _) as [r0 w0] eqn:E.
      apply processOrder_effect in E.
      cbn. intros [= <- <-]. right; right.
      split; [exact Hne|]. split; [reflexivity|].
      eexists. split; [|split; [|split; [|apply order_effect_end; exact E]]];
        reflexivity.
Qed.

(** ** Runs of the retry loop *)

Section RetryRuns.
Context (env : Env) (span : string) (cfg : RetryConfig).
Context (fn : M (option Response * option error)).
Hypothesis fn_http : http_operation fn.

Abbreviation loop := (retry_loop env span cfg fn).

(** One iteration whose attempt fails: the three ways it can go on. *)
Lemma retry_iteration k attempt resp lastErr w :
  let w0 := set_trace (cons (SetAttributes span "retry.attempt" (AttrInt attempt))) w in
  let out := fst (fn w0) in
  attempt_ok (fst out) (snd out) = false ->
  ((attempt <? MaxAttempts cfg - 1) = false ->
     exists w1, http_calls w1 = S (http_calls w) /\ selects w1 = selects w /\
       loop (S k) attempt resp lastErr w = loop k (attempt + 1) (fst out) (snd out) w1)
  /\ ((attempt <? MaxAttempts cfg - 1) = true ->
      ctx_done_first env (selects w) = true ->
      exists w1, http_calls w1 = S (http_calls w) /\
        loop (S k) attempt resp lastErr w = (cancelled_result, w1))
  /\ ((attempt <? MaxAttempts cfg - 1) = true ->
      ctx_done_first env (selects w) = false ->
      exists w1, http_calls w1 = S (http_calls w) /\ selects w1 = S (selects w) /\
        loop (S k) attempt resp lastErr w = loop k (attempt + 1) (fst out) (snd out) w1).
Proof.
  intros w0 out Hf; subst out.
  remember (loop (S k) attempt resp lastErr w) as L eqn:HL.
  cbn [retry_loop] in HL. unfold bind at 1 in HL. cbn [span_op] in HL.
  unfold bind at 1 in HL. fold w0 in HL.
  pose proof (fn_http w0) as [Hc Hs].
  destruct (fn w0) as [out wf]. cbn [fst snd] in *. rewrite Hf in HL.
  change (http_calls w0) with (http_calls w) in Hc.
  change (selects w0) with (selects w) in Hs.
  unfold bind at 1 in HL.
  assert (Hrec : exists wr, http_calls wr = S (http_calls w) /\ selects wr = selects w /\
            (match snd out with
             | Some e => span_op (AddEvent span "retry_due_to_error" [("error", AttrError e)])
             | None => match fst out with
                       | Some r => span_op (AddEvent span "retry_due_to_status"
                                      [("status_code", AttrInt (StatusCode r))])
                       | None => ret tt
                       end
             end) wf = (tt, wr)).
  { destruct (snd out) as [e|]; [|destruct (fst out) as [r|]];
      eexists; (split; [|split; [|reflexivity]]); cbn; assumption. }
  destruct Hrec as (wr & Hcr & Hsr & Hrec). rewrite Hrec in HL. clear Hrec.
  repeat split.
  - intros Hlt. rewrite Hlt in HL. exists wr. auto.
  - intros Hlt Hd. rewrite Hlt in HL.
    unfold bind, rand_Float64, span_op, select_backoff, ret in HL. cbn in HL.
    rewrite Hsr, Hd in HL. eexists. split; [|exact HL]. cbn. exact Hcr.
  - intros Hlt Hd. rewrite Hlt in HL.
    unfold bind at 1 2 3, rand_Float64, span_op, select_backoff in HL. cbn in HL.
    rewrite Hsr, Hd in HL. eexists. split; [|split; [|exact HL]]; cbn; congruence.
Qed.

(** When every attempt fails and no backoff is cut short the loop runs to
    its end: [S k] invocations, and the outcome of the last one decides
    the result. *)
Lemma retry_loop_exhausts k : forall attempt resp lastErr w,
  (forall w, attempt_ok (fst (fst (fn w))) (snd (fst (fn w))) = false) ->
  (forall i, ctx_done_first env i = false) ->
  attempt + Z.of_nat (S k) = MaxAttempts cfg ->
  exists w_last w',
    loop (S k) attempt resp lastErr w = (exhausted_result cfg (fst (fn w_last)), w')
    /\ http_calls w_last = (http_calls w + k)%nat
    /\ http_calls w' = (http_calls w + S k)%nat.
Proof.
  induction k as [|k IH]; intros attempt resp lastErr w fn_fails never_cancelled Hk.
  - destruct (retry_iteration 0 attempt resp lastErr w (fn_fails _)) as (Hlast & _ & _).
    destruct Hlast as (w1 & Hc1 & _ & ->); [apply Z.ltb_ge; lia|].
    exists (set_trace (cons (SetAttributes span "retry.attempt" (AttrInt attempt))) w).
    eexists. split; [|split].
    + cbn [retry_loop]. unfold retry_exhausted, exhausted_result, bind, span_op.
      match goal with |- context [snd (fst (fn ?w0))] =>
        destruct (snd (fst (fn w0))) end; reflexivity.
    + cbn. lia.
    + cbn. lia.
  - destruct (retry_iteration (S k) attempt resp lastErr w (fn_fails _)) as (_ & _ & Hnext).
    destruct Hnext as (w1 & Hc1 & _ & ->); [apply Z.ltb_lt; lia | apply never_cancelled |].
    edestruct (IH (attempt + 1)) as (wl & w' & -> & Hl & Hc'); [assumption .. | lia |].
    exists wl, w'. split; [reflexivity|]. lia.
Qed.

(** When the next [k + 1] attempts fail and the backoff after the last
    of them is the first to be cut short, the loop returns the
    cancellation error after [k + 1] invocations. *)
Lemma retry_loop_cancelled k : forall remaining attempt resp lastErr w,
  (forall w', (http_calls w <= http_calls w' <= http_calls w + k)%nat ->
              attempt_ok (fst (fst (fn w'))) (snd (fst (fn w'))) = false) ->
  (k < remaining)%nat ->
  attempt + Z.of_nat k < MaxAttempts cfg - 1 ->
  (forall i, (i < k)%nat -> ctx_done_first env (selects w + i) = false) ->
  ctx_done_first env (selects w + k) = true ->
  exists w',
    loop remaining attempt resp lastErr w = (cancelled_result, w')
    /\ http_calls w' = (http_calls w + S k)%nat.
Proof.
  induction k as [|k IH]; intros remaining attempt resp lastErr w Hfail Hrem Hlt Hnot Hdone;
    (destruct remaining as [|remaining]; [lia|]).
  - destruct (retry_iteration remaining attempt resp lastErr w) as (_ & Hcancel & _).
    { apply Hfail. cbn. lia. }
    destruct Hcancel as (w1 & Hc1 & ->).
    + apply Z.ltb_lt; lia.
    + rewrite <- Hdone. f_equal. lia.
    + exists w1. split; [reflexivity | lia].
  - destruct (retry_iteration remaining attempt resp lastErr w) as (_ & _ & Hnext).
    { apply Hfail. cbn. lia. }
    destruct Hnext as (w1 & Hc1 & Hs1 & ->).
    + apply Z.ltb_lt; lia.
    + rewrite <- (Hnot 0%nat); [f_equal; lia | lia].
    + edestruct (IH remaining (attempt + 1)) as (w' & -> & Hc').
      * intros w' Hw'. apply Hfail. lia.
      * lia.
      * lia.
      * intros i Hi. rewrite Hs1. rewrite <- (Hnot (S i)); [f_equal; lia | lia].
      * rewrite Hs1. rewrite <- Hdone. f_equal. lia.
      * exists w'. split; [reflexivity | lia].
Qed.
End RetryRuns.

(** ** The leaf operation and the way down to it *)

Lemma doPaymentRequest_outcome env s span orderID req w :
  url_ok env (paymentURL s +:+ "/charge") = true ->
  fst (doPaymentRequest env s span orderID req w) =
    match downstream env (http_calls w) with
    | DoError => (None, Some (Errorf "payment request failed" ErrTransport))
    | DoResponse status body =>
        if (status <? 200) || (300 <=? status)
        then (Some {| StatusCode := status |}, Some (ErrStatus status body))
        else (Some {| StatusCode := status |}, None)
    end.
Proof.
  intros Hurl. unfold doPaymentRequest. rewrite Hurl. cbn [negb].
  unfold bind, httpClient_Do.
  destruct (downstream env (http_calls w)) as [|status body]; [reflexivity|].
  destruct ((status <? 200) || (300 <=? status)); reflexivity.
Qed.

Lemma doPaymentRequest_http_operation env s span orderID req :
  url_ok env (paymentURL s +:+ "/charge") = true ->
  http_operation (doPaymentRequest env s span orderID req).
Proof.
  intros Hurl w. unfold doPaymentRequest. rewrite Hurl. cbn [negb].
  unfold bind, httpClient_Do.
  destruct (downstream env (http_calls w)) as [|status body]; [split; reflexivity|].
  destruct ((status <? 200) || (300 <=? status)); split; reflexivity.
Qed.

Lemma callPaymentService_let_through env s orderID req w :
  let_through env s w ->
  exists w0, http_calls w0 = http_calls w /\ selects w0 = selects w /\
    forall out w1,
      RetryableHTTPCall env "callPayment" (retryConfig s)
        (doPaymentRequest env s "callPayment" orderID req) w0 = (out, w1) ->
      exists r w', callPaymentService env s orderID req w = (r, w')
        /\ http_calls w' = http_calls w1
        /\ (snd out = None -> r = None)
        /\ (forall e, snd out = Some e -> exists e', r = Some e').
Proof.
  intros [Hacq [slot Hentry]].
  remember (callPaymentService env s orderID req w) as L eqn:HL.
  unfold callPaymentService in HL. cbv zeta in HL.
  unfold bind at 1 in HL. cbn [span_op] in HL.
  unfold bind at 1 in HL. cbn [span_op] in HL.
  unfold bind at 1 in HL.
  unfold Bulkhead_Execute in HL. unfold bind at 1 in HL.
  unfold sem_Acquire in HL. cbn [acquires set_trace] in HL. rewrite Hacq in HL.
  unfold bind at 1 in HL. cbn [span_op] in HL.
  unfold bind at 1 in HL.
  unfold CircuitBreaker_Execute in HL. unfold bind at 1 in HL.
  unfold gobreaker_State, get_breaker in HL. unfold bind at 1 in HL. cbn [ret] in HL.
  unfold bind at 1 in HL. cbn [span_op] in HL.
  unfold bind at 1 in HL. unfold gobreaker_Execute in HL.
  unfold bind at 1 in HL. cbn [time_Now] in HL.
  unfold bind at 1 in HL. cbn [get_breaker] in HL.
  cbn [now_reads breaker set_trace set_permits set_acquires set_now_reads] in HL.
  destruct (on_entry _ _ _) as [adm b'] eqn:Hon. cbn [fst] in Hentry. subst adm.
  unfold bind at 1 in HL. cbn [put_breaker] in HL.
  unfold bind at 1 in HL. unfold bind at 1 in HL.
  match type of HL with context [RetryableHTTPCall _ _ _ _ ?w0] => exists w0 end.
  split; [reflexivity|]. split; [reflexivity|].
  intros out w1 Hrun. rewrite Hrun in HL. cbn [ret snd] in HL.
  unfold bind at 1 in HL. cbn [time_Now] in HL.
  unfold bind at 1 in HL. cbn [get_breaker] in HL.
  unfold bind at 1 in HL. cbn [put_breaker ret] in HL.
  destruct (snd out) as [e|].
  - destruct (errors_Is e ErrOpenState);
      unfold bind, span_op, ret, sem_Release in HL; cbn in HL;
      rewrite HL; eexists; eexists; (split; [reflexivity|]);
      (split; [reflexivity|]); (split; [discriminate|]); intros; eexists; reflexivity.
  - unfold bind, span_op, ret, sem_Release in HL; cbn in HL;
      rewrite HL; eexists; eexists; (split; [reflexivity|]);
      (split; [reflexivity|]); (split; [reflexivity|]); intros; discriminate.
Qed.




(** ** The orchestrator *)

Lemma CreateOrder_calls_bound env s req key w :
  (http_calls w <= http_calls (snd (CreateOrder env s req key w))
   <= http_calls w + Z.to_nat (MaxAttempts (retryConfig s)))%nat.
Proof.
  destruct (CreateOrder env s req key w) as [r w'] eqn:E. cbn [snd].
  apply CreateOrder_effect in E.
  destruct E as [(c & _ & _ & _ & _ & _ & ->) | [(_ & Hc & _) | (_ & _ & w1 & _ & _ & <- & Hc & _)]];
    lia.
Qed.




(** Claim C1 (the code at the failing input).  With the default policy and a
    downstream that answers 400 to every call, [doPaymentRequest] hands the
    executor an error together with the response, the test of line 51
    fails, and the orchestrator makes three HTTP calls before it reports
    that the retries are exhausted. *)
Theorem status_400_is_retried :
  CreateOrder env_400 svc order_m "" NewWorld
  = (Fail (Errorf "payment failed"
             (Errorf "retry exhausted after 3 attempts" (ErrStatus 400 "bad request"))),
     snd (CreateOrder env_400 svc order_m "" NewWorld))
  /\ http_calls (snd (CreateOrder env_400 svc order_m "" NewWorld)) = 3%nat.
Proof. vm_compute. split; reflexivity. Qed.


(** Claim C5.  When the [k + 1] attempts of a run fail (the invocations
    of the operation at [http_calls w], ..., [http_calls w + k], whatever
    it returned before the run), the backoffs before the [k]-th are slept
    in full and the context is done during the backoff after attempt [k]
    (which is not the last attempt), the executor returns the error
    "retry cancelled" wrapping the context error, with no response, and the
    operation has been invoked [k + 1] times: there is no further attempt,
    whatever the operation would have returned. *)
Theorem cancelled_backoff_ends_retry env span cfg fn w k :
  http_operation fn ->
  (forall w', (http_calls w <= http_calls w' <= http_calls w + k)%nat ->
              attempt_ok (fst (fst (fn w'))) (snd (fst (fn w'))) = false) ->
  Z.of_nat k < MaxAttempts cfg - 1 ->
  (forall i, (i < k)%nat -> ctx_done_first env (selects w + i) = false) ->
  ctx_done_first env (selects w + k) = true ->
  exists w',
    RetryableHTTPCall env span cfg fn w
    = ((None, Some (Errorf "retry cancelled" ErrContext)), w')
    /\ http_calls w' = (http_calls w + S k)%nat.
Proof.
  intros Hop Hfail Hk Hnot Hdone. unfold RetryableHTTPCall.
  apply (retry_loop_cancelled env span cfg fn Hop k); auto; lia.
Qed.

Lemma cancelled_backoff_ends_retry_witness :
  let w := snd (CreateOrder env_second_backoff_cut svc order_m "" NewWorld) in
  http_calls w = 1%nat
  /\ downstream env_second_backoff_cut 0 = DoResponse 200 ""
  /\ exists w',
       RetryableHTTPCall env_second_backoff_cut "callPayment" DefaultRetryConfig
         (doPaymentRequest env_second_backoff_cut svc "callPayment" "order-1" order_m) w
       = ((None, Some (Errorf "retry cancelled" ErrContext)), w')
       /\ http_calls w' = (http_calls w + 2)%nat.
Proof.
  cbv zeta.
  assert (E : http_calls (snd (CreateOrder env_second_backoff_cut svc order_m "" NewWorld))
              = 1%nat) by (vm_compute; reflexivity).
  assert (S0 : selects (snd (CreateOrder env_second_backoff_cut svc order_m "" NewWorld))
               = 0%nat) by (vm_compute; reflexivity).
  split; [exact E|]. split; [reflexivity|].
  apply (cancelled_backoff_ends_retry env_second_backoff_cut "callPayment" DefaultRetryConfig
           (doPaymentRequest env_second_backoff_cut svc "callPayment" "order-1" order_m)
           (snd (CreateOrder env_second_backoff_cut svc order_m "" NewWorld)) 1).
  - apply doPaymentRequest_http_operation. reflexivity.
  - intros w' Hw'. rewrite doPaymentRequest_outcome by reflexivity.
    rewrite E in Hw'.
    assert (Hc : http_calls w' = 1%nat \/ http_calls w' = 2%nat) by lia.
    destruct Hc as [-> | ->]; reflexivity.
  - vm_compute. reflexivity.
  - intros i Hi. assert (i = 0%nat) as -> by lia. rewrite S0. reflexivity.
  - rewrite S0. reflexivity.
Defined.

(** Claim C9.  For an operation that makes one HTTP call per invocation and
    always returns a response with status 5xx or 429 together with a nil
    error, the executor (no backoff being cut short) invokes it
    [max_attempts] times and then returns the response of the last
    invocation with a nil error. *)
Theorem exhausted_status_is_returned_as_success env span cfg fn w :
  1 <= MaxAttempts cfg ->
  http_operation fn ->
  (forall w', exists r, fst (fn w') = (Some r, None) /\ retryable_status (StatusCode r)) ->
  (forall i, ctx_done_first env i = false) ->
  exists w_last r w',
    RetryableHTTPCall env span cfg fn w = ((Some r, None), w')
    /\ fst (fn w_last) = (Some r, None)
    /\ retryable_status (StatusCode r)
    /\ Z.of_nat (http_calls w_last) = Z.of_nat (http_calls w) + MaxAttempts cfg - 1
    /\ Z.of_nat (http_calls w') = Z.of_nat (http_calls w) + MaxAttempts cfg.
Proof.
  intros Hmax Hop Hresp Hnc. unfold RetryableHTTPCall.
  destruct (retry_loop_exhausts env span cfg fn Hop (Z.to_nat (MaxAttempts cfg) - 1)
              0 None None w) as (wl & w' & Hloop & Hl & Hc); auto; [| lia |].
  { intros w1. destruct (Hresp w1) as (r & -> & [Hr|Hr]); cbn.
    - replace (StatusCode r <? 500) with false by (symmetry; apply Z.ltb_ge; lia). reflexivity.
    - rewrite Hr. reflexivity. }
  replace (S (Z.to_nat (MaxAttempts cfg) - 1)) with (Z.to_nat (MaxAttempts cfg)) in * by lia.
  destruct (Hresp wl) as (r & Hr & Hst).
  exists wl, r, w'. rewrite Hloop. unfold exhausted_result. rewrite Hr. cbn [fst snd].
  repeat split; auto; lia.
Qed.

Lemma exhausted_status_is_returned_as_success_witness :
  exists w_last r w',
    RetryableHTTPCall env_429 "callPayment" DefaultRetryConfig (bare_Do env_429) NewWorld
    = ((Some r, None), w')
    /\ fst (bare_Do env_429 w_last) = (Some r, None)
    /\ retryable_status (StatusCode r)
    /\ Z.of_nat (http_calls w_last) = 0 + 3 - 1
    /\ Z.of_nat (http_calls w') = 0 + 3.
Proof.
  apply (exhausted_status_is_returned_as_success env_429 "callPayment" DefaultRetryConfig
           (bare_Do env_429) NewWorld).
  - vm_compute. discriminate.
  - intros w. split; reflexivity.
  - intros w. exists {| StatusCode := 429 |}. split; [reflexivity | right; reflexivity].
  - reflexivity.
Defined.

(** ** The orchestrator without a key does not look at the store *)

Lemma blind_ret {A} (a : A) : store_blind (ret a).
Proof. intros f w. reflexivity. Qed.

Lemma blind_bind {A B} (c : M A) (k : A -> M B) :
  store_blind c -> (forall a, store_blind (k a)) -> store_blind (bind c k).
Proof.
  intros Hc Hk f w. unfold bind. rewrite Hc. destruct (c w) as [a w1]. cbn [fst snd].
  rewrite Hk. destruct (k a w1); reflexivity.
Qed.

Lemma blind_span_op op : store_blind (span_op op).
Proof. intros f w. reflexivity. Qed.
Lemma blind_time_Now env : store_blind (time_Now env).
Proof. intros f w. reflexivity. Qed.
Lemma blind_uuid_New env : store_blind (uuid_New env).
Proof. intros f w. reflexivity. Qed.
Lemma blind_rand_Float64 env : store_blind (rand_Float64 env).
Proof. intros f w. reflexivity. Qed.
Lemma blind_httpClient_Do env : store_blind (httpClient_Do env).
Proof. intros f w. reflexivity. Qed.
Lemma blind_select_backoff env d : store_blind (select_backoff env d).
Proof. intros f w. reflexivity. Qed.
Lemma blind_get_breaker : store_blind get_breaker.
Proof. intros f w. reflexivity. Qed.
Lemma blind_put_breaker b : store_blind (put_breaker b).
Proof. intros f w. reflexivity. Qed.
Lemma blind_sem_Acquire env : store_blind (sem_Acquire env).
Proof.
  intros f w. unfold sem_Acquire. cbn [acquires set_entries].
  destruct (acquire_cancelled env (acquires w)); reflexivity.
Qed.
Lemma blind_sem_Release : store_blind sem_Release.
Proof. intros f w. reflexivity. Qed.

Create HintDb blind.
#[local] Hint Resolve blind_ret blind_span_op blind_time_Now blind_uuid_New
  blind_rand_Float64 blind_httpClient_Do blind_select_backoff blind_get_breaker
  blind_put_breaker blind_sem_Acquire blind_sem_Release : blind.

Ltac blind_steps :=
  repeat first
    [ solve [auto with blind]
    | apply blind_bind; [| intros ?]
    | match goal with
      | |- store_blind (match ?x with _ => _ end) => destruct x
      | |- store_blind (when ?b _) => destruct b; cbn [when]
      end ].

Lemma blind_doPaymentRequest env s span orderID req :
  store_blind (doPaymentRequest env s span orderID req).
Proof. unfold doPaymentRequest. blind_steps. Qed.

Lemma blind_persistOrder orderID req : store_blind (persistOrder orderID req).
Proof. unfold persistOrder. blind_steps. Qed.

Lemma blind_retry_loop env span cfg fn remaining :
  store_blind fn ->
  forall attempt resp lastErr,
    store_blind (retry_loop env span cfg fn remaining attempt resp lastErr).
Proof.
  intros Hfn. induction remaining as [|k IH]; intros attempt resp lastErr.
  - cbn [retry_loop]. unfold retry_exhausted. blind_steps.
  - cbn [retry_loop]. cbv zeta. blind_steps.
Qed.

Lemma blind_Bulkhead_Execute env b span fn :
  store_blind fn -> store_blind (Bulkhead_Execute env b span fn).
Proof. intros Hfn. unfold Bulkhead_Execute. blind_steps. Qed.

Lemma blind_CircuitBreaker_Execute env c span fn :
  store_blind fn -> store_blind (CircuitBreaker_Execute env c span fn).
Proof.
  intros Hfn. unfold CircuitBreaker_Execute, gobreaker_State, gobreaker_Execute.
  blind_steps.
Qed.

Lemma blind_callPaymentService env s orderID req :
  store_blind (callPaymentService env s orderID req).
Proof.
  unfold callPaymentService. cbv zeta.
  apply blind_bind; [auto with blind | intros _].
  apply blind_bind; [auto with blind | intros _].
  apply blind_bind; [| intros ?; blind_steps].
  apply blind_Bulkhead_Execute, blind_CircuitBreaker_Execute.
  apply blind_bind; [| intros ?; apply blind_ret].
  apply blind_retry_loop, blind_doPaymentRequest.
Qed.

#[local] Hint Resolve blind_callPaymentService blind_persistOrder : blind.

Lemma blind_CreateOrder_no_key env s req : store_blind (CreateOrder env s req "").
Proof.
  unfold CreateOrder, CreateOrder_with, processOrder, processOrder_with. cbv zeta. cbn [String.eqb negb].
  blind_steps.
Qed.

(** Claim C8.  A request with the empty idempotency key calls neither [Get]
    nor [Set] on the store (the log of store operations is unchanged) and
    leaves its contents as they were; its result and everything else it does
    are the same whatever the store contains. *)
Theorem empty_key_leaves_store_alone env s req w :
  let out := CreateOrder env s req "" w in
  entries (snd out) = entries w
  /\ store_log (snd out) = store_log w
  /\ forall m, CreateOrder env s req "" (set_entries (fun _ => m) w)
               = (fst out, set_entries (fun _ => m) (snd out)).
Proof.
  cbv zeta. split; [|split].
  - destruct (CreateOrder env s req "" w) as [r w'] eqn:E. cbn [snd].
    apply CreateOrder_effect in E.
    destruct E as [(c & Hne & _) | [(_ & _ & Hst) | (Hne & _)]]; try congruence.
    destruct r; cbn in Hst; apply Hst.
  - destruct (CreateOrder env s req "" w) as [r w'] eqn:E. cbn [snd].
    apply CreateOrder_effect in E.
    destruct E as [(c & Hne & _) | [(_ & _ & Hst) | (Hne & _)]]; try congruence.
    destruct r; cbn in Hst; apply Hst.
  - intros m. apply blind_CreateOrder_no_key.
Qed.

Lemma CreateOrder_with_hit env s persist req key w c :
  key <> ""%string -> entries w !! key = Some c ->
  exists w', CreateOrder_with env s persist req key w
             = (Ok {| resp_OrderID := OrderID c; resp_Status := Status c;
                      resp_CreatedAt := Format_RFC3339 (CreatedAt c) |}, w')
    /\ entries w' = entries w /\ store_log w' = StoreGet key :: store_log w.
Proof.
  intros Hne Hk. apply String.eqb_neq in Hne.
  unfold CreateOrder_with. cbv zeta. unfold bind at 1. cbn [span_op].
  unfold bind at 1. rewrite Hne. cbn [negb]. unfold bind at 1. cbn [span_op Get].
  cbn [entries set_trace set_store_log]. rewrite Hk.
  unfold bind, span_op, ret. eexists. split; [reflexivity|]. cbn. auto.
Qed.

(** The run of [CreateOrder] after a miss under a non-empty key, step by
    step. *)
Lemma CreateOrder_with_miss env s persist req key w :
  key <> ""%string -> entries w !! key = None ->
  CreateOrder_with env s persist req key w =
  let orderID := fresh_uuid env (uuid_reads w) in
  match callPaymentService env s orderID req (miss_world env req key w) with
  | (Some e, w2) => (Fail (Errorf "payment failed" e), failed_world e w2)
  | (None, w2) =>
      match persist orderID req w2 with
      | (Some e, w3) =>
          (Fail (Errorf "failed to persist order" e), failed_world e w3)
      | (None, w3) =>
          (Ok {| resp_OrderID := orderID; resp_Status := "completed";
                 resp_CreatedAt := Format_RFC3339 (clock env (now_reads w3)) |},
           stored_world env key orderID w3)
      end
  end.
Proof.
  intros Hne Hk. apply String.eqb_neq in Hne.
  unfold CreateOrder_with. cbv zeta. unfold bind at 1. cbn [span_op].
  unfold bind at 1. rewrite Hne. cbn [negb]. unfold bind at 1. cbn [span_op Get].
  cbn [entries set_trace set_store_log]. rewrite Hk.
  unfold bind at 1. unfold processOrder_with.
  unfold bind at 1. cbn [uuid_New]. unfold bind at 1. cbn [span_op]. unfold bind at 1.
  change (set_trace _ (set_uuid_reads S _)) with (miss_world env req key w).
  cbn [uuid_reads set_trace set_store_log].
  destruct (callPaymentService _ _ _ _ _) as [[e|] w2].
  { reflexivity. }
  unfold bind at 1. destruct (persist _ _ w2) as [[e|] w3].
  { reflexivity. }
  rewrite Hne. reflexivity.
Qed.

(** Without a key [CreateOrder] neither reads nor writes the store. *)
Lemma CreateOrder_with_no_key env s persist req w :
  (forall o q w0, entries (snd (persist o q w0)) = entries w0
                  /\ store_log (snd (persist o q w0)) = store_log w0) ->
  entries (snd (CreateOrder_with env s persist req "" w)) = entries w
  /\ store_log (snd (CreateOrder_with env s persist req "" w)) = store_log w.
Proof.
  intros Hp.
  destruct (CreateOrder_with env s persist req "" w) as [r w'] eqn:E. cbn [snd].
  revert E. unfold CreateOrder_with. cbv zeta. unfold bind at 1. cbn [span_op].
  unfold bind at 1. cbn [String.eqb negb ret]. unfold bind at 1.
  unfold processOrder_with.
  unfold bind at 1. cbn [uuid_New]. unfold bind at 1. cbn [span_op]. unfold bind at 1.
  match goal with |- context [callPaymentService env s ?o req ?w1] =>
    pose proof (within_callPaymentService env s o req w1) as H;
    destruct (callPaymentService env s o req w1) as [[e|] w2] end;
    unfold stack_effect in H; cbn in H; destruct H as (He & Hl & _).
  { unfold bind, span_op, ret. intros [= _ <-]. cbn. auto. }
  unfold bind at 1.
  match goal with |- context [persist ?o req w2] =>
    destruct (Hp o req w2) as [He3 Hl3];
    destruct (persist o req w2) as [[e|] w3] end; cbn [snd] in *.
  { unfold bind, span_op, ret. intros [= _ <-]. cbn. split; congruence. }
  unfold bind, span_op, ret, time_Now. cbn. intros [= _ <-]. cbn. split; congruence.
Qed.

(** Claim C10.  [CreateOrder] with any persist step in the place of
    [persistOrder] that leaves the idempotency store alone (the source's
    own never fails).  A run that returns an error, from the payment call
    or from the persist step, leaves the contents of the store unchanged
    and has called [Set] not at all (at most [Get] on the supplied key).
    When the contents did change, the key is not empty and was not in the
    store, the payment call of this run and then the persist step of this
    run had both returned nil with the store still unchanged, and only
    then the entry was written: the run returns the order and ends in the
    world that the write leaves after the persist step. *)
Theorem store_written_only_after_success env s persist req key w r w' :
  (forall o q w0, entries (snd (persist o q w0)) = entries w0
                  /\ store_log (snd (persist o q w0)) = store_log w0) ->
  CreateOrder_with env s persist req key w = (r, w') ->
  CreateOrder env s = CreateOrder_with env s persistOrder
  /\ (forall e, r = Fail e ->
        entries w' = entries w
        /\ (store_log w' = store_log w \/ store_log w' = StoreGet key :: store_log w))
  /\ (entries w' <> entries w ->
      key <> ""%string /\ entries w !! key = None
      /\ exists w2 w3,
           callPaymentService env s (fresh_uuid env (uuid_reads w)) req
             (miss_world env req key w) = (None, w2)
           /\ persist (fresh_uuid env (uuid_reads w)) req w2 = (None, w3)
           /\ entries w3 = entries w
           /\ store_log w3 = StoreGet key :: store_log w
           /\ r = Ok {| resp_OrderID := fresh_uuid env (uuid_reads w);
                        resp_Status := "completed";
                        resp_CreatedAt := Format_RFC3339 (clock env (now_reads w3)) |}
           /\ w' = stored_world env key (fresh_uuid env (uuid_reads w)) w3).
Proof.
  intros Hp E. split; [reflexivity|].
  destruct (String.eqb_spec key "") as [->|Hne].
  { destruct (CreateOrder_with_no_key env s persist req w Hp) as [He Hl].
    rewrite E in He, Hl. cbn [snd] in He, Hl. split.
    - intros e _. auto.
    - intros Hch. contradiction. }
  destruct (entries w !! key) as [c|] eqn:Hk.
  { destruct (CreateOrder_with_hit env s persist req key w c Hne Hk) as (w0 & E0 & He & Hl).
    rewrite E in E0. injection E0 as -> <-. split.
    - intros e [=].
    - intros Hch. contradiction. }
  rewrite (CreateOrder_with_miss env s persist req key w Hne Hk) in E. cbv zeta in E.
  match type of E with context [callPaymentService env s ?o req ?w1] =>
    pose proof (within_callPaymentService env s o req w1) as H;
    destruct (callPaymentService env s o req w1) as [[e|] w2] eqn:Hpay end;
    unfold stack_effect in H; cbn in H; destruct H as (He & Hl & _).
  { injection E as <- <-. cbn. split.
    - intros e0 _. split; [exact He | right; exact Hl].
    - intros Hch. contradiction. }
  match type of E with context [persist ?o req w2] =>
    destruct (Hp o req w2) as [He3 Hl3];
    destruct (persist o req w2) as [[e|] w3] eqn:Hper end; cbn [snd] in *.
  { injection E as <- <-. cbn. split.
    - intros e0 _. split; [congruence | right; congruence].
    - intros Hch. exfalso. apply Hch. congruence. }
  injection E as <- <-. split.
  - intros e [=].
  - intros _. split; [exact Hne|]. split; [reflexivity|].
    exists w2, w3. repeat split; congruence.
Qed.

Lemma store_written_only_after_success_witness :
  (fst (CreateOrder_with env_200 svc persist_fails order_m "k-1" NewWorld)
   = Fail (Errorf "failed to persist order" ErrContext)
   /\ http_calls (snd (CreateOrder_with env_200 svc persist_fails order_m "k-1" NewWorld))
      = 1%nat
   /\ entries (snd (CreateOrder_with env_200 svc persist_fails order_m "k-1" NewWorld))
      = entries NewWorld)
  /\ exists w2 w3,
       callPaymentService env_second_boundary svc "order-0" order_m
         (miss_world env_second_boundary order_m "k-1" NewWorld) = (None, w2)
       /\ persistOrder "order-0" order_m w2 = (None, w3)
       /\ entries w3 = entries NewWorld
       /\ store_log w3 = StoreGet "k-1" :: store_log NewWorld
       /\ snd (CreateOrder env_second_boundary svc order_m "k-1" NewWorld)
          = stored_world env_second_boundary "k-1" "order-0" w3.
Proof.
  split.
  - destruct (store_written_only_after_success env_200 svc persist_fails order_m "k-1" NewWorld
                (fst (CreateOrder_with env_200 svc persist_fails order_m "k-1" NewWorld))
                (snd (CreateOrder_with env_200 svc persist_fails order_m "k-1" NewWorld)))
      as (_ & H & _).
    + intros o q w0. split; reflexivity.
    + vm_compute. reflexivity.
    + split; [vm_compute; reflexivity|]. split; [vm_compute; reflexivity|].
      eapply H. vm_compute. reflexivity.
  - destruct (store_written_only_after_success env_second_boundary svc persistOrder order_m
                "k-1" NewWorld
                (fst (CreateOrder env_second_boundary svc order_m "k-1" NewWorld))
                (snd (CreateOrder env_second_boundary svc order_m "k-1" NewWorld)))
      as (_ & _ & H).
    + intros o q w0. split; reflexivity.
    + vm_compute. reflexivity.
    + destruct H as (_ & _ & w2 & w3 & Hpay & Hper & He & Hl & _ & Hw).
      * vm_compute. discriminate.
      * exists w2, w3. repeat split; assumption.
Defined.

Lemma cleanup_ticks_S env n w :
  cleanup_ticks env (S n) w =
  cleanup_ticks env n
    (set_entries
       (filter (fun kv : string * IdempotentResponse =>
                  ~ (CreatedAt (snd kv) < clock env (now_reads w) - 24 * Hour)))
       (set_now_reads S w)).
Proof. reflexivity. Qed.

(** Sweeps do not remove an entry that is within the retention window. *)
Lemma cleanup_ticks_keep env n : forall w key c,
  entries w !! key = Some c ->
  (forall i, (now_reads w <= i < now_reads w + n)%nat ->
             clock env i - 24 * Hour <= CreatedAt c) ->
  entries (snd (cleanup_ticks env n w)) !! key = Some c
  /\ http_calls (snd (cleanup_ticks env n w)) = http_calls w.
Proof.
  induction n as [|n IH]; intros w key c Hk Hret.
  - cbn. auto.
  - rewrite cleanup_ticks_S.
    match goal with |- context [cleanup_ticks env n ?w1] =>
      destruct (IH w1 key c) as [He Hc] end.
    + cbn. apply map_lookup_filter_Some. split; [exact Hk|]. cbn.
      specialize (Hret (now_reads w)). lia.
    + intros i Hi. cbn in Hi. apply Hret. lia.
    + rewrite He, Hc. cbn. auto.
Qed.

Lemma CreateOrder_hit env s req key w c :
  key <> ""%string -> entries w !! key = Some c ->
  exists w', CreateOrder env s req key w
             = (Ok {| resp_OrderID := OrderID c; resp_Status := Status c;
                      resp_CreatedAt := Format_RFC3339 (CreatedAt c) |}, w')
    /\ entries w' = entries w /\ http_calls w' = http_calls w.
Proof.
  intros Hne Hk. destruct (CreateOrder env s req key w) as [r w'] eqn:E.
  pose proof (CreateOrder_effect _ _ _ _ _ _ _ E)
    as [(c' & _ & Hk' & -> & He & _ & Hc) | [(-> & _) | (_ & Hnone & _)]]; try congruence.
  assert (c' = c) as -> by congruence. exists w'. auto.
Qed.

(** Property X27.  For a non-empty key: when a first request with the key
    has succeeded and the entry is within the retention window at every
    sweep in between, the next request with the key succeeds with the order
    id and the status of the first response, and with the rendering of the
    creation time stored in the entry; it makes no HTTP call, so that the
    calls of both requests together are those of the first one, at most
    [max_attempts]. *)
Theorem idempotent_replay env s req req' key n w0 r1 w1 :
  key <> ""%string ->
  CreateOrder env s req key w0 = (Ok r1, w1) ->
  (forall c i, entries w1 !! key = Some c ->
               (now_reads w1 <= i < now_reads w1 + n)%nat ->
               clock env i - 24 * Hour <= CreatedAt c) ->
  let w2 := snd (cleanup_ticks env n w1) in
  exists c r2 w3,
    entries w2 !! key = Some c
    /\ CreateOrder env s req' key w2 = (Ok r2, w3)
    /\ resp_OrderID r2 = resp_OrderID r1
    /\ resp_Status r2 = resp_Status r1
    /\ resp_CreatedAt r2 = Format_RFC3339 (CreatedAt c)
    /\ http_calls w3 = http_calls w1
    /\ (http_calls w0 <= http_calls w1
        <= http_calls w0 + Z.to_nat (MaxAttempts (retryConfig s)))%nat.
Proof.
  intros Hne E Hret. cbv zeta. set (w2 := snd (cleanup_ticks env n w1)).
  assert (Hstored : exists c, entries w1 !! key = Some c
                              /\ OrderID c = resp_OrderID r1 /\ Status c = resp_Status r1).
  { pose proof (CreateOrder_effect _ _ _ _ _ _ _ E)
      as [(c & _ & Hk & [= ->] & He & _) | [(-> & _) | (_ & _ & wg & _ & _ & _ & _ & Hst)]];
      [ | congruence | ].
    - exists c. rewrite He. auto.
    - apply String.eqb_neq in Hne. rewrite Hne in Hst. destruct Hst as (t & -> & _).
      eexists. rewrite lookup_insert_eq. split; [reflexivity|]. cbn. auto. }
  destruct Hstored as (c & Hk & Hid & Hst).
  destruct (cleanup_ticks_keep env n w1 key c Hk (fun i => Hret c i Hk)) as [Hk2 Hc2].
  destruct (CreateOrder_hit env s req' key w2 c Hne Hk2) as (w3 & E2 & _ & Hc3).
  exists c. eexists. exists w3. split; [exact Hk2|]. split; [exact E2|]. cbn.
  subst w2. repeat split; try congruence.
  - pose proof (CreateOrder_calls_bound env s req key w0) as H. rewrite E in H. cbn in H. lia.
  - pose proof (CreateOrder_calls_bound env s req key w0) as H. rewrite E in H. cbn in H. lia.
Qed.

Lemma idempotent_replay_witness :
  exists c r2 w3,
    entries (snd (cleanup_ticks env_500_then_200 2
                    (snd (CreateOrder env_500_then_200 svc order_m "k-1" NewWorld)))) !! "k-1"
      = Some c
    /\ CreateOrder env_500_then_200 svc order_m "k-1"
         (snd (cleanup_ticks env_500_then_200 2
                 (snd (CreateOrder env_500_then_200 svc order_m "k-1" NewWorld))))
       = (Ok r2, w3)
    /\ resp_OrderID r2 = "order-0"%string
    /\ resp_Status r2 = "completed"%string
    /\ resp_CreatedAt r2 = Format_RFC3339 (CreatedAt c)
    /\ http_calls w3 = 2%nat
    /\ (0 <= 2 <= 0 + 3)%nat.
Proof.
  apply (idempotent_replay env_500_then_200 svc order_m order_m "k-1" 2 NewWorld
           {| resp_OrderID := "order-0"; resp_Status := "completed";
              resp_CreatedAt := "1970-01-01T00:00:00Z" |}
           (snd (CreateOrder env_500_then_200 svc order_m "k-1" NewWorld))).
  - discriminate.
  - vm_compute. reflexivity.
  - intros c i Hc _. vm_compute in Hc. injection Hc as <-. vm_compute. discriminate.
Defined.

(** Claim C2 (a defect of the code).  The creation time of the first
    response and the one stored for replays come from two readings of the
    clock (lines 105 and 113).  When a first request with a non-empty key
    that is not in the store succeeds, the next request with the key
    succeeds without any HTTP call and with the same order id, but the
    first response renders one reading of the clock and the replay the
    next one: [created_at] differs when a second boundary lies between the
    two readings, as in the run that follows the theorem. *)
Theorem replay_created_at_differs env s req req' key w r1 w1 :
  key <> ""%string -> entries w !! key = None ->
  CreateOrder env s req key w = (Ok r1, w1) ->
  exists n r2 w2,
    CreateOrder env s req' key w1 = (Ok r2, w2)
    /\ resp_OrderID r2 = resp_OrderID r1
    /\ resp_Status r2 = resp_Status r1
    /\ resp_CreatedAt r1 = Format_RFC3339 (clock env n)
    /\ resp_CreatedAt r2 = Format_RFC3339 (clock env (S n))
    /\ http_calls w2 = http_calls w1.
Proof.
  intros Hne Hk E.
  change (CreateOrder env s req key w) with (CreateOrder_with env s persistOrder req key w) in E.
  rewrite (CreateOrder_with_miss env s persistOrder req key w Hne Hk) in E. cbv zeta in E.
  destruct (callPaymentService _ _ _ _ _) as [[e|] wa]; [discriminate|].
  destruct (persistOrder _ _ wa) as [[e|] wb]; [discriminate|].
  injection E as <- <-.
  destruct (CreateOrder_hit env s req' key
              (stored_world env key (fresh_uuid env (uuid_reads w)) wb)
              {| OrderID := fresh_uuid env (uuid_reads w); Status := "completed";
                 CreatedAt := clock env (S (now_reads wb)) |} Hne)
    as (w2 & E2 & _ & Hc).
  { unfold stored_world. cbn. apply lookup_insert_eq. }
  exists (now_reads wb). eexists. exists w2.
  split; [exact E2|]. cbn. repeat split. exact Hc.
Qed.

Lemma replay_created_at_differs_witness :
  let first := CreateOrder env_second_boundary svc order_m "k-1" NewWorld in
  let second := CreateOrder env_second_boundary svc order_m "k-1" (snd first) in
  fst first = Ok {| resp_OrderID := "order-0"; resp_Status := "completed";
                    resp_CreatedAt := "1970-01-01T00:00:00Z" |}
  /\ fst second = Ok {| resp_OrderID := "order-0"; resp_Status := "completed";
                        resp_CreatedAt := "1970-01-01T00:00:01Z" |}
  /\ http_calls (snd second) = 1%nat.
Proof.
  cbv zeta.
  destruct (replay_created_at_differs env_second_boundary svc order_m order_m "k-1" NewWorld
              {| resp_OrderID := "order-0"; resp_Status := "completed";
                 resp_CreatedAt := "1970-01-01T00:00:00Z" |}
              (snd (CreateOrder env_second_boundary svc order_m "k-1" NewWorld)))
    as (n & r2 & w2 & E2 & _).
  - discriminate.
  - reflexivity.
  - vm_compute. reflexivity.
  - split; [vm_compute; reflexivity|].
    rewrite E2. cbn [fst snd].
    assert (E : CreateOrder env_second_boundary svc order_m "k-1"
                  (snd (CreateOrder env_second_boundary svc order_m "k-1" NewWorld))
                = (Ok {| resp_OrderID := "order-0"; resp_Status := "completed";
                         resp_CreatedAt := "1970-01-01T00:00:01Z" |},
                   snd (CreateOrder env_second_boundary svc order_m "k-1"
                          (snd (CreateOrder env_second_boundary svc order_m "k-1" NewWorld)))))
      by (vm_compute; reflexivity).
    rewrite E in E2. injection E2 as <- <-.
    split; [reflexivity | vm_compute; reflexivity].
Defined.

(** Claim C4.  A call that finds the breaker Open with
    [now - opened_at < open_cooldown] returns the error
    "circuit breaker open" wrapping [ErrOpenState]; the world it leaves
    behind does not depend on the operation, which is not invoked: no HTTP
    call is made and the state of the breaker is unchanged. *)
Theorem open_breaker_rejects env c span fn w :
  state (breaker w) = StateOpen ->
  clock env (now_reads w) - opened_at (breaker w) < Timeout (cb c) ->
  CircuitBreaker_Execute env c span fn w
  = (Some (Errorf "circuit breaker open" ErrOpenState), rejected_world span w)
  /\ http_calls (rejected_world span w) = http_calls w
  /\ breaker (rejected_world span w) = breaker w.
Proof.
  intros Hopen Hcool. split; [|split; reflexivity].
  unfold CircuitBreaker_Execute, gobreaker_State, gobreaker_Execute, get_breaker.
  unfold bind, ret, span_op, time_Now. cbn.
  unfold on_entry. rewrite Hopen. cbn.
  replace (clock env (now_reads w) - opened_at (breaker w) <? Timeout (cb c)) with true
    by (symmetry; apply Z.ltb_lt; exact Hcool).
  reflexivity.
Qed.

Lemma open_breaker_rejects_witness :
  CircuitBreaker_Execute env_200 NewCircuitBreaker "callPayment"
    (let* out := bare_Do env_200 in ret (snd out))%go open_world
  = (Some (Errorf "circuit breaker open" ErrOpenState), rejected_world "callPayment" open_world)
  /\ http_calls (rejected_world "callPayment" open_world) = http_calls open_world
  /\ breaker (rejected_world "callPayment" open_world) = breaker open_world.
Proof.
  apply (open_breaker_rejects env_200 NewCircuitBreaker "callPayment").
  - reflexivity.
  - vm_compute. reflexivity.
Defined.

(** ** float64 arithmetic *)

Lemma pow2_pos k : (0 < pow2 k)%Q.
Proof. apply Qpower_0_lt. reflexivity. Qed.

Lemma pow2_nonzero k : ~ (pow2 k == 0)%Q.
Proof. pose proof (pow2_pos k). lra. Qed.

Lemma pow2_plus a b : (pow2 (a + b) == pow2 a * pow2 b)%Q.
Proof. apply Qpower_plus. discriminate. Qed.

Lemma pow2_le a b : a <= b -> (pow2 a <= pow2 b)%Q.
Proof. intros H. apply Qpower_le_compat_l; [exact H | discriminate]. Qed.

Lemma pow2_lt a b : a < b -> (pow2 a < pow2 b)%Q.
Proof. intros H. apply Qpower_lt_compat_l; [exact H | reflexivity]. Qed.

Lemma pow2_le_inv a b : (pow2 a <= pow2 b)%Q -> a <= b.
Proof.
  intros H. destruct (Z_le_gt_dec a b) as [|Hgt]; [assumption|].
  assert (pow2 b < pow2 a)%Q by (apply pow2_lt; lia). lra.
Qed.

Lemma pow2_Z n : 0 <= n -> (pow2 n == inject_Z (2 ^ n))%Q.
Proof. intros H. unfold pow2. rewrite Zpower_Qpower by exact H. reflexivity. Qed.

Lemma pow2_div a b : (pow2 a / pow2 b == pow2 (a - b))%Q.
Proof.
  replace a with ((a - b) + b) at 1 by lia. rewrite pow2_plus.
  field. apply pow2_nonzero.
Qed.

Lemma binade_spec x :
  (0 < x)%Q -> (pow2 (binade x) <= x)%Q /\ (x < pow2 (binade x + 1))%Q.
Proof.
  intros Hx. unfold binade.
  destruct x as [n d]. cbn [Qnum Qden].
  assert (Hn : 0 < n) by (unfold Qlt in Hx; cbn in Hx; lia).
  set (a := Z.log2 n). set (c := Z.log2 (Z.pos d)).
  destruct (Z.log2_spec n Hn) as [Ha1 Ha2]. fold a in Ha1, Ha2.
  destruct (Z.log2_spec (Z.pos d) (Pos2Z.is_pos d)) as [Hc1 Hc2]. fold c in Hc1, Hc2.
  assert (Ha0 : 0 <= a) by apply Z.log2_nonneg.
  assert (Hc0 : 0 <= c) by apply Z.log2_nonneg.
  assert (HN1 : (pow2 a <= inject_Z n)%Q)
    by (rewrite pow2_Z by lia; rewrite <- Zle_Qle; exact Ha1).
  assert (HN2 : (inject_Z n < pow2 (a + 1))%Q)
    by (rewrite pow2_Z by lia; rewrite <- Zlt_Qlt; replace (a + 1) with (Z.succ a) by lia; exact Ha2).
  assert (HD1 : (pow2 c <= inject_Z (Z.pos d))%Q)
    by (rewrite pow2_Z by lia; rewrite <- Zle_Qle; exact Hc1).
  assert (HD2 : (inject_Z (Z.pos d) < pow2 (c + 1))%Q)
    by (rewrite pow2_Z by lia; rewrite <- Zlt_Qlt; replace (c + 1) with (Z.succ c) by lia; exact Hc2).
  assert (HD0 : (0 < inject_Z (Z.pos d))%Q) by (pose proof (pow2_pos c); lra).
  assert (Hx' : (n # d == inject_Z n / inject_Z (Z.pos d))%Q) by apply Qmake_Qdiv.
  assert (Hlo : (pow2 (a - c - 1) < n # d)%Q).
  { rewrite Hx'. apply Qlt_shift_div_l; [exact HD0|].
    apply Qlt_le_trans with (pow2 (a - c - 1) * pow2 (c + 1))%Q.
    - apply Qmult_lt_l; [apply pow2_pos | exact HD2].
    - rewrite <- pow2_plus. replace (a - c - 1 + (c + 1)) with a by lia. exact HN1. }
  assert (Hhi : (n # d < pow2 (a - c + 1))%Q).
  { rewrite Hx'. apply Qlt_shift_div_r; [exact HD0|].
    apply Qlt_le_trans with (pow2 (a - c + 1) * pow2 c)%Q.
    - rewrite <- pow2_plus. replace (a - c + 1 + c) with (a + 1) by lia. exact HN2.
    - apply Qmult_le_l; [apply pow2_pos | exact HD1]. }
  destruct (Qle_bool (pow2 (a - c)) (n # d)) eqn:E.
  - apply Qle_bool_iff in E. split; assumption.
  - assert (Hlt : (n # d < pow2 (a - c))%Q).
    { apply Qnot_le_lt. intros H. apply Qle_bool_iff in H. congruence. }
    split.
    + apply Qlt_le_weak. exact Hlo.
    + replace (a - c - 1 + 1) with (a - c) by lia. exact Hlt.
Qed.

Lemma binade_unique x e :
  (pow2 e <= x)%Q -> (x < pow2 (e + 1))%Q -> binade x = e.
Proof.
  intros H1 H2.
  assert (Hx : (0 < x)%Q) by (pose proof (pow2_pos e); lra).
  destruct (binade_spec x Hx) as [B1 B2].
  assert (binade x < e + 1).
  { destruct (Z_lt_ge_dec (binade x) (e + 1)) as [|Hge]; [assumption|].
    assert (pow2 (e + 1) <= pow2 (binade x))%Q by (apply pow2_le; lia). lra. }
  assert (e < binade x + 1).
  { destruct (Z_lt_ge_dec e (binade x + 1)) as [|Hge]; [assumption|].
    assert (pow2 (binade x + 1) <= pow2 e)%Q by (apply pow2_le; lia). lra. }
  lia.
Qed.

Lemma binade_comp x y : (0 < x)%Q -> (x == y)%Q -> binade x = binade y.
Proof.
  intros Hx E. destruct (binade_spec x Hx) as [B1 B2].
  symmetry. apply binade_unique; rewrite <- E; assumption.
Qed.

Lemma binade_le x y : (0 < x)%Q -> (x <= y)%Q -> binade x <= binade y.
Proof.
  intros Hx Hxy.
  destruct (binade_spec x Hx) as [B1 _].
  destruct (binade_spec y) as [_ B2]; [lra|].
  destruct (Z_le_gt_dec (binade x) (binade y)) as [|Hgt]; [assumption|].
  assert (pow2 (binade y + 1) <= pow2 (binade x))%Q by (apply pow2_le; lia). lra.
Qed.

Lemma rne_spec x : nearest_even x (rne x).
Proof.
  unfold rne, nearest_even.
  pose proof (Qfloor_le x) as Hf1. pose proof (Qlt_floor x) as Hf2.
  rewrite inject_Z_plus in Hf2. change (inject_Z 1) with 1%Q in Hf2.
  set (f := Qfloor x) in *.
  destruct (Qcompare_spec (x - inject_Z f) (1 # 2)) as [E|E|E].
  - destruct (Z.even f) eqn:Ev.
    + right. split; [left; exact E | exact Ev].
    + right. split.
      * right. rewrite inject_Z_plus. change (inject_Z 1) with 1%Q. lra.
      * rewrite Z.even_add. rewrite Ev. reflexivity.
  - left. lra.
  - left. rewrite inject_Z_plus. change (inject_Z 1) with 1%Q. lra.
Qed.

Lemma Z_of_Q_lt a b : (inject_Z a < inject_Z b)%Q -> a < b.
Proof. rewrite <- Zlt_Qlt. trivial. Qed.

Lemma Z_of_Q_le a b : (inject_Z a <= inject_Z b)%Q -> a <= b.
Proof. rewrite <- Zle_Qle. trivial. Qed.

Lemma Z_of_Q_eq a b : (inject_Z a == inject_Z b)%Q -> a = b.
Proof. intros H. apply Z.le_antisymm; apply Z_of_Q_le; lra. Qed.

Lemma nearest_even_le x y a b :
  (x <= y)%Q -> nearest_even x a -> nearest_even y b -> a <= b.
Proof.
  intros Hxy Ha Hb.
  destruct (Z_le_gt_dec a b) as [|Hgt]; [assumption|exfalso].
  assert (Hab : (inject_Z b + 1 <= inject_Z a)%Q).
  { change 1%Q with (inject_Z 1). rewrite <- inject_Z_plus, <- Zle_Qle. lia. }
  destruct Ha as [Ha|[Ha Ea]]; destruct Hb as [Hb|[Hb Eb]]; try lra.
  destruct Ha as [Ha|Ha]; destruct Hb as [Hb|Hb]; try lra.
  assert (E : (inject_Z a == inject_Z (b + 1))%Q).
  { rewrite inject_Z_plus. change (inject_Z 1) with 1%Q. lra. }
  apply Z_of_Q_eq in E. subst a.
  rewrite Z.even_add, Eb in Ea. discriminate.
Qed.

Lemma nearest_even_unique x a b : nearest_even x a -> nearest_even x b -> a = b.
Proof.
  intros Ha Hb. apply Z.le_antisymm.
  - apply (nearest_even_le x x); [apply Qle_refl | assumption | assumption].
  - apply (nearest_even_le x x); [apply Qle_refl | assumption | assumption].
Qed.

Lemma rne_le x y : (x <= y)%Q -> rne x <= rne y.
Proof. intros H. apply (nearest_even_le x y); [exact H | apply rne_spec | apply rne_spec]. Qed.

Lemma rne_comp x y : (x == y)%Q -> rne x = rne y.
Proof. intros E. apply Z.le_antisymm; apply rne_le; lra. Qed.

Lemma rne_Z x z : (x == inject_Z z)%Q -> rne x = z.
Proof.
  intros E. apply (nearest_even_unique x); [apply rne_spec|].
  left. lra.
Qed.

Lemma rne_opp x : rne (- x) = - rne x.
Proof.
  apply (nearest_even_unique (- x)); [apply rne_spec|].
  destruct (rne_spec x) as [H|[H Ev]].
  - left. rewrite inject_Z_opp. lra.
  - right. split.
    + rewrite inject_Z_opp. destruct H as [H|H]; [right | left]; lra.
    + rewrite Z.even_opp. exact Ev.
Qed.

Lemma rne_near x : (- (1 # 2) <= x - inject_Z (rne x) <= 1 # 2)%Q.
Proof. destruct (rne_spec x) as [H|[[H|H] _]]; lra. Qed.

Lemma Qabs_pos_lt x : ~ (x == 0)%Q -> (0 < Qabs x)%Q.
Proof.
  intros H. apply Qabs_case; intros H0.
  - destruct (Qlt_le_dec 0 x); [assumption | exfalso; apply H; lra].
  - destruct (Qlt_le_dec x 0); [lra | exfalso; apply H; lra].
Qed.

Lemma ulp_exp_ge x : -1074 <= ulp_exp x.
Proof. unfold ulp_exp. lia. Qed.

Lemma ulp_exp_opp x : ulp_exp (- x) = ulp_exp x.
Proof.
  unfold ulp_exp. destruct x as [n d]. unfold Qabs, Qopp. cbn [Qnum Qden].
  rewrite Z.abs_opp. reflexivity.
Qed.

Lemma ulp_exp_comp x y : ~ (x == 0)%Q -> (x == y)%Q -> ulp_exp x = ulp_exp y.
Proof.
  intros Hx E. unfold ulp_exp.
  rewrite (binade_comp (Qabs x) (Qabs y)); [reflexivity | apply Qabs_pos_lt; exact Hx |].
  rewrite E. reflexivity.
Qed.

Lemma ulp_exp_upper x : (Qabs x < pow2 (ulp_exp x + 53))%Q.
Proof.
  destruct (Qeq_dec x 0) as [E|N].
  - apply Qle_lt_trans with 0%Q; [|apply pow2_pos].
    rewrite E. apply Qle_refl.
  - destruct (binade_spec (Qabs x) (Qabs_pos_lt x N)) as [_ B].
    eapply Qlt_le_trans; [exact B|]. apply pow2_le. unfold ulp_exp. lia.
Qed.

Lemma ulp_exp_lower x :
  ~ (x == 0)%Q -> -1074 < ulp_exp x -> (pow2 (ulp_exp x + 52) <= Qabs x)%Q.
Proof.
  intros N H. destruct (binade_spec (Qabs x) (Qabs_pos_lt x N)) as [B _].
  eapply Qle_trans; [|exact B]. apply pow2_le. unfold ulp_exp in *. lia.
Qed.

Lemma ulp_exp_le x y :
  ~ (x == 0)%Q -> (Qabs x <= Qabs y)%Q -> ulp_exp x <= ulp_exp y.
Proof.
  intros N H. unfold ulp_exp.
  pose proof (binade_le (Qabs x) (Qabs y) (Qabs_pos_lt x N) H). lia.
Qed.

Lemma round_finite_0 x : (x == 0)%Q -> (round_finite x == 0)%Q.
Proof.
  intros E. unfold round_finite.
  rewrite (rne_Z (x / pow2 (ulp_exp x)) 0).
  - change (inject_Z 0) with 0%Q. ring.
  - change (inject_Z 0) with 0%Q. unfold Qdiv.
    transitivity (0 * / pow2 (ulp_exp x))%Q; [|ring].
    apply Qmult_comp; [exact E | reflexivity].
Qed.

Lemma round_finite_comp x y : (x == y)%Q -> (round_finite x == round_finite y)%Q.
Proof.
  intros E. destruct (Qeq_dec x 0) as [Z|N].
  - rewrite (round_finite_0 x Z). rewrite (round_finite_0 y); [reflexivity|].
    rewrite <- E. exact Z.
  - unfold round_finite. rewrite <- (ulp_exp_comp x y N E).
    rewrite (rne_comp (x / pow2 (ulp_exp x)) (y / pow2 (ulp_exp x))); [reflexivity|].
    unfold Qdiv. apply Qmult_comp; [exact E | reflexivity].
Qed.

Lemma round_finite_opp x : (round_finite (- x) == - round_finite x)%Q.
Proof.
  unfold round_finite. rewrite ulp_exp_opp.
  rewrite (rne_comp (- x / pow2 (ulp_exp x)) (- (x / pow2 (ulp_exp x)))).
  - rewrite rne_opp, inject_Z_opp. ring.
  - field. apply pow2_nonzero.
Qed.

Lemma round_finite_nonneg x : (0 <= x)%Q -> (0 <= round_finite x)%Q.
Proof.
  intros H. unfold round_finite.
  apply Qmult_le_0_compat; [|apply Qlt_le_weak, pow2_pos].
  change 0%Q with (inject_Z 0). rewrite <- Zle_Qle.
  rewrite <- (rne_Z 0 0) by reflexivity. apply rne_le.
  apply Qle_shift_div_l; [apply pow2_pos|]. lra.
Qed.

Lemma round_finite_nonpos x : (x <= 0)%Q -> (round_finite x <= 0)%Q.
Proof.
  intros H. assert (H' : (0 <= round_finite (- x))%Q) by (apply round_finite_nonneg; lra).
  rewrite round_finite_opp in H'. lra.
Qed.

(** [x / 2^u], for [x] a power of two. *)
Lemma rne_pow2_div k u : u <= k -> rne (pow2 k / pow2 u) = 2 ^ (k - u).
Proof.
  intros H. apply rne_Z. rewrite pow2_div. apply pow2_Z. lia.
Qed.

Lemma round_finite_le_pos x y :
  (0 < x)%Q -> (x <= y)%Q -> (round_finite x <= round_finite y)%Q.
Proof.
  intros Hx Hxy.
  assert (Nx : ~ (x == 0)%Q) by (intros E; lra).
  assert (Ny : ~ (y == 0)%Q) by (intros E; lra).
  assert (Ax : (Qabs x == x)%Q) by (apply Qabs_pos; lra).
  assert (Ay : (Qabs y == y)%Q) by (apply Qabs_pos; lra).
  assert (Hu : ulp_exp x <= ulp_exp y) by (apply ulp_exp_le; [exact Nx | lra]).
  unfold round_finite.
  set (u := ulp_exp x) in *. set (v := ulp_exp y) in *.
  destruct (Z.eq_dec u v) as [E|NE].
  - rewrite <- E. apply Qmult_le_compat_r; [|apply Qlt_le_weak, pow2_pos].
    rewrite <- Zle_Qle. apply rne_le.
    apply Qle_shift_div_l; [apply pow2_pos|].
    setoid_replace (x / pow2 u * pow2 u)%Q with x using relation Qeq; [exact Hxy|].
    field. apply pow2_nonzero.
  - assert (Hv : -1074 < v) by (pose proof (ulp_exp_ge x); fold u in H; lia).
    pose proof (ulp_exp_lower y Ny Hv) as Hlow. fold v in Hlow. rewrite Ay in Hlow.
    pose proof (ulp_exp_upper x) as Hup. fold u in Hup. rewrite Ax in Hup.
    apply Qle_trans with (pow2 (u + 53)).
    + apply Qle_trans with (inject_Z (2 ^ 53) * pow2 u)%Q.
      * apply Qmult_le_compat_r; [|apply Qlt_le_weak, pow2_pos].
        rewrite <- Zle_Qle.
        replace (2 ^ 53) with (rne (pow2 (u + 53) / pow2 u))
          by (rewrite rne_pow2_div by lia; f_equal; lia).
        apply rne_le. unfold Qdiv. apply Qmult_le_compat_r.
        -- lra.
        -- apply Qlt_le_weak, Qinv_lt_0_compat, pow2_pos.
      * rewrite <- pow2_Z by lia. rewrite <- pow2_plus.
        replace (53 + u) with (u + 53) by lia. apply Qle_refl.
    + apply Qle_trans with (pow2 (v + 52)); [apply pow2_le; lia|].
      apply Qle_trans with (inject_Z (2 ^ 52) * pow2 v)%Q.
      * rewrite <- pow2_Z by lia. rewrite <- pow2_plus.
        replace (52 + v) with (v + 52) by lia. apply Qle_refl.
      * apply Qmult_le_compat_r; [|apply Qlt_le_weak, pow2_pos].
        rewrite <- Zle_Qle.
        replace (2 ^ 52) with (rne (pow2 (v + 52) / pow2 v))
          by (rewrite rne_pow2_div by lia; f_equal; lia).
        apply rne_le. unfold Qdiv. apply Qmult_le_compat_r.
        -- exact Hlow.
        -- apply Qlt_le_weak, Qinv_lt_0_compat, pow2_pos.
Qed.

Lemma round_finite_le x y : (x <= y)%Q -> (round_finite x <= round_finite y)%Q.
Proof.
  intros Hxy.
  destruct (Qlt_le_dec 0 x) as [Hx|Hx].
  - apply round_finite_le_pos; assumption.
  - destruct (Qlt_le_dec y 0) as [Hy|Hy].
    + assert (H : (round_finite (- y) <= round_finite (- x))%Q)
        by (apply round_finite_le_pos; lra).
      rewrite !round_finite_opp in H. lra.
    + pose proof (round_finite_nonpos x Hx). pose proof (round_finite_nonneg y Hy). lra.
Qed.

Lemma representable_comp x y : (x == y)%Q -> representable x -> representable y.
Proof.
  intros E (m & k & H & Hm & Hk). exists m, k. split; [|split; assumption].
  rewrite <- E. exact H.
Qed.

Lemma representable_0 : representable 0.
Proof. exists 0, 0. split; [reflexivity | split; lia]. Qed.

Lemma representable_Z z : Z.abs z <= 2 ^ 53 -> representable (inject_Z z).
Proof.
  intros H. exists z, 0. split; [|split; [exact H | lia]].
  change (pow2 0) with 1%Q. ring.
Qed.

Lemma representable_opp x : representable x -> representable (- x).
Proof.
  intros (m & k & H & Hm & Hk). exists (- m), k. split; [|split; [lia | exact Hk]].
  rewrite inject_Z_opp, H. ring.
Qed.

Lemma representable_double x : representable x -> representable (2 * x).
Proof.
  intros (m & k & H & Hm & Hk). exists m, (k + 1). split; [|split; [exact Hm | lia]].
  rewrite pow2_plus, H. change (pow2 1) with 2%Q. ring.
Qed.

Lemma rne_bound x : (Qabs x <= inject_Z (2 ^ 53))%Q -> Z.abs (rne x) <= 2 ^ 53.
Proof.
  intros H. apply Qabs_Qle_condition in H. destruct H as [H1 H2].
  apply Z.abs_le. split.
  - replace (- 2 ^ 53) with (rne (- inject_Z (2 ^ 53)))
      by (apply rne_Z; rewrite inject_Z_opp; reflexivity).
    apply rne_le. exact H1.
  - replace (2 ^ 53) with (rne (inject_Z (2 ^ 53))) by (apply rne_Z; reflexivity).
    apply rne_le. exact H2.
Qed.

Lemma round_finite_representable x : representable (round_finite x).
Proof.
  exists (rne (x / pow2 (ulp_exp x))), (ulp_exp x).
  split; [reflexivity|]. split; [|apply ulp_exp_ge].
  apply rne_bound.
  unfold Qdiv. rewrite Qabs_Qmult.
  rewrite (Qabs_pos (/ pow2 (ulp_exp x)))
    by (apply Qlt_le_weak, Qinv_lt_0_compat, pow2_pos).
  apply Qle_shift_div_r; [apply pow2_pos|].
  rewrite <- pow2_Z by lia. rewrite <- pow2_plus.
  replace (53 + ulp_exp x) with (ulp_exp x + 53) by lia.
  apply Qlt_le_weak, ulp_exp_upper.
Qed.

Lemma Qabs_scaled m k : (Qabs (inject_Z m * pow2 k) == inject_Z (Z.abs m) * pow2 k)%Q.
Proof.
  rewrite Qabs_Qmult. rewrite (Qabs_pos (pow2 k)) by apply Qlt_le_weak, pow2_pos.
  reflexivity.
Qed.

Lemma representable_round x : representable x -> (round_finite x == x)%Q.
Proof.
  intros (m & k & E & Hm & Hk).
  destruct (Qeq_dec x 0) as [Z|N]; [rewrite (round_finite_0 x Z), Z; reflexivity|].
  assert (HA : (Qabs x == inject_Z (Z.abs m) * pow2 k)%Q)
    by (rewrite E; apply Qabs_scaled).
  assert (Hz : exists z, (x / pow2 (ulp_exp x) == inject_Z z)%Q).
  { set (u := ulp_exp x).
    assert (Hdiv : (x / pow2 u == inject_Z m * pow2 (k - u))%Q).
    { rewrite <- pow2_div. unfold Qdiv. rewrite Qmult_assoc.
      apply Qmult_comp; [exact E | reflexivity]. }
    destruct (Z_le_gt_dec u k) as [Huk|Huk].
    - exists (m * 2 ^ (k - u)). rewrite Hdiv, inject_Z_mult, pow2_Z by lia. reflexivity.
    - destruct (binade_spec (Qabs x) (Qabs_pos_lt x N)) as [B _].
      unfold ulp_exp in u.
      assert (Hb : binade (Qabs x) <= k + 53).
      { apply pow2_le_inv. eapply Qle_trans; [exact B|]. rewrite HA, pow2_plus.
        rewrite (Qmult_comm (pow2 k) (pow2 53)).
        apply Qmult_le_compat_r; [|apply Qlt_le_weak, pow2_pos].
        rewrite pow2_Z by lia. rewrite <- Zle_Qle. exact Hm. }
      assert (Hbe : binade (Qabs x) = k + 53) by (subst u; lia).
      assert (Hu : u = k + 1) by (subst u; lia).
      assert (Hm' : 2 ^ 53 <= Z.abs m).
      { rewrite Hbe, HA, pow2_plus in B.
        rewrite (Qmult_comm (pow2 k) (pow2 53)) in B.
        apply Qmult_le_r in B; [|apply pow2_pos].
        rewrite pow2_Z in B by lia. apply Z_of_Q_le. exact B. }
      exists (m / 2). rewrite Hdiv. replace (k - u) with (-1) by lia.
      change (pow2 (-1)) with (1 # 2)%Q.
      assert (Hm2 : m = 2 * (m / 2)).
      { assert (Z.abs m = 2 ^ 53) by lia.
        destruct (Z.abs_eq_or_opp m) as [A|A]; rewrite A in H.
        - rewrite H. reflexivity.
        - assert (m = - 2 ^ 53) by lia. subst m. reflexivity. }
      rewrite Hm2 at 1. rewrite inject_Z_mult. change (inject_Z 2) with 2%Q. field. }
  destruct Hz as [z Hz]. unfold round_finite.
  rewrite (rne_Z _ z Hz). rewrite <- Hz. field. apply pow2_nonzero.
Qed.

Lemma round_finite_idem x : (round_finite (round_finite x) == round_finite x)%Q.
Proof. apply representable_round, round_finite_representable. Qed.

Lemma round_finite_lower lo x :
  representable lo -> (lo <= x)%Q -> (lo <= round_finite x)%Q.
Proof.
  intros Hlo H. rewrite <- (representable_round lo Hlo). apply round_finite_le. exact H.
Qed.

Lemma round_finite_upper x hi :
  representable hi -> (x <= hi)%Q -> (round_finite x <= hi)%Q.
Proof.
  intros Hhi H. rewrite <- (representable_round hi Hhi). apply round_finite_le. exact H.
Qed.

(** Rounding keeps a value between two machine numbers between them. *)
Lemma round_finite_between lo x hi :
  representable lo -> representable hi -> (lo <= x <= hi)%Q ->
  (lo <= round_finite x <= hi)%Q.
Proof.
  intros Hlo Hhi [H1 H2]. split.
  - rewrite <- (representable_round lo Hlo). apply round_finite_le. exact H1.
  - rewrite <- (representable_round hi Hhi). apply round_finite_le. exact H2.
Qed.

(** ** The operations on finite values *)

Lemma round64_Finite x y :
  round64 x = Finite y ->
  (y == round_finite x)%Q /\ (- pow2 1024 < y < pow2 1024)%Q.
Proof.
  unfold round64. intros H.
  destruct (Qle_bool (pow2 1024) (Qred (round_finite x))) eqn:E1; [discriminate|].
  destruct (Qle_bool (Qred (round_finite x)) (- pow2 1024)) eqn:E2; [discriminate|].
  assert (Hy : y = Qred (round_finite x)) by congruence.
  clear H. subst y.
  assert (N1 : ~ (pow2 1024 <= Qred (round_finite x))%Q)
    by (intros C; apply Qle_bool_iff in C; congruence).
  assert (N2 : ~ (Qred (round_finite x) <= - pow2 1024)%Q)
    by (intros C; apply Qle_bool_iff in C; congruence).
  split; [apply Qred_correct|].
  split; apply Qnot_le_lt; assumption.
Qed.

Lemma round64_in_range x :
  (- pow2 1024 < round_finite x < pow2 1024)%Q ->
  round64 x = Finite (Qred (round_finite x)).
Proof.
  intros [H1 H2]. unfold round64.
  destruct (Qle_bool (pow2 1024) (Qred (round_finite x))) eqn:E1.
  { apply Qle_bool_iff in E1. rewrite Qred_correct in E1. lra. }
  destruct (Qle_bool (Qred (round_finite x)) (- pow2 1024)) eqn:E2.
  { apply Qle_bool_iff in E2. rewrite Qred_correct in E2. lra. }
  reflexivity.
Qed.

(** The rounded value of an [x] between two machine numbers of the range. *)
Lemma round64_between lo x hi :
  representable lo -> representable hi -> (lo <= x <= hi)%Q ->
  (- pow2 1024 < lo)%Q -> (hi < pow2 1024)%Q ->
  exists y, round64 x = Finite y /\ (y == round_finite x)%Q /\ (lo <= y <= hi)%Q
            /\ representable y.
Proof.
  intros Hlo Hhi Hx H1 H2.
  destruct (round_finite_between lo x hi Hlo Hhi Hx) as [B1 B2].
  exists (Qred (round_finite x)).
  split; [apply round64_in_range; lra|].
  split; [apply Qred_correct|].
  split; [rewrite Qred_correct; lra|].
  apply (representable_comp (round_finite x)); [symmetry; apply Qred_correct|].
  apply round_finite_representable.
Qed.

Lemma round64_representable x y : round64 x = Finite y -> representable y.
Proof.
  intros H. apply round64_Finite in H. destruct H as [H _].
  apply (representable_comp (round_finite x)); [symmetry; exact H|].
  apply round_finite_representable.
Qed.

Lemma round64_not_NaN x : round64 x <> NaN.
Proof.
  unfold round64.
  destruct (Qle_bool (pow2 1024) _); [discriminate|].
  destruct (Qle_bool _ (- pow2 1024)); discriminate.
Qed.

Lemma pow2_63_lt_1024 : (2 * inject_Z (2 ^ 63) < pow2 1024)%Q.
Proof.
  setoid_replace (2 * inject_Z (2 ^ 63))%Q with (pow2 64) using relation Qeq by reflexivity.
  apply pow2_lt. lia.
Qed.

Lemma add_jitter_window b j r hi :
  representable b -> (0 <= b)%Q -> (0 <= j)%Q -> (0 <= r <= 1)%Q ->
  fadd (Finite b) (fmul (Finite b) (Finite j)) = Finite hi ->
  (hi < inject_Z (2 ^ 63))%Q ->
  exists w lo x,
    fmul (Finite b) (Finite j) = Finite w /\ (0 <= w)%Q
    /\ fsub (Finite b) (Finite w) = Finite lo
    /\ add_jitter (Finite b) (Finite j) r = Finite x
    /\ (Qmax 0 lo <= x <= hi)%Q.
Proof.
  intros Rb Hb Hj Hr Hhi Hlt.
  pose proof pow2_63_lt_1024 as H63.
  assert (H2 : (2 < inject_Z (2 ^ 63))%Q) by reflexivity.
  unfold add_jitter.
  cbn [fmul] in *.
  destruct (round64 (b * j)) as [| | |w] eqn:EW; cbn [fadd] in Hhi; try discriminate.
  assert (Rw : representable w) by (eapply round64_representable; exact EW).
  assert (Hw : (0 <= w)%Q).
  { apply round64_Finite in EW. destruct EW as [EW _]. rewrite EW.
    apply round_finite_nonneg. apply Qmult_le_0_compat; assumption. }
  pose proof (round64_representable _ _ Hhi) as Rhi.
  apply round64_Finite in Hhi. destruct Hhi as [Ehi _].
  assert (Hwhi : (w <= hi)%Q).
  { rewrite Ehi. apply round_finite_lower; [exact Rw | lra]. }
  assert (Hbhi : (b <= hi)%Q).
  { rewrite Ehi. apply round_finite_lower; [exact Rb | lra]. }
  (* r * 2 *)
  change (F64 2) with (Finite 2). cbn [fmul].
  destruct (round64_between 0 (r * 2) 2) as (r2 & E2 & _ & Hr2 & _);
    [apply representable_0 | apply (representable_Z 2); vm_compute; discriminate
    | lra | pose proof (pow2_pos 1024); lra | lra |].
  rewrite E2. cbn [fmul].
  (* (r * 2) * jitterRange *)
  destruct (round64_between 0 (r2 * w) (2 * w)) as (t & ET & _ & Ht & _);
    [apply representable_0 | apply representable_double; exact Rw
    | split; [apply Qmult_le_0_compat; lra | apply Qmult_le_compat_r; lra]
    | pose proof (pow2_pos 1024); lra | lra |].
  rewrite ET. unfold fsub. cbn [fneg fadd].
  (* ... - jitterRange *)
  destruct (round64_between (- w) (t + - w) w) as (jit & EJ & _ & Hjit & _);
    [apply representable_opp; exact Rw | exact Rw | lra | lra | lra |].
  rewrite EJ. cbn [fadd].
  (* the lower end of the window *)
  destruct (round64_between (- w) (b + - w) b) as (lo & EL & ELr & Hlo & _);
    [apply representable_opp; exact Rw | exact Rb | lra | lra | lra |].
  (* backoff + jitter *)
  assert (Hx0 : (lo <= round_finite (b + jit) <= hi)%Q).
  { split.
    - rewrite ELr. apply round_finite_le. lra.
    - rewrite Ehi. apply round_finite_le. lra. }
  rewrite (round64_in_range (b + jit)) by lra.
  exists w, lo. cbn [flt].
  destruct (Qle_bool 0 (Qred (round_finite (b + jit)))) eqn:E0; cbn [negb].
  - exists (Qred (round_finite (b + jit))).
    apply Qle_bool_iff in E0.
    repeat split; try assumption; try reflexivity.
    + apply Q.max_lub; [exact E0 | rewrite Qred_correct; lra].
    + rewrite Qred_correct. lra.
  - exists 0%Q.
    assert (N : ~ (0 <= Qred (round_finite (b + jit)))%Q)
      by (intros C; apply Qle_bool_iff in C; congruence).
    rewrite Qred_correct in N.
    repeat split; try assumption; try reflexivity.
    + apply Q.max_lub; lra.
    + lra.
Qed.

(** ** The backoff calculator *)

Lemma Qltb_true a b : Qltb a b = true <-> (a < b)%Q.
Proof.
  unfold Qltb. rewrite negb_true_iff. split.
  - intros H. apply Qnot_le_lt. intros Hle. apply Qle_bool_iff in Hle. congruence.
  - intros H. destruct (Qle_bool b a) eqn:E; [|reflexivity].
    apply Qle_bool_iff in E. exfalso. apply (Qlt_not_le _ _ H E).
Qed.

Lemma Qltb_false a b : Qltb a b = false <-> (b <= a)%Q.
Proof.
  unfold Qltb. rewrite negb_false_iff. apply Qle_bool_iff.
Qed.

Lemma calculateBackoff_jittered env cfg attempt r :
  calculateBackoff env cfg attempt r = Duration_of_float (jittered env cfg attempt r).
Proof. reflexivity. Qed.

(** On a float that is not negative and below [2^63] the conversion is the
    floor. *)
Lemma Duration_of_float_floor x :
  (0 <= x)%Q -> (x < inject_Z (2 ^ 63))%Q -> Duration_of_float (Finite x) = Qfloor x.
Proof.
  intros H0 H1. unfold Duration_of_float.
  assert (E : Z.quot (Qnum x) (Z.pos (Qden x)) = Qfloor x).
  { destruct x as [n d]. cbn. apply Z.quot_div_nonneg; [|lia].
    unfold Qle in H0. cbn in H0. lia. }
  rewrite E.
  assert (Hlo : 0 <= Qfloor x)
    by (change 0 with (Qfloor 0); apply Qfloor_resp_le; exact H0).
  assert (Hhi : Qfloor x < 2 ^ 63).
  { apply Z_of_Q_lt. eapply Qle_lt_trans; [apply Qfloor_le | exact H1]. }
  unfold MinInt64, MaxInt64.
  destruct (Z.leb_spec (- 2 ^ 63) (Qfloor x)); [|lia].
  destruct (Z.leb_spec (Qfloor x) (2 ^ 63 - 1)); [|lia].
  reflexivity.
Qed.

(** Truncation loses less than one nanosecond. *)
Lemma Qfloor_bounds x : (x - 1 < inject_Z (Qfloor x) <= x)%Q.
Proof.
  split; [|apply Qfloor_le].
  pose proof (Qlt_floor x) as H. rewrite inject_Z_plus in H.
  change (inject_Z 1) with 1%Q in H. lra.
Qed.

Lemma round64_nonneg x :
  (0 <= x)%Q ->
  round64 x = PosInf
  \/ exists y, round64 x = Finite y /\ (0 <= y)%Q /\ representable y.
Proof.
  intros H. pose proof (round_finite_nonneg x H) as Hr.
  destruct (round64 x) as [| | |y] eqn:E.
  - exfalso. exact (round64_not_NaN x E).
  - left. reflexivity.
  - exfalso. unfold round64 in E.
    destruct (Qle_bool (pow2 1024) (Qred (round_finite x))); [discriminate|].
    destruct (Qle_bool (Qred (round_finite x)) (- pow2 1024)) eqn:E2; [|discriminate].
    apply Qle_bool_iff in E2. rewrite Qred_correct in E2.
    pose proof (pow2_pos 1024). lra.
  - right. exists y. split; [reflexivity|].
    pose proof (round64_representable x y E) as R.
    apply round64_Finite in E. destruct E as [E _].
    split; [rewrite E; exact Hr | exact R].
Qed.

Lemma representable_2_63 : representable (inject_Z (2 ^ 63)).
Proof. exists 1, 63. split; [reflexivity | split; lia]. Qed.

(** The conversion of a duration that is not negative. *)
Lemma of_int64_nonneg z :
  0 <= z <= MaxInt64 ->
  exists i, of_int64 z = Finite i /\ representable i /\ (0 <= i)%Q /\ (0 < z -> (0 < i)%Q).
Proof.
  intros [Hz0 Hz1]. unfold of_int64.
  assert (Hup : (inject_Z z <= inject_Z (2 ^ 63))%Q)
    by (rewrite <- Zle_Qle; unfold MaxInt64 in Hz1; lia).
  pose proof pow2_63_lt_1024 as H63.
  assert (Hp : (0 < inject_Z (2 ^ 63))%Q) by reflexivity.
  pose proof (pow2_pos 1024) as Hpos.
  destruct (Z.eq_dec z 0) as [->|Hnz].
  - destruct (round64_between 0 (inject_Z 0) (inject_Z (2 ^ 63))) as (i & E & _ & Hi & R);
      [apply representable_0 | apply representable_2_63 | split; [apply Qle_refl | exact Hup]
      | lra | lra |].
    exists i. repeat split; try assumption; try lra. lia.
  - assert (H1 : (1 <= inject_Z z)%Q)
      by (change 1%Q with (inject_Z 1); rewrite <- Zle_Qle; lia).
    destruct (round64_between 1 (inject_Z z) (inject_Z (2 ^ 63))) as (i & E & _ & Hi & R);
      [apply (representable_Z 1); vm_compute; discriminate | apply representable_2_63
      | split; assumption | lra | lra |].
    exists i. repeat split; try assumption; lra.
Qed.

(** The capped backoff is a machine number that is not negative, when the
    two backoffs of the policy are not negative and [math.Pow] returns a
    number that is not negative, or +Inf to a positive initial backoff. *)
Lemma nominal_nonneg env cfg attempt :
  0 <= InitialBackoff cfg <= MaxInt64 -> 0 <= MaxBackoff cfg <= MaxInt64 ->
  not_negative (math_Pow env (BackoffMultiple cfg) (of_int64 attempt)) ->
  (math_Pow env (BackoffMultiple cfg) (of_int64 attempt) = PosInf -> 0 < InitialBackoff cfg) ->
  exists b, nominal env cfg attempt = Finite b /\ representable b /\ (0 <= b)%Q.
Proof.
  intros HI HM HP HPinf. unfold nominal.
  destruct (of_int64_nonneg _ HI) as (i & Ei & Ri & Hi0 & Hipos).
  destruct (of_int64_nonneg _ HM) as (m & Em & Rm & Hm0 & _).
  rewrite Ei, Em.
  assert (Hcap : forall y, representable y -> (0 <= y)%Q ->
            exists b, (if fgt (Finite y) (Finite m) then Finite m else Finite y) = Finite b
                      /\ representable b /\ (0 <= b)%Q).
  { intros y Ry Hy. destruct (fgt (Finite y) (Finite m)).
    - exists m. repeat split; assumption.
    - exists y. repeat split; assumption. }
  destruct HP as [HP|(p & HP & Hp)].
  - rewrite HP. cbn [fmul]. unfold scale_inf.
    specialize (Hipos (HPinf HP)).
    destruct (Qcompare_spec i 0) as [C|C|C]; try lra.
    cbn. exists m. repeat split; assumption.
  - rewrite HP. cbn [fmul].
    destruct (round64_nonneg (i * p)) as [E|(y & E & Hy & Ry)];
      [apply Qmult_le_0_compat; assumption | |].
    + rewrite E. cbn. exists m. repeat split; assumption.
    + rewrite E. apply Hcap; assumption.
Qed.

(** The jitter window of [calculateBackoff], for a capped backoff [b] that
    is not negative. *)
Lemma calculateBackoff_window env cfg attempt r b j hi :
  nominal env cfg attempt = Finite b -> representable b -> (0 <= b)%Q ->
  JitterFraction cfg = Finite j -> (0 <= j)%Q ->
  (0 <= r <= 1)%Q ->
  window_hi env cfg attempt = Finite hi -> (hi < inject_Z (2 ^ 63))%Q ->
  exists lo x : Q,
    window_lo env cfg attempt = Finite lo
    /\ jittered env cfg attempt r = Finite x
    /\ (Qmax 0 lo <= x <= hi)%Q
    /\ calculateBackoff env cfg attempt r = Qfloor x.
Proof.
  intros Eb Rb Hb Ej Hj Hr Ehi Hhi.
  unfold window_hi in Ehi. rewrite Eb, Ej in Ehi.
  destruct (add_jitter_window b j r hi Rb Hb Hj Hr Ehi Hhi)
    as (w & lo & x & Ew & Hw & Elo & Ex & Hx).
  exists lo, x.
  assert (Hx0 : (0 <= x)%Q) by (pose proof (Q.le_max_l 0 lo); lra).
  split; [unfold window_lo; rewrite Eb, Ej, Ew; exact Elo|].
  split; [unfold jittered; rewrite Eb, Ej; exact Ex|].
  split; [exact Hx|].
  rewrite calculateBackoff_jittered. unfold jittered. rewrite Eb, Ej, Ex.
  apply Duration_of_float_floor; lra.
Qed.

(** Claim C6 (as amended).  For a policy whose two backoffs are not
    negative, a jitter fraction [j >= 0], a result of [math.Pow] that is
    not negative (or +Inf, to a positive initial backoff) and a random
    number in [0, 1]: the capped backoff [b] that the code computes in
    float64 arithmetic is a number that is not negative; let [lo] and [hi]
    be the floats [b - b*j] and [b + b*j], each operation rounded to
    nearest.  If [hi] is below [2^63], the delay is the floor of a float
    [x] with [max 0 lo <= x <= hi]; so it is not negative, at most [hi],
    and within one nanosecond of [x]. *)
Theorem backoff_within_jitter env cfg attempt r j hi :
  0 <= InitialBackoff cfg <= MaxInt64 -> 0 <= MaxBackoff cfg <= MaxInt64 ->
  not_negative (math_Pow env (BackoffMultiple cfg) (of_int64 attempt)) ->
  (math_Pow env (BackoffMultiple cfg) (of_int64 attempt) = PosInf -> 0 < InitialBackoff cfg) ->
  JitterFraction cfg = Finite j -> (0 <= j)%Q ->
  (0 <= r <= 1)%Q ->
  window_hi env cfg attempt = Finite hi -> (hi < inject_Z (2 ^ 63))%Q ->
  exists b lo x : Q,
    nominal env cfg attempt = Finite b /\ (0 <= b)%Q
    /\ window_lo env cfg attempt = Finite lo
    /\ jittered env cfg attempt r = Finite x
    /\ (Qmax 0 lo <= x <= hi)%Q
    /\ calculateBackoff env cfg attempt r = Qfloor x
    /\ 0 <= calculateBackoff env cfg attempt r
    /\ (x - 1 < inject_Z (calculateBackoff env cfg attempt r) <= x)%Q.
Proof.
  intros HI HM HP HPinf Ej Hj Hr Ehi Hhi.
  destruct (nominal_nonneg env cfg attempt HI HM HP HPinf) as (b & Eb & Rb & Hb).
  destruct (calculateBackoff_window env cfg attempt r b j hi Eb Rb Hb Ej Hj Hr Ehi Hhi)
    as (lo & x & Elo & Ex & Hx & Ed).
  exists b, lo, x.
  assert (Hx0 : (0 <= x)%Q) by (pose proof (Q.le_max_l 0 lo); lra).
  split; [exact Eb|]. split; [exact Hb|]. split; [exact Elo|]. split; [exact Ex|].
  split; [exact Hx|]. split; [exact Ed|]. rewrite Ed.
  split; [change 0 with (Qfloor 0); apply Qfloor_resp_le; exact Hx0|].
  apply Qfloor_bounds.
Qed.

Lemma backoff_within_jitter_witness :
  exists b lo x : Q,
    nominal env_200 DefaultRetryConfig 1 = Finite b /\ (0 <= b)%Q
    /\ window_lo env_200 DefaultRetryConfig 1 = Finite lo
    /\ jittered env_200 DefaultRetryConfig 1 (1 # 4) = Finite x
    /\ (Qmax 0 lo <= x <= 130000000)%Q
    /\ calculateBackoff env_200 DefaultRetryConfig 1 (1 # 4) = Qfloor x
    /\ 0 <= calculateBackoff env_200 DefaultRetryConfig 1 (1 # 4)
    /\ (x - 1 < inject_Z (calculateBackoff env_200 DefaultRetryConfig 1 (1 # 4)) <= x)%Q.
Proof.
  apply (backoff_within_jitter env_200 DefaultRetryConfig 1 (1 # 4)
           (5404319552844595 # 18014398509481984) 130000000).
  - vm_compute. split; discriminate.
  - vm_compute. split; discriminate.
  - right. exists 2%Q. split; [vm_compute; reflexivity | discriminate].
  - vm_compute. discriminate.
  - vm_compute. reflexivity.
  - discriminate.
  - split; discriminate.
  - vm_compute. reflexivity.
  - reflexivity.
Defined.

(** Claim C6 as stated fails: with a backoff of 1ns and a jitter fraction of
    1/2 (both float64 numbers, and [math.Pow(1, 0) = 1]) the window starts
    at 1/2 ns, the random number 1/4 gives 3/4 ns, and the delay returned
    is 0. *)
Lemma backoff_below_jitter_window :
  calculateBackoff env_200 cfg_1ns 0 (1 # 4) = 0
  /\ nominal env_200 cfg_1ns 0 = Finite 1
  /\ JitterFraction cfg_1ns = Finite (1 # 2)
  /\ window_lo env_200 cfg_1ns 0 = Finite (1 # 2)
  /\ jittered env_200 cfg_1ns 0 (1 # 4) = Finite (3 # 4)
  /\ ~ (Qmax 0 (1 * (1 - (1 # 2))) <= inject_Z (calculateBackoff env_200 cfg_1ns 0 (1 # 4)))%Q.
Proof.
  repeat (split; [vm_compute; reflexivity|]).
  vm_compute. intros H. apply H. reflexivity.
Qed.

(** ** The bulkhead *)

Section BulkheadConcurrency.
Import Concurrent.

Lemma count_running_cons g gs :
  count_running (g :: gs) = (weight g + count_running gs)%nat.
Proof.
  unfold count_running, weight. rewrite filter_cons.
  destruct (running g); case_decide; try congruence; reflexivity.
Qed.

Lemma count_running_app gs gs' :
  count_running (gs ++ gs') = (count_running gs + count_running gs')%nat.
Proof. unfold count_running. rewrite filter_app, length_app. reflexivity. Qed.

(** Replacing one goroutine changes the count by the difference of the
    two weights. *)
Lemma count_running_insert gs : forall i g g',
  gs !! i = Some g ->
  (count_running (<[i := g']> gs) + weight g = count_running gs + weight g')%nat.
Proof.
  induction gs as [|h gs IH]; intros i g g' Hi; [discriminate|].
  destruct i as [|i]; cbn in Hi.
  - injection Hi as ->. cbn [insert list_insert]. rewrite !count_running_cons. lia.
  - change (<[S i := g']> (h :: gs)) with (h :: <[i := g']> gs).
    rewrite !count_running_cons. specialize (IH i g g' Hi). lia.
Qed.

Lemma Inv_NewPool b : 0 <= max b -> Inv b (NewPool b).
Proof. intros H. unfold Inv, in_flight. cbn. repeat split; auto. Qed.

Lemma Inv_step b a p p' : Inv b p -> step a p = Some p' -> Inv b p'.
Proof.
  intros (Hsize & Hcur & Hle & Hall) Hstep.
  unfold in_flight in *. fold (count_running (goroutines p)) in *.
  destruct a as [|i|i|i out]; cbn [step] in Hstep.
  - injection Hstep as <-. unfold Inv, in_flight. cbn [sem goroutines].
    fold (count_running (goroutines p ++ [{| pc := AtAcquire; acquired := 0; released := 0; started := 0 |}])).
    rewrite count_running_app. cbn. rewrite Nat.add_0_r.
    repeat split; auto.
    apply Forall_app. split; [exact Hall|]. constructor; [|constructor].
    cbn. auto.
  - destruct (goroutines p !! i) as [[[| |out] a r n]|] eqn:Hi; try discriminate.
    unfold TryAcquire in Hstep.
    destruct (cur (sem p) + 1 <=? size (sem p)) eqn:Hroom; [|discriminate].
    injection Hstep as <-. apply Z.leb_le in Hroom.
    pose proof (count_running_insert (goroutines p) i _
                  {| pc := InFn; acquired := S a; released := r; started := S n |} Hi) as Hcnt.
    cbn in Hcnt.
    pose proof (proj1 (Forall_lookup _ _) Hall i _ Hi) as Hd. cbn in Hd.
    destruct Hd as (-> & -> & ->).
    unfold Inv, in_flight. cbn [sem goroutines size cur].
    fold (count_running (<[i := {| pc := InFn; acquired := 1; released := 0; started := 1 |}]> (goroutines p))).
    repeat split; try lia.
    apply Forall_insert; [exact Hall|]. cbn. auto.
  - destruct (goroutines p !! i) as [[[| |out] a r n]|] eqn:Hi; try discriminate.
    injection Hstep as <-.
    pose proof (count_running_insert (goroutines p) i _
                  {| pc := Left rejection; acquired := a; released := r; started := n |} Hi) as Hcnt.
    cbn in Hcnt.
    pose proof (proj1 (Forall_lookup _ _) Hall i _ Hi) as Hd. cbn in Hd.
    destruct Hd as (-> & -> & ->).
    unfold Inv, in_flight. cbn [sem goroutines size cur].
    fold (count_running (<[i := {| pc := Left rejection; acquired := 0; released := 0; started := 0 |}]> (goroutines p))).
    repeat split; try lia.
    apply Forall_insert; [exact Hall|]. cbn. right. auto.
  - destruct (goroutines p !! i) as [[[| |out'] a r n]|] eqn:Hi; try discriminate.
    injection Hstep as <-.
    pose proof (count_running_insert (goroutines p) i _
                  {| pc := Left out; acquired := a; released := S r; started := n |} Hi) as Hcnt.
    cbn in Hcnt.
    pose proof (proj1 (Forall_lookup _ _) Hall i _ Hi) as Hd. cbn in Hd.
    destruct Hd as (-> & -> & ->).
    unfold Inv, in_flight. cbn [sem goroutines size cur Release].
    fold (count_running (<[i := {| pc := Left out; acquired := 1; released := 1; started := 1 |}]> (goroutines p))).
    repeat split; try lia.
    apply Forall_insert; [exact Hall|]. cbn. left. auto.
Qed.

Lemma Inv_run b acts : forall p p', Inv b p -> run acts p = Some p' -> Inv b p'.
Proof.
  induction acts as [|a acts IH]; intros p p' HI Hrun; cbn in Hrun.
  - injection Hrun as <-. exact HI.
  - destruct (step a p) as [p1|] eqn:Hs; [|discriminate].
    eapply IH; [eapply Inv_step; eauto | exact Hrun].
Qed.

(** Claim C7.  In every state that goroutines calling [Bulkhead.Execute] on
    a bulkhead of capacity [max b >= 0] can reach, the number of
    operations in flight is at most [max b] and equals the number of
    permits handed out; every goroutine that acquired a permit holds
    exactly one while [fn] runs and has released it exactly once when it
    has left, however [fn] ended (return or panic); a goroutine whose wait
    was cancelled never ran [fn], never held a permit and returned the
    rejection error.  For the sequential code of [Bulkhead.Execute]: when
    the context is done before a permit is acquired the call returns the
    error "bulkhead limit reached" wrapping the context error without
    running [fn], and every call gives back what it acquired. *)
Theorem bulkhead_permits_bounded env b span fn w acts p :
  0 <= max b ->
  run acts (NewPool b) = Some p ->
  (in_flight p <= max b
   /\ cur (sem p) = in_flight p
   /\ (forall g, g ∈ goroutines p -> permit_discipline g))
  /\ (acquire_cancelled env (acquires w) = true ->
      Bulkhead_Execute env b span fn w
      = (Some (Errorf "bulkhead limit reached" ErrContext),
         bulkhead_rejected_world span w))
  /\ ((forall w1, permits (snd (fn w1)) = permits w1) ->
      permits (snd (Bulkhead_Execute env b span fn w)) = permits w).
Proof.
  intros Hmax Hrun. split; [|split].
  - destruct (Inv_run b acts _ _ (Inv_NewPool b Hmax) Hrun) as (_ & Hcur & Hle & Hall).
    repeat split; auto. apply Forall_forall. exact Hall.
  - intros Hc. unfold Bulkhead_Execute, bind, sem_Acquire. rewrite Hc. reflexivity.
  - intros Hfn. unfold Bulkhead_Execute, bind, sem_Acquire.
    destruct (acquire_cancelled env (acquires w)); [reflexivity|].
    cbn [span_op].
    match goal with |- context [fn ?w1] =>
      specialize (Hfn w1); destruct (fn w1) as [r w2] end.
    cbn in *. lia.
Qed.

Lemma bulkhead_permits_bounded_witness :
  let b := NewBulkhead 1 in
  let acts := [Call; Call; Acquire 0; Cancel 1; Finish 0 Panics] in
  let p := {| sem := {| size := 1; cur := 0 |};
              goroutines :=
                [{| pc := Left Panics; acquired := 1; released := 1; started := 1 |};
                 {| pc := Left rejection; acquired := 0; released := 0; started := 0 |}] |} in
  (in_flight p <= max b
   /\ cur (sem p) = in_flight p
   /\ (forall g, g ∈ goroutines p -> permit_discipline g))
  /\ Bulkhead_Execute env_busy b "callPayment" (ret None) NewWorld
     = (Some (Errorf "bulkhead limit reached" ErrContext),
        bulkhead_rejected_world "callPayment" NewWorld)
  /\ permits (snd (Bulkhead_Execute env_busy b "callPayment" (ret None) NewWorld))
     = permits NewWorld.
Proof.
  intros b acts p.
  destruct (bulkhead_permits_bounded env_busy b "callPayment" (ret None) NewWorld acts p)
    as (Hinv & Hrej & Hbal).
  - vm_compute. discriminate.
  - reflexivity.
  - split; [exact Hinv|]. split; [apply Hrej; reflexivity | apply Hbal; reflexivity].
Defined.

(** A second goroutine cannot enter a bulkhead of capacity 1 while the
    first is in [fn]. *)
Example bulkhead_full :
  run [Call; Call; Acquire 0; Acquire 1] (NewPool (NewBulkhead 1)) = None.
Proof. reflexivity. Qed.
End BulkheadConcurrency.

(** ** The stack end to end *)

(** Five orders against a downstream that always answers 500 open the
    breaker (15 HTTP calls); the sixth is rejected without a call. *)
Example breaker_opens_after_five_failures :
  let w := orders env_500 svc 5 NewWorld in
  state (breaker w) = StateOpen
  /\ http_calls w = 15%nat
  /\ fst (CreateOrder env_500 svc order_m "" w)
     = Fail (Errorf "payment failed" (Errorf "circuit breaker open" ErrOpenState))
  /\ http_calls (snd (CreateOrder env_500 svc order_m "" w)) = 15%nat.
Proof. vm_compute. repeat split. Qed.

(** A healthy downstream: one call, and the order is stored under its key. *)
Example happy_path :
  let out := CreateOrder env_200 svc order_m "k-1" NewWorld in
  fst out = Ok {| resp_OrderID := "order-0"; resp_Status := "completed";
                  resp_CreatedAt := "1970-01-01T00:00:00Z" |}
  /\ http_calls (snd out) = 1%nat
  /\ entries (snd out) !! "k-1"
     = Some {| OrderID := "order-0"; Status := "completed"; CreatedAt := 0 |}.
Proof. vm_compute. repeat split. Qed.

(** * Further properties of the code *)

(** ** The retry executor: recovery, sleeps and results *)

Section RetryMore.
Context (env : Env) (span : string) (cfg : RetryConfig).
Context (fn : M (option Response * option error)).

(** An iteration whose attempt is accepted ends the loop. *)
Lemma retry_accepts k attempt resp lastErr w :
  let w0 := set_trace (cons (SetAttributes span "retry.attempt" (AttrInt attempt))) w in
  attempt_ok (fst (fst (fn w0))) (snd (fst (fn w0))) = true ->
  exists w1,
    retry_loop env span cfg fn (S k) attempt resp lastErr w
    = ((fst (fst (fn w0)), None), w1)
    /\ http_calls w1 = http_calls (snd (fn w0))
    /\ selects w1 = selects (snd (fn w0))
    /\ rand_reads w1 = rand_reads (snd (fn w0)).
Proof.
  intros w0 Hok.
  remember (retry_loop env span cfg fn (S k) attempt resp lastErr w) as L eqn:HL.
  cbn [retry_loop] in HL. unfold bind at 1 in HL. cbn [span_op] in HL.
  unfold bind at 1 in HL. fold w0 in HL.
  destruct (fn w0) as [out wf]. cbn [fst snd] in *. rewrite Hok in HL.
  unfold bind, when, span_op, ret in HL.
  destruct (0 <? attempt); rewrite HL; eexists; repeat split.
Qed.

Hypothesis fn_http : http_operation fn.

(** [k] failed attempts, none of whose backoffs is cut short, and then an accepted one: the loop returns the response of attempt [k]. *)
Lemma retry_loop_recovers k : forall remaining attempt resp lastErr w,
  (forall w', (http_calls w <= http_calls w' < http_calls w + k)%nat ->
              attempt_ok (fst (fst (fn w'))) (snd (fst (fn w'))) = false) ->
  (forall w', http_calls w' = (http_calls w + k)%nat ->
              attempt_ok (fst (fst (fn w'))) (snd (fst (fn w'))) = true) ->
  (k < remaining)%nat ->
  (forall i, (selects w <= i < selects w + k)%nat -> ctx_done_first env i = false) ->
  exists w_ok w',
    retry_loop env span cfg fn remaining attempt resp lastErr w
    = ((fst (fst (fn w_ok)), None), w')
    /\ http_calls w_ok = (http_calls w + k)%nat
    /\ http_calls w' = (http_calls w + S k)%nat.
Proof.
  induction k as [|k IH]; intros remaining attempt resp lastErr w Hfail Hok Hrem Hnc;
    (destruct remaining as [|remaining]; [lia|]).
  - destruct (retry_accepts remaining attempt resp lastErr w) as (w1 & -> & Hc & _).
    { apply Hok. cbn. lia. }
    eexists. exists w1. split; [reflexivity|]. split; [cbn; lia|].
    rewrite Hc. destruct (fn_http (set_trace (cons (SetAttributes span "retry.attempt" (AttrInt attempt))) w)) as [-> _].
    cbn. lia.
  - destruct (retry_iteration env span cfg fn fn_http remaining attempt resp lastErr w)
      as (Hlast & _ & Hnext).
    { apply Hfail. cbn. lia. }
    assert (Hstep : exists w1 r e, http_calls w1 = S (http_calls w)
              /\ (selects w <= selects w1 <= S (selects w))%nat
              /\ retry_loop env span cfg fn (S remaining) attempt resp lastErr w
                 = retry_loop env span cfg fn remaining (attempt + 1) r e w1).
    { destruct (attempt <? MaxAttempts cfg - 1) eqn:Hlt.
      - destruct Hnext as (w1 & Hc1 & Hs1 & Heq); [reflexivity | apply Hnc; lia |].
        exists w1. eexists. eexists. split; [exact Hc1|]. split; [lia | exact Heq].
      - destruct Hlast as (w1 & Hc1 & Hs1 & Heq); [reflexivity|].
        exists w1. eexists. eexists. split; [exact Hc1|]. split; [lia | exact Heq]. }
    destruct Hstep as (w1 & r & e & Hc1 & Hs1 & ->).
    destruct (IH remaining (attempt + 1) r e w1) as (wo & w' & -> & Hco & Hc').
    + intros w' Hw'. apply Hfail. lia.
    + intros w' Hw'. apply Hok. lia.
    + lia.
    + intros i Hi. apply Hnc. lia.
    + exists wo, w'. split; [reflexivity|]. lia.
Qed.

End RetryMore.

(** Property X26.  The executor itself does not retry a client error: when
    the first invocation of the operation returns a nil error and a
    response whose status is below 500 and not 429 (a 4xx or a 3xx as well
    as a 2xx), [RetryableHTTPCall] returns that response with a nil error
    at once; beyond the attribute [retry.attempt] and what the operation
    did, nothing happens: no event, no random number, no sleep, no second
    invocation. *)
Theorem status_below_500_with_nil_error_is_final env span cfg fn w resp :
  0 < MaxAttempts cfg ->
  fst (fn (set_trace (cons (SetAttributes span "retry.attempt" (AttrInt 0))) w))
    = (Some resp, None) ->
  StatusCode resp < 500 ->
  StatusCode resp <> 429 ->
  RetryableHTTPCall env span cfg fn w
  = ((Some resp, None),
     snd (fn (set_trace (cons (SetAttributes span "retry.attempt" (AttrInt 0))) w))).
Proof.
  intros Hmax Hout Hlt Hne. unfold RetryableHTTPCall.
  destruct (Z.to_nat (MaxAttempts cfg)) as [|k] eqn:Hk; [lia|].
  cbn [retry_loop]. unfold bind at 1. cbn [span_op]. unfold bind at 1.
  destruct (fn _) as [out wf]. cbn [fst snd] in *. subst out. cbn [fst snd attempt_ok].
  replace (StatusCode resp <? 500) with true by (symmetry; apply Z.ltb_lt; exact Hlt).
  replace (StatusCode resp =? 429) with false by (symmetry; apply Z.eqb_neq; exact Hne).
  reflexivity.
Qed.

Lemma status_below_500_with_nil_error_is_final_witness :
  RetryableHTTPCall env_200 "callPayment" DefaultRetryConfig answers_404 NewWorld
  = ((Some {| StatusCode := 404 |}, None),
     snd (answers_404
            (set_trace (cons (SetAttributes "callPayment" "retry.attempt" (AttrInt 0)))
               NewWorld))).
Proof.
  apply (status_below_500_with_nil_error_is_final env_200 "callPayment" DefaultRetryConfig
           answers_404 NewWorld {| StatusCode := 404 |}).
  - reflexivity.
  - reflexivity.
  - reflexivity.
  - discriminate.
Defined.

Section Sleeps.
Context (env : Env) (span : string) (cfg : RetryConfig).
Context (fn : M (option Response * option error)).
Hypothesis fn_quiet : quiet_operation fn.

(** Every backoff draws one random number, and the loop entered at [attempt] sleeps at most until attempt [MaxAttempts - 1]. *)
Lemma retry_loop_sleeps remaining : forall attempt resp lastErr w,
  exists d : nat,
    selects (snd (retry_loop env span cfg fn remaining attempt resp lastErr w))
      = (selects w + d)%nat
    /\ rand_reads (snd (retry_loop env span cfg fn remaining attempt resp lastErr w))
      = (rand_reads w + d)%nat
    /\ attempt + Z.of_nat d <= Z.max attempt (MaxAttempts cfg - 1).
Proof.
  induction remaining as [|k IH]; intros attempt resp lastErr w.
  - exists 0%nat. cbn [retry_loop]. unfold retry_exhausted, bind, span_op.
    destruct lastErr; cbn; repeat split; lia.
  - remember (retry_loop env span cfg fn (S k) attempt resp lastErr w) as L eqn:HL.
    cbn [retry_loop] in HL. unfold bind at 1 in HL. cbn [span_op] in HL.
    unfold bind at 1 in HL.
    set (w0 := set_trace _ w) in HL.
    destruct (fn_quiet w0) as [Hs Hr].
    destruct (fn w0) as [out wf]. cbn [fst snd] in *. cbv zeta in HL.
    change (selects w0) with (selects w) in Hs.
    change (rand_reads w0) with (rand_reads w) in Hr.
    destruct (attempt_ok (fst out) (snd out)).
    { exists 0%nat. unfold bind, when, span_op, ret in HL.
      destruct (0 <? attempt); subst L; cbn; repeat split; lia. }
    unfold bind at 1 in HL.
    assert (Hrec : exists wr, selects wr = selects w /\ rand_reads wr = rand_reads w /\
              (match snd out with
               | Some e => span_op (AddEvent span "retry_due_to_error" [("error", AttrError e)])
               | None => match fst out with
                         | Some r => span_op (AddEvent span "retry_due_to_status"
                                        [("status_code", AttrInt (StatusCode r))])
                         | None => ret tt
                         end
               end) wf = (tt, wr)).
    { destruct (snd out) as [e|]; [|destruct (fst out) as [r|]];
        eexists; (split; [|split; [|reflexivity]]); cbn; assumption. }
    destruct Hrec as (wr & Hsr & Hrr & Hrec). rewrite Hrec in HL. clear Hrec.
    destruct (attempt <? MaxAttempts cfg - 1) eqn:Hlt.
    + apply Z.ltb_lt in Hlt.
      unfold bind at 1 in HL. cbn [rand_Float64] in HL.
      unfold bind at 1 in HL. cbn [span_op] in HL.
      unfold bind at 1 in HL. cbn [select_backoff] in HL.
      cbn [selects set_trace set_rand_reads] in HL.
      destruct (ctx_done_first env (selects wr)).
      * exists 1%nat. unfold bind, span_op, ret in HL. subst L. cbn. repeat split; lia.
      * match type of HL with context [retry_loop _ _ _ _ k ?a ?r ?e ?w2] =>
          destruct (IH a r e w2) as (d & Hds & Hdr & Hd) end.
        exists (S d). subst L. rewrite Hds, Hdr. cbn. repeat split; lia.
    + apply Z.ltb_ge in Hlt.
      destruct (IH (attempt + 1) (fst out) (snd out) wr) as (d & Hds & Hdr & Hd).
      exists d. subst L. rewrite Hds, Hdr. repeat split; lia.
Qed.

End Sleeps.

(** Property X9.  A run of [RetryableHTTPCall] backs off at most
    [MaxAttempts - 1] times (not at all when [MaxAttempts <= 1]): there is
    no sleep after the last attempt; and it draws exactly one random number
    for each backoff, provided the operation itself neither sleeps on the
    timer nor draws random numbers. *)
Theorem backoffs_fewer_than_attempts env span cfg fn w :
  quiet_operation fn ->
  let w' := snd (RetryableHTTPCall env span cfg fn w) in
  exists d : nat,
    selects w' = (selects w + d)%nat
    /\ rand_reads w' = (rand_reads w + d)%nat
    /\ Z.of_nat d <= Z.max 0 (MaxAttempts cfg - 1).
Proof.
  intros Hq. cbv zeta. unfold RetryableHTTPCall.
  destruct (retry_loop_sleeps env span cfg fn Hq (Z.to_nat (MaxAttempts cfg)) 0 None None w)
    as (d & Hs & Hr & Hd).
  exists d. repeat split; auto.
Qed.

Lemma backoffs_fewer_than_attempts_witness :
  exists d : nat,
    selects (snd (RetryableHTTPCall env_500 "callPayment" DefaultRetryConfig
                    (doPaymentRequest env_500 svc "callPayment" "order-0" order_m) NewWorld))
      = (0 + d)%nat
    /\ rand_reads (snd (RetryableHTTPCall env_500 "callPayment" DefaultRetryConfig
                    (doPaymentRequest env_500 svc "callPayment" "order-0" order_m) NewWorld))
      = (0 + d)%nat
    /\ Z.of_nat d <= Z.max 0 (3 - 1).
Proof.
  apply (backoffs_fewer_than_attempts env_500 "callPayment" DefaultRetryConfig
           (doPaymentRequest env_500 svc "callPayment" "order-0" order_m) NewWorld).
  intros w. split; reflexivity.
Defined.

Section RetryNil.
Context (env : Env) (span : string) (cfg : RetryConfig).
Context (fn : M (option Response * option error)).
Hypothesis fn_mono : forall w, (http_calls w <= http_calls (snd (fn w)))%nat.

(** A run of the loop that returns a nil error made no attempt at all, or its last attempt returned a nil error and nothing was called after it. *)
Lemma retry_loop_nil_inv remaining : forall attempt resp lastErr w r w',
  retry_loop env span cfg fn remaining attempt resp lastErr w = ((r, None), w') ->
  (remaining = 0%nat /\ lastErr = None /\ r = resp /\ http_calls w' = http_calls w)
  \/ exists w_last,
       fst (fn w_last) = (r, None)
       /\ (http_calls w <= http_calls w_last)%nat
       /\ http_calls w' = http_calls (snd (fn w_last)).
Proof.
  induction remaining as [|k IH]; intros attempt resp lastErr w r w'.
  - cbn [retry_loop]. unfold retry_exhausted, bind, span_op.
    destruct lastErr as [e0|]; cbn; [discriminate|].
    intros [= <- <-]. left. auto.
  - cbn [retry_loop]. unfold bind at 1. cbn [span_op]. unfold bind at 1.
    set (w0 := set_trace _ w).
    pose proof (fn_mono w0) as Hmono.
    destruct (fn w0) as [out wf] eqn:Hfn. cbn [fst snd] in *. cbv zeta.
    change (http_calls w0) with (http_calls w) in Hmono.
    assert (Hlast : snd out = None -> r = fst out -> http_calls w' = http_calls wf ->
              exists w_last, fst (fn w_last) = (r, None)
                /\ (http_calls w <= http_calls w_last)%nat
                /\ http_calls w' = http_calls (snd (fn w_last))).
    { intros Hn -> Hc. exists w0. rewrite Hfn. cbn [fst snd].
      split; [destruct out; cbn in *; congruence|]. split; [cbn; lia | exact Hc]. }
    destruct (attempt_ok (fst out) (snd out)) eqn:Hok.
    { intros Hrun. right. apply Hlast.
      - unfold attempt_ok in Hok. destruct (snd out); [discriminate | reflexivity].
      - unfold bind, when, span_op, ret in Hrun.
        destruct (0 <? attempt); injection Hrun as <- _; reflexivity.
      - unfold bind, when, span_op, ret in Hrun.
        destruct (0 <? attempt); injection Hrun as _ <-; reflexivity. }
    unfold bind at 1.
    assert (Hrec : exists wr, http_calls wr = http_calls wf /\
              (match snd out with
               | Some e => span_op (AddEvent span "retry_due_to_error" [("error", AttrError e)])
               | None => match fst out with
                         | Some r => span_op (AddEvent span "retry_due_to_status"
                                        [("status_code", AttrInt (StatusCode r))])
                         | None => ret tt
                         end
               end) wf = (tt, wr)).
    { destruct (snd out) as [e|]; [|destruct (fst out) as [r0|]];
        eexists; (split; [|reflexivity]); reflexivity. }
    destruct Hrec as (wr & Hcr & Hrec). rewrite Hrec. clear Hrec.
    assert (Hnext : forall w2, http_calls w2 = http_calls wf ->
              retry_loop env span cfg fn k (attempt + 1) (fst out) (snd out) w2
              = ((r, None), w') ->
              (S k = 0%nat /\ lastErr = None /\ r = resp /\ http_calls w' = http_calls w)
              \/ exists w_last, fst (fn w_last) = (r, None)
                   /\ (http_calls w <= http_calls w_last)%nat
                   /\ http_calls w' = http_calls (snd (fn w_last))).
    { intros w2 Hc2 Hrun. right.
      destruct (IH _ _ _ _ _ _ Hrun) as [(_ & Hn & -> & Hc) | (wl & Hl & Hle & Hc)].
      - apply Hlast; [exact Hn | reflexivity | congruence].
      - exists wl. split; [exact Hl|]. split; [lia | exact Hc]. }
    destruct (attempt <? MaxAttempts cfg - 1).
    + unfold bind at 1. cbn [rand_Float64]. unfold bind at 1. cbn [span_op].
      unfold bind at 1. cbn [select_backoff].
      match goal with |- context [ctx_done_first env ?i] => destruct (ctx_done_first env i) end.
      * unfold bind, span_op, ret. cbn. discriminate.
      * apply Hnext. cbn. exact Hcr.
    + apply Hnext. exact Hcr.
Qed.

End RetryNil.

(** ** doPaymentRequest *)

(** Property X8.  [doPaymentRequest] makes exactly one HTTP call when the
    request can be built and none otherwise (it then returns the error of
    [http.NewRequestWithContext] and changes nothing).  It returns a nil
    error exactly when the downstream answered with a status in
    [200, 300); it returns no response exactly when the transport failed,
    and with every answer, also a rejected one, it returns the response
    next to the error. *)
Theorem payment_request_error_iff_not_2xx env s span orderID req w :
  let out := fst (doPaymentRequest env s span orderID req w) in
  let w' := snd (doPaymentRequest env s span orderID req w) in
  if url_ok env (paymentURL s +:+ "/charge") then
    http_calls w' = S (http_calls w)
    /\ (snd out = None <->
        exists status body, downstream env (http_calls w) = DoResponse status body
                            /\ 200 <= status < 300)
    /\ (fst out = None <-> downstream env (http_calls w) = DoError)
    /\ (forall status body, downstream env (http_calls w) = DoResponse status body ->
          fst out = Some {| StatusCode := status |})
  else out = (None, Some ErrNewRequest) /\ w' = w.
Proof.
  cbv zeta. unfold doPaymentRequest.
  destruct (url_ok env (paymentURL s +:+ "/charge")); cbn [negb]; [|split; reflexivity].
  unfold bind, httpClient_Do.
  destruct (downstream env (http_calls w)) as [|status body] eqn:Hd.
  - cbn. repeat split; try discriminate; auto.
    intros (st & b & [=] & _).
  - destruct ((status <? 200) || (300 <=? status)) eqn:Hs.
    + apply orb_true_iff in Hs. rewrite Z.ltb_lt, Z.leb_le in Hs.
      cbn. repeat split; try discriminate; auto.
      * intros (st & b & [= <- <-] & Hr). lia.
      * intros st b [= <- <-]. reflexivity.
    + apply orb_false_iff in Hs. rewrite Z.ltb_ge, Z.leb_gt in Hs.
      cbn. repeat split; try discriminate; auto.
      * intros _. exists status, body. split; [reflexivity | lia].
      * intros st b [= <- <-]. reflexivity.
Qed.

Lemma doPaymentRequest_calls env s span orderID req w :
  (http_calls w <= http_calls (snd (doPaymentRequest env s span orderID req w)))%nat.
Proof.
  unfold doPaymentRequest.
  destruct (negb (url_ok env (paymentURL s +:+ "/charge"))); [cbn; lia|].
  unfold bind, httpClient_Do.
  destruct (downstream env (http_calls w)) as [|status body]; [cbn; lia|].
  destruct ((status <? 200) || (300 <=? status)); cbn; lia.
Qed.

Lemma doPaymentRequest_nil_inv env s span orderID req w r :
  fst (doPaymentRequest env s span orderID req w) = (r, None) ->
  exists status body,
    downstream env (http_calls w) = DoResponse status body
    /\ 200 <= status < 300
    /\ r = Some {| StatusCode := status |}
    /\ http_calls (snd (doPaymentRequest env s span orderID req w)) = S (http_calls w).
Proof.
  unfold doPaymentRequest.
  destruct (negb (url_ok env (paymentURL s +:+ "/charge"))); [cbn; discriminate|].
  unfold bind, httpClient_Do.
  destruct (downstream env (http_calls w)) as [|status body]; [cbn; discriminate|].
  destruct ((status <? 200) || (300 <=? status)) eqn:Hs; cbn; [discriminate|].
  intros [= <-]. exists status, body.
  apply orb_false_iff in Hs. rewrite Z.ltb_ge, Z.leb_gt in Hs.
  repeat split; lia.
Qed.

Lemma doPaymentRequest_leaf_error env s span orderID req w e :
  snd (fst (doPaymentRequest env s span orderID req w)) = Some e -> leaf_error e.
Proof.
  unfold doPaymentRequest.
  destruct (negb (url_ok env (paymentURL s +:+ "/charge"))).
  { cbn. intros [= <-]. constructor. }
  unfold bind, httpClient_Do.
  destruct (downstream env (http_calls w)) as [|status body].
  { cbn. intros [= <-]. constructor. }
  destruct ((status <? 200) || (300 <=? status)) eqn:Hs; cbn; [|discriminate].
  intros [= <-]. constructor.
  apply orb_true_iff in Hs. rewrite Z.ltb_lt, Z.leb_le in Hs. exact Hs.
Qed.

(** The errors of the retry executor around [doPaymentRequest]. *)
Lemma retry_loop_errors env span cfg s orderID req remaining :
  forall attempt resp lastErr w e,
    (forall e0, lastErr = Some e0 -> leaf_error e0) ->
    snd (fst (retry_loop env span cfg (doPaymentRequest env s span orderID req)
                remaining attempt resp lastErr w)) = Some e ->
    retry_error cfg e.
Proof.
  induction remaining as [|k IH]; intros attempt resp lastErr w e Hinv.
  - cbn [retry_loop]. unfold retry_exhausted, bind, span_op.
    destruct lastErr as [e0|]; cbn; [|discriminate].
    intros [= <-]. constructor. apply Hinv. reflexivity.
  - cbn [retry_loop]. unfold bind at 1. cbn [span_op]. unfold bind at 1.
    set (w0 := set_trace _ w).
    pose proof (doPaymentRequest_leaf_error env s span orderID req w0) as Hleaf.
    destruct (doPaymentRequest env s span orderID req w0) as [out wf].
    cbn [fst snd] in *. cbv zeta.
    destruct (attempt_ok (fst out) (snd out)).
    { unfold bind, when, span_op, ret. destruct (0 <? attempt); cbn; discriminate. }
    unfold bind at 1.
    match goal with |- context [(match snd out with Some _ => _ | None => _ end) wf] =>
      destruct ((match snd out with
                 | Some e => span_op (AddEvent span "retry_due_to_error" [("error", AttrError e)])
                 | None => match fst out with
                           | Some r => span_op (AddEvent span "retry_due_to_status"
                                          [("status_code", AttrInt (StatusCode r))])
                           | None => ret tt
                           end
                 end) wf) as [[] wr] end.
    destruct (attempt <? MaxAttempts cfg - 1).
    + unfold bind at 1. cbn [rand_Float64]. unfold bind at 1. cbn [span_op].
      unfold bind at 1. cbn [select_backoff].
      match goal with |- context [ctx_done_first env ?i] => destruct (ctx_done_first env i) end.
      * unfold bind, span_op, ret. cbn. intros [= <-]. constructor.
      * apply IH. exact Hleaf.
    + apply IH. exact Hleaf.
Qed.

Lemma retry_error_not_open cfg e : retry_error cfg e -> errors_Is e ErrOpenState = false.
Proof. intros [|cause Hleaf]; [reflexivity|]. destruct Hleaf; reflexivity. Qed.

(** ** Components of the world that the stack leaves alone *)

Lemma keeps_ret {X A} (proj : World -> X) (a : A) : keeps proj (ret a).
Proof. intros w. reflexivity. Qed.

Lemma keeps_bind {X A B} (proj : World -> X) (c : M A) (k : A -> M B) :
  keeps proj c -> (forall a, keeps proj (k a)) -> keeps proj (bind c k).
Proof.
  intros Hc Hk w. unfold bind. specialize (Hc w). destruct (c w) as [a w1].
  cbn in Hc. rewrite <- Hc. apply Hk.
Qed.

Ltac keeps_steps :=
  repeat first
    [ assumption
    | apply keeps_ret
    | solve [unfold keeps, span_op, time_Now, uuid_New, rand_Float64, httpClient_Do,
               select_backoff, get_breaker, put_breaker, sem_Release, Get, Set_;
             intros; reflexivity]
    | apply keeps_bind; [| intros ?]
    | match goal with
      | |- keeps _ (match ?x with _ => _ end) => destruct x
      | |- keeps _ (when ?b _) => destruct b; cbn [when]
      end ].

Lemma keeps_permits_doPaymentRequest env s span orderID req :
  keeps permits (doPaymentRequest env s span orderID req).
Proof. unfold doPaymentRequest. keeps_steps. Qed.

Lemma keeps_retry_loop {X} (proj : World -> X) env span cfg fn remaining :
  keeps proj fn ->
  (forall op, keeps proj (span_op op)) ->
  keeps proj (rand_Float64 env) ->
  (forall d, keeps proj (select_backoff env d)) ->
  forall attempt resp lastErr,
    keeps proj (retry_loop env span cfg fn remaining attempt resp lastErr).
Proof.
  intros Hfn Hop Hr Hs. induction remaining as [|k IH]; intros attempt resp lastErr.
  - cbn [retry_loop]. unfold retry_exhausted.
    repeat first [apply keeps_ret | apply Hop | apply keeps_bind; [|intros ?]
                 | match goal with |- keeps _ (match ?x with _ => _ end) => destruct x end].
  - cbn [retry_loop]. cbv zeta.
    repeat first [apply keeps_ret | apply Hop | apply Hr | apply Hs | apply Hfn | apply IH
                 | apply keeps_bind; [|intros ?]
                 | match goal with
                   | |- keeps _ (match ?x with _ => _ end) => destruct x
                   | |- keeps _ (when ?b _) => destruct b; cbn [when]
                   end].
Qed.

Lemma keeps_permits_CircuitBreaker_Execute env c span fn :
  keeps permits fn -> keeps permits (CircuitBreaker_Execute env c span fn).
Proof.
  intros Hfn. unfold CircuitBreaker_Execute, gobreaker_State, gobreaker_Execute.
  keeps_steps.
Qed.

(** Whatever [fn] returns, the deferred [Release] gives the permit back. *)
Lemma Bulkhead_Execute_balanced env b span fn :
  keeps permits fn -> keeps permits (Bulkhead_Execute env b span fn).
Proof.
  intros Hfn w. unfold Bulkhead_Execute, bind, sem_Acquire.
  destruct (acquire_cancelled env (acquires w)); [reflexivity|].
  cbn [span_op].
  match goal with |- context [fn ?w1] =>
    specialize (Hfn w1); destruct (fn w1) as [r w2] end.
  cbn in *. lia.
Qed.

Lemma keeps_permits_callPaymentService env s orderID req :
  keeps permits (callPaymentService env s orderID req).
Proof.
  unfold callPaymentService. cbv zeta.
  apply keeps_bind; [keeps_steps | intros _].
  apply keeps_bind; [keeps_steps | intros _].
  apply keeps_bind; [| intros ?; keeps_steps].
  apply Bulkhead_Execute_balanced, keeps_permits_CircuitBreaker_Execute.
  apply keeps_bind; [| intros ?; apply keeps_ret].
  apply keeps_retry_loop; try (intros; keeps_steps).
  apply keeps_permits_doPaymentRequest.
Qed.

(** Property X6.  Every run of [CreateOrder] leaves the number of bulkhead
    permits handed out as it found it: cache hit, rejection by the bulkhead
    or the breaker, cancelled or exhausted retries and success alike, the
    permit acquired in [Bulkhead.Execute] is released before the call
    returns. *)
Theorem create_order_returns_its_permit env s req key w :
  permits (snd (CreateOrder env s req key w)) = permits w.
Proof.
  revert w. change (keeps permits (CreateOrder env s req key)).
  pose proof (keeps_permits_callPaymentService env s) as Hpay.
  unfold CreateOrder, CreateOrder_with, processOrder, processOrder_with, persistOrder. cbv zeta.
  repeat first
    [ apply Hpay
    | apply keeps_ret
    | solve [unfold keeps, span_op, time_Now, uuid_New, Get, Set_; intros; reflexivity]
    | apply keeps_bind; [| intros ?]
    | match goal with
      | |- keeps _ (match ?x with _ => _ end) => destruct x
      | |- keeps _ (if ?b then _ else _) => destruct b
      end ].
Qed.

(** ** The orchestrator on a cache miss *)

(** A run of [CreateOrder] that finds no cached response: the payment call is entered with the stack as it was, and its result decides the rest. *)
Lemma CreateOrder_miss env s req key w :
  key = ""%string \/ entries w !! key = None ->
  exists w0, stack_view w0 = stack_view w /\
    forall err w1,
      callPaymentService env s (fresh_uuid env (uuid_reads w)) req w0 = (err, w1) ->
      exists r w', CreateOrder env s req key w = (r, w')
        /\ http_calls w' = http_calls w1
        /\ match err with
           | Some e => r = Fail (Errorf "payment failed" e)
           | None =>
               r = Ok {| resp_OrderID := fresh_uuid env (uuid_reads w);
                         resp_Status := "completed";
                         resp_CreatedAt := Format_RFC3339 (clock env (now_reads w1)) |}
           end.
Proof.
  intros Hmiss.
  remember (CreateOrder env s req key w) as L eqn:HL.
  unfold CreateOrder, CreateOrder_with in HL. cbv zeta in HL. unfold bind at 1 in HL. cbn [span_op] in HL.
  unfold bind at 1 in HL.
  assert (Hcached : exists wg, stack_view wg = stack_view w /\ uuid_reads wg = uuid_reads w /\
     (if negb (String.eqb key "")
      then bind (span_op (SetAttributes "createOrder" "idempotency.key" (AttrString key)))
                (fun _ => Get key)
      else ret None)
       (set_trace (cons (SpanStart "createOrder"
                    [("merchant.id", AttrString (MerchantID req));
                     ("order.amount", AttrFloat (Amount req));
                     ("order.currency", AttrString (Currency req))])) w) = (None, wg)).
  { destruct (String.eqb_spec key "") as [->|Hne]; cbn [negb].
    - eexists. split; [|split; [|reflexivity]]; reflexivity.
    - destruct Hmiss as [?|Hnone]; [contradiction|].
      unfold bind, span_op, Get. cbn. rewrite Hnone.
      eexists. split; [|split; [|reflexivity]]; reflexivity. }
  destruct Hcached as (wg & Hview & Hu & Hcached). rewrite Hcached in HL. clear Hcached.
  unfold bind at 1 in HL. unfold processOrder, processOrder_with in HL.
  unfold bind at 1 in HL. cbn [uuid_New] in HL.
  unfold bind at 1 in HL. cbn [span_op] in HL.
  unfold bind at 1 in HL. rewrite Hu in HL.
  match type of HL with context [callPaymentService _ _ _ _ ?w0] => exists w0 end.
  split. { rewrite <- Hview. reflexivity. }
  intros err w1 Hpay. rewrite Hpay in HL.
  destruct err as [e|].
  { unfold bind, span_op, ret in HL. cbn in HL. rewrite HL.
    eexists. eexists. split; [reflexivity|]. cbn. auto. }
  unfold bind at 1 in HL. unfold persistOrder in HL.
  unfold bind at 1 2 3 in HL. cbn [span_op ret] in HL.
  unfold bind at 1 in HL. cbn [time_Now] in HL.
  destruct (negb (String.eqb key "")).
  - unfold bind, span_op, ret, time_Now, Set_ in HL. cbn in HL. rewrite HL.
    eexists. eexists. split; [reflexivity|]. cbn. auto.
  - unfold bind, span_op, ret in HL. cbn in HL. rewrite HL.
    eexists. eexists. split; [reflexivity|]. cbn. auto.
Qed.

Lemma CreateOrder_payment_ok env s req key w :
  key = ""%string \/ entries w !! key = None ->
  exists w0, stack_view w0 = stack_view w /\
    forall w1, callPaymentService env s (fresh_uuid env (uuid_reads w)) req w0 = (None, w1) ->
      exists resp w', CreateOrder env s req key w = (Ok resp, w')
        /\ resp_OrderID resp = fresh_uuid env (uuid_reads w)
        /\ resp_Status resp = "completed"%string
        /\ resp_CreatedAt resp = Format_RFC3339 (clock env (now_reads w1))
        /\ http_calls w' = http_calls w1.
Proof.
  intros Hmiss.
  destruct (CreateOrder_miss env s req key w Hmiss) as (w0 & Hview & Hrun).
  exists w0. split; [exact Hview|].
  intros w1 Hpay. destruct (Hrun _ _ Hpay) as (r & w' & HCO & Hc & ->).
  eexists. exists w'. split; [exact HCO|]. cbn. auto.
Qed.

(** Property X1.  Transient failures are absorbed.  On a cache miss, with
    the bulkhead and the breaker letting the call pass: when the first [k]
    answers of the downstream are failures (transport error or a status
    outside 2xx), [k] is below [MaxAttempts], answer [k] is a 2xx and no
    backoff is cut short by the deadline, [CreateOrder] succeeds with the
    freshly drawn order id and status "completed", has made exactly
    [k + 1] payment calls, and has stored the order under a non-empty
    key. *)
Theorem order_recovers_from_transient_failures env s req key w k :
  let_through env s w ->
  url_ok env (paymentURL s +:+ "/charge") = true ->
  key = ""%string \/ entries w !! key = None ->
  Z.of_nat k < MaxAttempts (retryConfig s) ->
  (forall i, (i < k)%nat ->
     match downstream env (http_calls w + i) with
     | DoError => True
     | DoResponse status _ => status < 200 \/ 300 <= status
     end) ->
  (exists status body, downstream env (http_calls w + k) = DoResponse status body
                       /\ 200 <= status < 300) ->
  (forall i, (selects w <= i < selects w + k)%nat -> ctx_done_first env i = false) ->
  exists resp w',
    CreateOrder env s req key w = (Ok resp, w')
    /\ resp_OrderID resp = fresh_uuid env (uuid_reads w)
    /\ resp_Status resp = "completed"%string
    /\ http_calls w' = (http_calls w + S k)%nat
    /\ (key <> ""%string ->
        exists c, entries w' !! key = Some c /\ OrderID c = resp_OrderID resp
                  /\ Status c = "completed"%string).
Proof.
  intros Hadm Hurl Hmiss Hk Hbad (status & body & Hgood & Hst) Hnc.
  destruct (CreateOrder_payment_ok env s req key w Hmiss) as (w0 & Hview & Hok).
  injection Hview as Hb Ha Hn Hc0 Hs0.
  set (oid := fresh_uuid env (uuid_reads w)) in *.
  destruct (callPaymentService_let_through env s oid req w0) as (wr & Hcr & Hsr & Hrun).
  { unfold let_through in *. rewrite Hb, Ha, Hn. exact Hadm. }
  set (fn := doPaymentRequest env s "callPayment" oid req) in *.
  destruct (retry_loop_recovers env "callPayment" (retryConfig s) fn
              (doPaymentRequest_http_operation _ _ _ _ _ Hurl) k
              (Z.to_nat (MaxAttempts (retryConfig s))) 0 None None wr)
    as (wo & w1 & Hloop & Hco & Hc1).
  - intros w' Hw'. unfold fn. rewrite (doPaymentRequest_outcome _ _ _ _ _ _ Hurl).
    specialize (Hbad (http_calls w' - http_calls w)%nat).
    replace (http_calls w + (http_calls w' - http_calls w))%nat with (http_calls w') in Hbad by lia.
    assert (Hlt : (http_calls w' - http_calls w < k)%nat) by lia.
    destruct (downstream env (http_calls w')) as [|st b]; [reflexivity|].
    replace ((st <? 200) || (300 <=? st)) with true
      by (symmetry; apply orb_true_iff; rewrite Z.ltb_lt, Z.leb_le; apply Hbad; exact Hlt).
    reflexivity.
  - intros w' Hw'. unfold fn. rewrite (doPaymentRequest_outcome _ _ _ _ _ _ Hurl).
    replace (http_calls w') with (http_calls w + k)%nat by lia. rewrite Hgood.
    replace ((status <? 200) || (300 <=? status)) with false
      by (symmetry; apply orb_false_iff; rewrite Z.ltb_ge, Z.leb_gt; lia).
    cbn. replace (status <? 500) with true by (symmetry; apply Z.ltb_lt; lia).
    replace (status =? 429) with false by (symmetry; apply Z.eqb_neq; lia). reflexivity.
  - lia.
  - intros i Hi. apply Hnc. lia.
  - destruct (Hrun _ _ Hloop) as (r & w2 & Hcall & Hc2 & Hnone & _).
    rewrite (Hnone eq_refl) in Hcall.
    destruct (Hok _ Hcall) as (resp & w' & HCO & Hid & Hstat & _ & Hc').
    exists resp, w'. split; [exact HCO|]. split; [exact Hid|]. split; [exact Hstat|].
    split; [lia|].
    intros Hne.
    pose proof (CreateOrder_effect _ _ _ _ _ _ _ HCO)
      as [(c & _ & Hk' & _) | [(-> & _) | (_ & _ & wg & _ & _ & _ & _ & Heff)]].
    + destruct Hmiss; congruence.
    + congruence.
    + apply String.eqb_neq in Hne. rewrite Hne in Heff. destruct Heff as (t & -> & _).
      eexists. rewrite lookup_insert_eq. split; [reflexivity|]. cbn. auto.
Qed.

Lemma order_recovers_from_transient_failures_witness :
  exists resp w',
    CreateOrder env_500_then_200 svc order_m "k-1" NewWorld = (Ok resp, w')
    /\ resp_OrderID resp = "order-0"%string
    /\ resp_Status resp = "completed"%string
    /\ http_calls w' = 2%nat
    /\ ("k-1"%string <> ""%string ->
        exists c, entries w' !! "k-1" = Some c /\ OrderID c = resp_OrderID resp
                  /\ Status c = "completed"%string).
Proof.
  apply (order_recovers_from_transient_failures env_500_then_200 svc order_m "k-1" NewWorld 1).
  - split; [reflexivity | exists false; reflexivity].
  - reflexivity.
  - right. reflexivity.
  - vm_compute. reflexivity.
  - intros i Hi. assert (i = 0%nat) as -> by lia. cbn. lia.
  - exists 200, ""%string. split; [reflexivity | lia].
  - intros i _. reflexivity.
Defined.

Lemma on_entry_rejects_open st now b e b' :
  on_entry st now b = (Rejected e, b') -> e = ErrOpenState.
Proof.
  unfold on_entry. destruct (state b).
  - discriminate.
  - destruct (half_open_inflight b =? MaxRequests st); [|discriminate]. congruence.
  - destruct (now - opened_at b <? Timeout st); [|discriminate]. congruence.
Qed.

Lemma callPaymentService_errors env s orderID req w e w' :
  callPaymentService env s orderID req w = (Some e, w') ->
  payment_error (retryConfig s) e.
Proof.
  unfold callPaymentService. cbv zeta.
  unfold bind at 1. cbn [span_op]. unfold bind at 1. cbn [span_op]. unfold bind at 1.
  unfold Bulkhead_Execute. unfold bind at 1. unfold sem_Acquire. cbn [acquires set_trace].
  destruct (acquire_cancelled env (acquires w)).
  { unfold bind, span_op, ret. cbn. intros [= <- _]. apply bulkhead_rejected. }
  unfold bind at 1. cbn [span_op]. unfold bind at 1.
  unfold CircuitBreaker_Execute. unfold bind at 1.
  unfold gobreaker_State, get_breaker. unfold bind at 1. cbn [ret].
  unfold bind at 1. cbn [span_op]. unfold bind at 1. unfold gobreaker_Execute.
  unfold bind at 1. cbn [time_Now]. unfold bind at 1. cbn [get_breaker].
  destruct (on_entry _ _ _) as [[e0|slot] b'] eqn:Hon.
  { apply on_entry_rejects_open in Hon. subst e0.
    unfold bind, span_op, ret, sem_Release. cbn. intros [= <- _]. apply breaker_open. }
  unfold bind at 1. cbn [put_breaker]. unfold bind at 1. unfold bind at 1.
  match goal with |- context [RetryableHTTPCall env ?sp ?cfg ?fn ?w0] =>
    pose proof (retry_loop_errors env sp cfg s orderID req (Z.to_nat (MaxAttempts cfg))
                  0 None None w0) as Herr;
    change (retry_loop env sp cfg fn (Z.to_nat (MaxAttempts cfg)) 0 None None w0)
      with (RetryableHTTPCall env sp cfg fn w0) in Herr;
    destruct (RetryableHTTPCall env sp cfg fn w0) as [out w1] end.
  cbn [fst snd ret] in *.
  unfold bind at 1. cbn [time_Now]. unfold bind at 1. cbn [get_breaker].
  unfold bind at 1. cbn [put_breaker ret].
  destruct (snd out) as [e1|].
  - specialize (Herr e1 ltac:(discriminate) eq_refl).
    rewrite (retry_error_not_open _ _ Herr).
    unfold bind, span_op, ret, sem_Release. cbn. intros [= <- _]. apply retry_failed. exact Herr.
  - unfold bind, span_op, ret, sem_Release. cbn. discriminate.
Qed.

Lemma processOrder_Fail_inv env s span req key w e w' :
  processOrder env s span req key w = (Fail e, w') ->
  exists orderID w1 w2 e',
    callPaymentService env s orderID req w1 = (Some e', w2)
    /\ e = Errorf "payment failed" e'.
Proof.
  unfold processOrder, processOrder_with. unfold bind at 1. cbn [uuid_New].
  unfold bind at 1. cbn [span_op]. unfold bind at 1.
  match goal with |- context [callPaymentService env s ?o req ?w1] =>
    destruct (callPaymentService env s o req w1) as [err w2] eqn:Hpay end.
  destruct err as [err|].
  - unfold bind, span_op, ret. intros [= <- _].
    do 4 eexists. split; [exact Hpay | reflexivity].
  - unfold persistOrder, bind, span_op, ret, time_Now.
    destruct (negb (String.eqb key "")); cbn; discriminate.
Qed.

Lemma CreateOrder_Fail_inv env s req key w e w' :
  CreateOrder env s req key w = (Fail e, w') ->
  exists orderID w1 w2 e',
    callPaymentService env s orderID req w1 = (Some e', w2)
    /\ e = Errorf "payment failed" e'.
Proof.
  unfold CreateOrder, CreateOrder_with. cbv zeta. unfold bind at 1. cbn [span_op].
  unfold bind at 1.
  match goal with |- context [(if negb (String.eqb key "") then ?a else ?b) ?w0] =>
    destruct ((if negb (String.eqb key "") then a else b) w0) as [cached wg] end.
  destruct cached as [c|].
  { unfold bind, span_op, ret. discriminate. }
  unfold bind.
  destruct (processOrder_with _ _ _ _ _ _ _) as [r0 w0] eqn:E.
  cbn. intros [= -> _]. eapply processOrder_Fail_inv. exact E.
Qed.

(** Property X4.  Every error of [CreateOrder] is "payment failed" wrapping
    one of: "bulkhead limit reached" around the context error; "circuit
    breaker open" around the open-state error of the breaker; the
    too-many-requests error of the breaker as it is; "retry cancelled"
    around the context error; or "retry exhausted after N attempts" (N the
    configured [MaxAttempts]) around the error of the last attempt, which is
    the error of building the request, "payment request failed" around the
    transport error, or the status error of an answer outside 2xx.  The
    error "failed to persist order" never occurs. *)
Theorem create_order_error_kinds env s req key w e w' :
  CreateOrder env s req key w = (Fail e, w') ->
  exists e', e = Errorf "payment failed" e' /\ payment_error (retryConfig s) e'.
Proof.
  intros H. apply CreateOrder_Fail_inv in H.
  destruct H as (oid & w1 & w2 & e' & Hpay & ->).
  exists e'. split; [reflexivity|]. eapply callPaymentService_errors. exact Hpay.
Qed.

Lemma create_order_error_kinds_witness :
  exists e',
    Errorf "payment failed" (Errorf "retry cancelled" ErrContext) = Errorf "payment failed" e'
    /\ payment_error (retryConfig svc) e'.
Proof.
  apply (create_order_error_kinds env_500_deadline svc order_m "" NewWorld _
           (snd (CreateOrder env_500_deadline svc order_m "" NewWorld))).
  vm_compute. reflexivity.
Defined.

(** Property X3.  A retry policy with [MaxAttempts <= 0] makes the loop of
    [RetryableHTTPCall] run not at all, and what follows the loop returns
    a nil response and a nil error: on a cache miss that the bulkhead and
    the breaker let pass, [CreateOrder] reports the order as "completed"
    without a single call to the payment service. *)
Theorem order_completes_without_payment_when_no_attempts env s req key w :
  MaxAttempts (retryConfig s) <= 0 ->
  let_through env s w ->
  key = ""%string \/ entries w !! key = None ->
  exists resp w',
    CreateOrder env s req key w = (Ok resp, w')
    /\ resp_Status resp = "completed"%string
    /\ http_calls w' = http_calls w.
Proof.
  intros Hmax Hadm Hmiss.
  destruct (CreateOrder_payment_ok env s req key w Hmiss) as (w0 & Hview & Hok).
  injection Hview as Hb Ha Hn Hc0 Hs0.
  destruct (callPaymentService_let_through env s (fresh_uuid env (uuid_reads w)) req w0)
    as (wr & Hcr & _ & Hrun).
  { unfold let_through in *. rewrite Hb, Ha, Hn. exact Hadm. }
  edestruct Hrun as (r & w2 & Hcall & Hc2 & Hnone & _).
  { unfold RetryableHTTPCall. replace (Z.to_nat (MaxAttempts (retryConfig s))) with 0%nat by lia.
    reflexivity. }
  rewrite (Hnone eq_refl) in Hcall.
  destruct (Hok _ Hcall) as (resp & w' & HCO & _ & Hstat & _ & Hc').
  exists resp, w'. split; [exact HCO|]. split; [exact Hstat|].
  cbn in Hc2. lia.
Qed.

Lemma order_completes_without_payment_when_no_attempts_witness :
  exists resp w',
    CreateOrder env_500 svc_no_attempts order_m "" NewWorld = (Ok resp, w')
    /\ resp_Status resp = "completed"%string
    /\ http_calls w' = http_calls NewWorld.
Proof.
  apply (order_completes_without_payment_when_no_attempts env_500 svc_no_attempts order_m "" NewWorld).
  - vm_compute. discriminate.
  - split; [reflexivity | exists false; reflexivity].
  - left. reflexivity.
Defined.

(** Property X5.  When the context is done before the bulkhead hands out a
    permit, [CreateOrder] (on a cache miss) fails with "payment failed"
    around "bulkhead limit reached" around the context error; the breaker
    is neither consulted nor charged with a failure (its state and counts
    are unchanged and the clock is not read), no payment call is made, no
    permit is held, and the store is unchanged. *)
Theorem bulkhead_rejection_spares_breaker env s req key w :
  acquire_cancelled env (acquires w) = true ->
  key = ""%string \/ entries w !! key = None ->
  let out := CreateOrder env s req key w in
  fst out = Fail (Errorf "payment failed" (Errorf "bulkhead limit reached" ErrContext))
  /\ breaker (snd out) = breaker w
  /\ now_reads (snd out) = now_reads w
  /\ http_calls (snd out) = http_calls w
  /\ permits (snd out) = permits w
  /\ entries (snd out) = entries w.
Proof.
  intros Hc Hmiss. cbv zeta.
  assert (Hpay : forall orderID w0, acquires w0 = acquires w ->
            callPaymentService env s orderID req w0
            = (Some (Errorf "bulkhead limit reached" ErrContext),
               set_trace (cons (SpanEnd "callPayment"))
                 (set_trace (cons (SetStatusErr "callPayment"
                                     (Errorf "bulkhead limit reached" ErrContext)))
                    (bulkhead_rejected_world "callPayment"
                       (set_trace (cons (SetAttributes "callPayment" "timeout_ms" (AttrInt 500)))
                          (set_trace (cons (SpanStart "callPayment" [])) w0)))))).
  { intros orderID w0 Hacq. unfold callPaymentService. cbv zeta.
    unfold bind at 1. cbn [span_op]. unfold bind at 1. cbn [span_op]. unfold bind at 1.
    unfold Bulkhead_Execute. unfold bind at 1. unfold sem_Acquire.
    cbn [acquires set_trace]. rewrite Hacq, Hc. reflexivity. }
  assert (H : exists w', CreateOrder env s req key w
                = (Fail (Errorf "payment failed" (Errorf "bulkhead limit reached" ErrContext)), w')
              /\ breaker w' = breaker w /\ now_reads w' = now_reads w
              /\ http_calls w' = http_calls w /\ permits w' = permits w
              /\ entries w' = entries w).
  { unfold CreateOrder, CreateOrder_with. cbv zeta. unfold bind at 1. cbn [span_op]. unfold bind at 1.
    destruct (String.eqb_spec key "") as [->|Hne]; cbn [negb].
    - cbn [ret]. unfold bind at 1. unfold processOrder, processOrder_with.
      unfold bind at 1. cbn [uuid_New]. unfold bind at 1. cbn [span_op]. unfold bind at 1.
      rewrite Hpay by reflexivity. unfold bind, span_op, ret.
      eexists. split; [reflexivity|]. cbn. repeat split.
    - destruct Hmiss as [?|Hnone]; [contradiction|].
      unfold bind at 1. cbn [span_op Get]. cbn [entries set_trace set_store_log].
      rewrite Hnone. unfold bind at 1. unfold processOrder, processOrder_with.
      unfold bind at 1. cbn [uuid_New]. unfold bind at 1. cbn [span_op]. unfold bind at 1.
      rewrite Hpay by reflexivity. unfold bind, span_op, ret.
      eexists. split; [reflexivity|]. cbn. repeat split. }
  destruct H as (w' & -> & H). split; [reflexivity | exact H].
Qed.

Lemma bulkhead_rejection_spares_breaker_witness :
  let out := CreateOrder env_busy svc order_m "k-1" NewWorld in
  fst out = Fail (Errorf "payment failed" (Errorf "bulkhead limit reached" ErrContext))
  /\ breaker (snd out) = breaker NewWorld
  /\ now_reads (snd out) = now_reads NewWorld
  /\ http_calls (snd out) = http_calls NewWorld
  /\ permits (snd out) = permits NewWorld
  /\ entries (snd out) = entries NewWorld.
Proof.
  apply (bulkhead_rejection_spares_breaker env_busy svc order_m "k-1" NewWorld).
  - reflexivity.
  - right. reflexivity.
Defined.

Lemma CreateOrder_sections env s req key w :
  CreateOrder env s req key w
  = CreateOrder_rest env s req key (fst (CreateOrder_lookup req key w)) (snd (CreateOrder_lookup req key w)).
Proof.
  unfold CreateOrder, CreateOrder_with, CreateOrder_rest, CreateOrder_lookup. cbv zeta.
  unfold bind at 1. cbn [span_op]. unfold bind at 1.
  unfold bind at 3. cbn [span_op].
  match goal with |- context [if ?b then _ else _] => destruct b end.
  - unfold bind at 1. cbn [span_op Get]. unfold bind at 3. cbn [span_op Get].
    cbn [fst snd]. reflexivity.
  - cbn [ret fst snd]. reflexivity.
Qed.

Lemma CreateOrder_lookup_spec req key w :
  entries (snd (CreateOrder_lookup req key w)) = entries w
  /\ fst (CreateOrder_lookup req key w) = (if String.eqb key "" then None else entries w !! key).
Proof.
  unfold CreateOrder_lookup. cbv zeta. unfold bind at 1. cbn [span_op].
  destruct (String.eqb key ""); cbn [negb].
  - split; reflexivity.
  - unfold bind, span_op, Get. cbn. split; reflexivity.
Qed.

Lemma CreateOrder_rest_miss env s req key w :
  CreateOrder_rest env s req key None w
  = (fst (processOrder env s "createOrder" req key w),
     set_trace (cons (SpanEnd "createOrder"))
       (snd (processOrder env s "createOrder" req key w))).
Proof.
  unfold CreateOrder_rest. cbv zeta. unfold bind, span_op, ret.
  destruct (processOrder env s "createOrder" req key w). reflexivity.
Qed.

(** Property X7.  [CreateOrder] takes the lock of the store twice, for the
    lookup (line 75) and for the write (line 110), and other requests may
    run in between ([other]).  The lookup changes nothing.  The rest
    changes nothing under another key and removes no key; it changes
    nothing at all after a hit, with an empty key or when it fails; after a
    miss under a non-empty key it ends, on success, with the returned order
    written under the key over whatever the store then holds there: an
    entry that another request stored since the lookup is overwritten. *)
Theorem create_order_touches_only_its_key env s req key (other : World -> World) w :
  let cached := fst (CreateOrder_lookup req key w) in
  let w1 := snd (CreateOrder_lookup req key w) in
  let w2 := other w1 in
  let out := CreateOrder_rest env s req key cached w2 in
  CreateOrder env s req key w = CreateOrder_rest env s req key cached w1
  /\ entries w1 = entries w
  /\ cached = (if String.eqb key "" then None else entries w !! key)
  /\ (forall k, k <> key -> entries (snd out) !! k = entries w2 !! k)
  /\ (forall k, is_Some (entries w2 !! k) -> is_Some (entries (snd out) !! k))
  /\ match cached, fst out with
     | None, Ok resp =>
         if String.eqb key "" then entries (snd out) = entries w2
         else exists t,
           entries (snd out) = <[key := {| OrderID := resp_OrderID resp;
                                           Status := resp_Status resp;
                                           CreatedAt := t |}]> (entries w2)
     | _, _ => entries (snd out) = entries w2
     end.
Proof.
  cbv zeta.
  destruct (CreateOrder_lookup_spec req key w) as [He1 Hc].
  split; [apply CreateOrder_sections|]. split; [exact He1|]. split; [exact Hc|].
  set (cached := fst (CreateOrder_lookup req key w)).
  set (w2 := other (snd (CreateOrder_lookup req key w))).
  assert (H : match cached, fst (CreateOrder_rest env s req key cached w2) with
              | None, Ok resp =>
                  if String.eqb key ""
                  then entries (snd (CreateOrder_rest env s req key cached w2)) = entries w2
                  else exists t,
                    entries (snd (CreateOrder_rest env s req key cached w2))
                    = <[key := {| OrderID := resp_OrderID resp;
                                  Status := resp_Status resp;
                                  CreatedAt := t |}]> (entries w2)
              | _, _ => entries (snd (CreateOrder_rest env s req key cached w2)) = entries w2
              end).
  { destruct cached as [c|].
    - unfold CreateOrder_rest, bind, span_op, ret. cbn. reflexivity.
    - rewrite CreateOrder_rest_miss.
      destruct (processOrder env s "createOrder" req key w2) as [r w3] eqn:E.
      apply processOrder_effect in E. destruct E as [_ E].
      cbn [fst snd entries set_trace].
      destruct r as [resp|e].
      + destruct (String.eqb key ""); [apply E|].
        destruct E as (t & E & _). exists t. exact E.
      + apply E. }
  split; [|split; [|exact H]].
  - intros k Hk. destruct cached as [c|]; [rewrite H; reflexivity|].
    destruct (fst (CreateOrder_rest env s req key None w2)) as [resp|e]; [|rewrite H; reflexivity].
    destruct (String.eqb key ""); [rewrite H; reflexivity|].
    destruct H as (t & ->). apply lookup_insert_ne. congruence.
  - intros k Hk. destruct cached as [c|]; [rewrite H; exact Hk|].
    destruct (fst (CreateOrder_rest env s req key None w2)) as [resp|e]; [|rewrite H; exact Hk].
    destruct (String.eqb key ""); [rewrite H; exact Hk|].
    destruct H as (t & ->).
    destruct (decide (k = key)) as [->|Hne].
    + rewrite lookup_insert_eq. eauto.
    + rewrite lookup_insert_ne by congruence. exact Hk.
Qed.

Lemma create_order_touches_only_its_key_witness :
  let w1 := snd (CreateOrder_lookup order_m "k-1" NewWorld) in
  let w2 := second_between env_200 svc order_m "k-1" w1 in
  let out := CreateOrder_rest env_200 svc order_m "k-1" None w2 in
  fst (CreateOrder_lookup order_m "k-1" NewWorld) = None
  /\ entries w2 !! "k-1"%string
     = Some {| OrderID := "order-0"; Status := "completed"; CreatedAt := 0 |}
  /\ entries (snd out) !! "k-1"%string
     = Some {| OrderID := "order-1"; Status := "completed"; CreatedAt := 0 |}
  /\ forall k, k <> "k-1"%string -> entries (snd out) !! k = entries w2 !! k.
Proof.
  cbv zeta.
  destruct (create_order_touches_only_its_key env_200 svc order_m "k-1"
              (second_between env_200 svc order_m "k-1") NewWorld)
    as (_ & _ & _ & Hother & _ & _).
  split; [reflexivity|]. split; [vm_compute; reflexivity|].
  split; [vm_compute; reflexivity|]. exact Hother.
Defined.

Lemma callPaymentService_nil_inv env s orderID req w w' :
  callPaymentService env s orderID req w = (None, w') ->
  exists w0 out w1,
    RetryableHTTPCall env "callPayment" (retryConfig s)
      (doPaymentRequest env s "callPayment" orderID req) w0 = (out, w1)
    /\ snd out = None
    /\ http_calls w0 = http_calls w
    /\ http_calls w' = http_calls w1.
Proof.
  unfold callPaymentService. cbv zeta.
  unfold bind at 1. cbn [span_op]. unfold bind at 1. cbn [span_op]. unfold bind at 1.
  unfold Bulkhead_Execute. unfold bind at 1. unfold sem_Acquire. cbn [acquires set_trace].
  destruct (acquire_cancelled env (acquires w)).
  { unfold bind, span_op, ret. cbn. discriminate. }
  unfold bind at 1. cbn [span_op]. unfold bind at 1.
  unfold CircuitBreaker_Execute. unfold bind at 1.
  unfold gobreaker_State, get_breaker. unfold bind at 1. cbn [ret].
  unfold bind at 1. cbn [span_op]. unfold bind at 1. unfold gobreaker_Execute.
  unfold bind at 1. cbn [time_Now]. unfold bind at 1. cbn [get_breaker].
  destruct (on_entry _ _ _) as [[e0|slot] b'] eqn:Hon.
  { apply on_entry_rejects_open in Hon. subst e0.
    unfold bind, span_op, ret, sem_Release. cbn. discriminate. }
  unfold bind at 1. cbn [put_breaker]. unfold bind at 1. unfold bind at 1.
  match goal with |- context [RetryableHTTPCall env ?sp ?cfg ?fn ?w0] =>
    destruct (RetryableHTTPCall env sp cfg fn w0) as [out w1] eqn:Hrun;
    intros Hcall; exists w0, out, w1; split; [exact Hrun|]; revert Hcall end.
  cbn [fst snd ret].
  unfold bind at 1. cbn [time_Now]. unfold bind at 1. cbn [get_breaker].
  unfold bind at 1. cbn [put_breaker ret].
  destruct (snd out) as [e1|].
  - destruct (errors_Is e1 ErrOpenState);
      unfold bind, span_op, ret, sem_Release; cbn; discriminate.
  - unfold bind, span_op, ret, sem_Release. cbn. intros [= <-]. repeat split.
Qed.

Lemma CreateOrder_Ok_inv env s req key w resp w' :
  key = ""%string \/ entries w !! key = None ->
  CreateOrder env s req key w = (Ok resp, w') ->
  exists w0 w1,
    callPaymentService env s (fresh_uuid env (uuid_reads w)) req w0 = (None, w1)
    /\ http_calls w0 = http_calls w
    /\ http_calls w' = http_calls w1.
Proof.
  intros Hmiss HCO.
  destruct (CreateOrder_miss env s req key w Hmiss) as (w0 & Hview & Hrun).
  injection Hview as _ _ _ Hc0 _.
  destruct (callPaymentService env s (fresh_uuid env (uuid_reads w)) req w0) as [err w1] eqn:Hpay.
  destruct (Hrun _ _ eq_refl) as (r & w2 & HCO' & Hc2 & Hr).
  rewrite HCO in HCO'. injection HCO' as <- <-.
  destruct err as [e|]; [discriminate Hr|].
  exists w0, w1. auto.
Qed.

(** Property X2.  With [MaxAttempts >= 1], an order is reported as
    completed on a cache miss only if the payment service was called during
    this run and the last call made was answered with a status in
    [200, 300): no call follows the accepted answer, and no order completes
    on a failed last attempt. *)
Theorem completed_order_had_2xx_answer env s req key w resp w' :
  0 < MaxAttempts (retryConfig s) ->
  key = ""%string \/ entries w !! key = None ->
  CreateOrder env s req key w = (Ok resp, w') ->
  exists n status body,
    http_calls w' = S n /\ (http_calls w <= n)%nat
    /\ downstream env n = DoResponse status body
    /\ 200 <= status < 300.
Proof.
  intros Hmax Hmiss HCO.
  destruct (CreateOrder_Ok_inv _ _ _ _ _ _ _ Hmiss HCO) as (w0 & w1 & Hpay & Hc0 & Hc1).
  destruct (callPaymentService_nil_inv _ _ _ _ _ _ Hpay) as (wr & out & w2 & Hrun & Hnil & Hcr & Hc2).
  unfold RetryableHTTPCall in Hrun. destruct out as [r e]. cbn in Hnil. subst e.
  apply retry_loop_nil_inv in Hrun; [|intros; apply doPaymentRequest_calls].
  destruct Hrun as [(Hz & _) | (wl & Hl & Hle & Hc)].
  - lia.
  - destruct (doPaymentRequest_nil_inv _ _ _ _ _ _ _ Hl) as (status & body & Hd & Hst & _ & Hcl).
    exists (http_calls wl), status, body. repeat split; try lia; exact Hd.
Qed.

Lemma completed_order_had_2xx_answer_witness :
  exists n status body,
    http_calls (snd (CreateOrder env_500_then_200 svc order_m "k-1" NewWorld)) = S n
    /\ (http_calls NewWorld <= n)%nat
    /\ downstream env_500_then_200 n = DoResponse status body
    /\ 200 <= status < 300.
Proof.
  apply (completed_order_had_2xx_answer env_500_then_200 svc order_m "k-1" NewWorld
           {| resp_OrderID := "order-0"; resp_Status := "completed";
              resp_CreatedAt := "1970-01-01T00:00:00Z" |}).
  - reflexivity.
  - right. reflexivity.
  - vm_compute. reflexivity.
Defined.

(** ** calculateBackoff *)

(** The clamp at zero: the float converted is no negative number. *)
Lemma add_jitter_not_negative b j r :
  add_jitter b j r <> NegInf
  /\ forall x, add_jitter b j r = Finite x -> (0 <= x)%Q.
Proof.
  unfold add_jitter.
  set (x0 := fadd b (fsub (fmul (fmul (Finite r) (F64 2)) (fmul b j)) (fmul b j))).
  destruct x0 as [| | |y]; cbn [flt].
  - split; [discriminate | intros x H; discriminate].
  - split; [discriminate | intros x H; discriminate].
  - split; [discriminate | intros x H; injection H as <-; apply Qle_refl].
  - destruct (Qle_bool 0 y) eqn:E; cbn [negb].
    + split; [discriminate|]. intros x H. injection H as <-.
      apply Qle_bool_iff. exact E.
    + split; [discriminate|]. intros x H. injection H as <-. apply Qle_refl.
Qed.

(** Property X10.  The float that [calculateBackoff] converts to a
    duration is never a negative number nor -Inf, whatever the policy, the
    attempt, the random number and the result of [math.Pow]: the clamp at
    zero sees to it.  When that float is a number below [2^63], the delay
    is its floor, and neither the delay nor the span attribute
    [retry.backoff_ms] is negative.  (For NaN, +Inf and the numbers from
    [2^63] on, Go leaves the conversion to the implementation.) *)
Theorem backoff_never_negative env cfg attempt r :
  jittered env cfg attempt r <> NegInf
  /\ forall x, jittered env cfg attempt r = Finite x ->
       (0 <= x)%Q
       /\ ((x < inject_Z (2 ^ 63))%Q ->
           calculateBackoff env cfg attempt r = Qfloor x
           /\ 0 <= calculateBackoff env cfg attempt r
           /\ 0 <= Milliseconds (calculateBackoff env cfg attempt r)).
Proof.
  destruct (add_jitter_not_negative (nominal env cfg attempt) (JitterFraction cfg) r)
    as [Hn Hx].
  split; [exact Hn|]. intros x Ex.
  pose proof (Hx x Ex) as Hx0. split; [exact Hx0|]. intros Hlt.
  assert (Ed : calculateBackoff env cfg attempt r = Qfloor x).
  { rewrite calculateBackoff_jittered, Ex. apply Duration_of_float_floor; assumption. }
  assert (H0 : 0 <= Qfloor x)
    by (change 0 with (Qfloor 0); apply Qfloor_resp_le; exact Hx0).
  rewrite Ed. split; [reflexivity|]. split; [exact H0|].
  unfold Milliseconds, Millisecond. apply Z.quot_pos; lia.
Qed.

(** A product of floats, when it is a number, is a machine number. *)
Lemma fmul_representable a b y : fmul a b = Finite y -> representable y.
Proof.
  destruct a as [| | |x], b as [| | |z]; cbn [fmul]; try discriminate.
  - unfold scale_inf. destruct (z ?= 0)%Q; discriminate.
  - unfold scale_inf. destruct (z ?= 0)%Q; discriminate.
  - unfold scale_inf. destruct (x ?= 0)%Q; discriminate.
  - unfold scale_inf. destruct (x ?= 0)%Q; discriminate.
  - apply round64_representable.
Qed.

Lemma nominal_representable env cfg attempt b :
  nominal env cfg attempt = Finite b -> representable b.
Proof.
  unfold nominal.
  destruct (fgt _ (of_int64 (MaxBackoff cfg))).
  - apply round64_representable.
  - apply fmul_representable.
Qed.

(** The float of an operation whose exact result is a machine number of
    the range. *)
Lemma round64_exact x y :
  representable y -> (x == y)%Q -> (- pow2 1024 < y < pow2 1024)%Q ->
  round64 x = Finite (Qred y).
Proof.
  intros R E H.
  assert (Er : (round_finite x == y)%Q)
    by (rewrite (round_finite_comp x y E); apply representable_round; exact R).
  rewrite round64_in_range by (rewrite Er; exact H).
  f_equal. apply Qred_complete. exact Er.
Qed.

(** Property X11.  With a jitter fraction of zero the delay does not
    depend on the random number: it is the floor of the capped backoff [b]
    that the code computes in float64 arithmetic, when [0 <= b < 2^63]. *)
Theorem backoff_without_jitter env cfg attempt r b :
  JitterFraction cfg = Finite 0 ->
  nominal env cfg attempt = Finite b -> (0 <= b < inject_Z (2 ^ 63))%Q ->
  (0 <= r <= 1)%Q ->
  calculateBackoff env cfg attempt r = Qfloor b.
Proof.
  intros Ej Eb [Hb0 Hb1] Hr.
  pose proof (nominal_representable env cfg attempt b Eb) as Rb.
  pose proof pow2_63_lt_1024 as H63.
  assert (Hhi : fadd (Finite b) (fmul (Finite b) (Finite 0)) = Finite (Qred b)).
  { cbn [fmul]. rewrite (round64_exact (b * 0) 0);
      [|apply representable_0 | ring | pose proof (pow2_pos 1024); lra].
    cbn [fadd]. apply round64_exact; [exact Rb | change (Qred 0) with 0%Q; ring | lra]. }
  destruct (add_jitter_window b 0 r (Qred b) Rb Hb0 (Qle_refl 0) Hr Hhi)
    as (w & lo & x & Ew & Hw & Elo & Ex & Hx); [rewrite Qred_correct; exact Hb1|].
  rewrite Qred_correct in Hx.
  assert (Ew0 : (w == 0)%Q).
  { cbn [fmul] in Ew. apply round64_Finite in Ew. destruct Ew as [Ew _].
    rewrite Ew. apply round_finite_0. ring. }
  assert (Elo' : (lo == b)%Q).
  { unfold fsub in Elo. cbn [fneg fadd] in Elo.
    apply round64_Finite in Elo. destruct Elo as [Elo _]. rewrite Elo.
    rewrite (round_finite_comp (b + - w) b) by (rewrite Ew0; ring).
    apply representable_round. exact Rb. }
  assert (Exb : (x == b)%Q).
  { pose proof (Q.le_max_r 0 lo). lra. }
  rewrite calculateBackoff_jittered. unfold jittered. rewrite Eb, Ej, Ex.
  rewrite Duration_of_float_floor by lra.
  apply Qfloor_comp. exact Exb.
Qed.

Lemma backoff_without_jitter_witness :
  calculateBackoff env_200 cfg_no_jitter 4 (1 # 2) = Qfloor 800000000.
Proof.
  apply (backoff_without_jitter env_200 cfg_no_jitter 4 (1 # 2) 800000000).
  - vm_compute. reflexivity.
  - vm_compute. reflexivity.
  - split; [discriminate | reflexivity].
  - split; discriminate.
Defined.

(** Property X12.  Under [DefaultRetryConfig], with [math.Pow(2, 0) = 1]
    and [math.Pow(2, 1) = 2], the backoff after the first attempt is at
    most 65ms and the one after the second at most 130ms, for all random
    numbers in [0, 1] and in float64 arithmetic: the two sleeps of a full
    retry cycle take at most 195ms together, less than the 500ms deadline
    of the payment call. *)
Theorem default_backoffs_fit_the_deadline env r0 r1 :
  math_Pow env (Finite 2) (Finite 0) = Finite 1 ->
  math_Pow env (Finite 2) (Finite 1) = Finite 2 ->
  (0 <= r0 <= 1)%Q -> (0 <= r1 <= 1)%Q ->
  let d0 := calculateBackoff env DefaultRetryConfig 0 r0 in
  let d1 := calculateBackoff env DefaultRetryConfig 1 r1 in
  0 <= d0 <= 65 * Millisecond
  /\ 0 <= d1 <= 130 * Millisecond
  /\ d0 + d1 <= 195 * Millisecond < 500 * Millisecond.
Proof.
  intros HP0 HP1 Hr0 Hr1. cbv zeta.
  assert (E0 : math_Pow env (BackoffMultiple DefaultRetryConfig) (of_int64 0) = Finite 1)
    by exact HP0.
  assert (E1 : math_Pow env (BackoffMultiple DefaultRetryConfig) (of_int64 1) = Finite 2)
    by exact HP1.
  assert (Hbound : forall a r b hi,
            nominal env DefaultRetryConfig a = Finite (inject_Z b) ->
            0 <= b <= 2 ^ 53 -> (0 <= r <= 1)%Q ->
            window_hi env DefaultRetryConfig a = Finite (inject_Z hi) ->
            hi < 2 ^ 63 ->
            0 <= calculateBackoff env DefaultRetryConfig a r <= hi).
  { intros a r b hi Eb Hb Hr Ehi Hlt.
    destruct (calculateBackoff_window env DefaultRetryConfig a r (inject_Z b)
                (5404319552844595 # 18014398509481984) (inject_Z hi))
      as (lo & x & _ & _ & Hx & Ed).
    - exact Eb.
    - apply representable_Z. lia.
    - change 0%Q with (inject_Z 0). rewrite <- Zle_Qle. lia.
    - vm_compute. reflexivity.
    - discriminate.
    - exact Hr.
    - exact Ehi.
    - rewrite <- Zlt_Qlt. exact Hlt.
    - rewrite Ed. pose proof (Q.le_max_l 0 lo) as H0. split.
      + change 0 with (Qfloor 0). apply Qfloor_resp_le. lra.
      + rewrite <- (Qfloor_Z hi). apply Qfloor_resp_le. lra. }
  assert (N0 : nominal env DefaultRetryConfig 0 = Finite (inject_Z 50000000))
    by (unfold nominal; rewrite E0; vm_compute; reflexivity).
  assert (N1 : nominal env DefaultRetryConfig 1 = Finite (inject_Z 100000000))
    by (unfold nominal; rewrite E1; vm_compute; reflexivity).
  assert (W0 : window_hi env DefaultRetryConfig 0 = Finite (inject_Z 65000000))
    by (unfold window_hi; rewrite N0; vm_compute; reflexivity).
  assert (W1 : window_hi env DefaultRetryConfig 1 = Finite (inject_Z 130000000))
    by (unfold window_hi; rewrite N1; vm_compute; reflexivity).
  assert (H0 : 0 <= calculateBackoff env DefaultRetryConfig 0 r0 <= 65000000)
    by (apply (Hbound 0 r0 50000000 65000000 N0); [lia | exact Hr0 | exact W0 | lia]).
  assert (H1 : 0 <= calculateBackoff env DefaultRetryConfig 1 r1 <= 130000000)
    by (apply (Hbound 1 r1 100000000 130000000 N1); [lia | exact Hr1 | exact W1 | lia]).
  unfold Millisecond. lia.
Qed.

Lemma default_backoffs_fit_the_deadline_witness :
  let d0 := calculateBackoff env_200 DefaultRetryConfig 0 (1 # 4) in
  let d1 := calculateBackoff env_200 DefaultRetryConfig 1 (3 # 4) in
  0 <= d0 <= 65 * Millisecond
  /\ 0 <= d1 <= 130 * Millisecond
  /\ d0 + d1 <= 195 * Millisecond < 500 * Millisecond.
Proof.
  apply (default_backoffs_fit_the_deadline env_200 (1 # 4) (3 # 4)).
  - vm_compute. reflexivity.
  - vm_compute. reflexivity.
  - split; discriminate.
  - split; discriminate.
Defined.

(** Property X28.  Float64 rounding can carry the delay past [MaxBackoff]:
    with [InitialBackoff = MaxBackoff = 2^53 + 3] nanoseconds, a
    multiplier of 1 and no jitter, the two durations convert to the float
    [2^53 + 4], the cap does not apply, and the delay of the first
    backoff is [2^53 + 4] nanoseconds; and with the default policy the
    random number [57003261443529 / 2^53] gives a delay of 35189859ns,
    one more than exact arithmetic would give. *)
Theorem rounding_carries_the_delay_past_the_cap :
  of_int64 (MaxBackoff cfg_2_53) = Finite (inject_Z (2 ^ 53 + 4))
  /\ nominal env_200 cfg_2_53 0 = Finite (inject_Z (2 ^ 53 + 4))
  /\ calculateBackoff env_200 cfg_2_53 0 0 = 2 ^ 53 + 4
  /\ MaxBackoff cfg_2_53 < calculateBackoff env_200 cfg_2_53 0 0
  /\ calculateBackoff env_200 DefaultRetryConfig 0 (57003261443529 # 9007199254740992)
     = 35189859
  /\ Qfloor (50000000 + ((57003261443529 # 9007199254740992) * 2 * (50000000 * (3 # 10))
                         - 50000000 * (3 # 10))) = 35189858.
Proof.
  repeat split; vm_compute; reflexivity.
Qed.

(** ** NewCircuitBreaker: the trip predicate *)

(** Property X13.  The trip predicate of [NewCircuitBreaker] in whole
    numbers: it holds exactly when there are at least 5 consecutive
    failures, or at least 10 requests of which at least three fifths
    failed ([3 * Requests <= 5 * TotalFailures]).  With fewer than 10
    requests the failure ratio plays no part, in particular when it is a
    division by zero. *)
Theorem ready_to_trip_iff counts :
  ReadyToTrip (cb NewCircuitBreaker) counts = true
  <-> 5 <= ConsecutiveFailures counts
      \/ (10 <= Requests counts /\ 3 * Requests counts <= 5 * TotalFailures counts).
Proof.
  cbn [ReadyToTrip cb NewCircuitBreaker]. cbv zeta.
  rewrite orb_true_iff, andb_true_iff, !Z.leb_le, Qle_bool_iff.
  assert (H : 10 <= Requests counts ->
            ((6 # 10) <= inject_Z (TotalFailures counts) / inject_Z (Requests counts))%Q
            <-> 3 * Requests counts <= 5 * TotalFailures counts).
  { intros Hreq. destruct (Requests counts) as [|p|p]; try lia.
    unfold Qle, Qdiv, Qmult, Qinv, inject_Z. cbn. lia. }
  tauto.
Qed.

(** ** The idempotency store *)

(** Property X14.  After [Set key resp], [Get key] returns [resp] (the
    last write wins) and [Get] of every other key returns what it returned
    before; [Get] itself changes no entry. *)
Theorem store_set_then_get key resp key' w :
  let w1 := snd (Set_ key resp w) in
  fst (Get key w1) = Some resp
  /\ (key' <> key -> fst (Get key' w1) = fst (Get key' w))
  /\ entries (snd (Get key' w1)) = entries w1.
Proof.
  cbv zeta. unfold Set_, Get. cbn. split; [apply lookup_insert_eq|].
  split; [|reflexivity]. intros Hne. apply lookup_insert_ne. congruence.
Qed.

Lemma cleanup_tick_lookup env w key :
  entries (snd (cleanup_tick env w)) !! key
  = retained (clock env (now_reads w)) (entries w !! key).
Proof.
  unfold cleanup_tick, bind, time_Now. cbn.
  destruct (entries w !! key) as [c|] eqn:Hk; cbn.
  - destruct (decide _) as [Hle|Hgt].
    + apply map_lookup_filter_Some. split; [exact Hk|]. cbn. lia.
    + apply map_lookup_filter_None. right. intros c' Hc'. cbn.
      assert (c' = c) as -> by congruence. lia.
  - apply map_lookup_filter_None. left. exact Hk.
Qed.

Lemma cleanup_tick_rest env w :
  now_reads (snd (cleanup_tick env w)) = S (now_reads w)
  /\ uuid_reads (snd (cleanup_tick env w)) = uuid_reads w
  /\ http_calls (snd (cleanup_tick env w)) = http_calls w.
Proof. unfold cleanup_tick, bind, time_Now. cbn. auto. Qed.

Lemma retained_twice now now' o :
  now <= now' -> retained now' (retained now o) = retained now' o.
Proof.
  intros Hle. destruct o as [c|]; [|reflexivity]. cbn.
  destruct (decide (now - 24 * Hour <= CreatedAt c)) as [H|H]; cbn; [reflexivity|].
  destruct (decide (now' - 24 * Hour <= CreatedAt c)); [lia | reflexivity].
Qed.

(** Property X15.  With a clock that does not run backwards, what [n + 1]
    sweeps of [cleanup] leave under a key is what the last of them alone
    would leave: the entry, if it was created no earlier than 24 hours
    before that sweep (an entry exactly 24 hours old is kept), and nothing
    otherwise.  A sweep never adds or changes an entry. *)
Theorem sweeps_keep_exactly_the_recent env n w key :
  (forall i j, (i <= j)%nat -> clock env i <= clock env j) ->
  entries (snd (cleanup_ticks env (S n) w)) !! key
  = retained (clock env (now_reads w + n)) (entries w !! key).
Proof.
  intros Hmono. revert w. induction n as [|n IH]; intros w.
  - cbn [cleanup_ticks]. unfold bind at 1. 
    destruct (cleanup_tick env w) as [[] w1] eqn:E. cbn [ret snd].
    replace w1 with (snd (cleanup_tick env w)) by (rewrite E; reflexivity).
    rewrite cleanup_tick_lookup. rewrite Nat.add_0_r. reflexivity.
  - change (cleanup_ticks env (S (S n)) w)
      with (bind (cleanup_tick env) (fun _ => cleanup_ticks env (S n)) w).
    unfold bind at 1.
    destruct (cleanup_tick env w) as [[] w1] eqn:E.
    assert (Hw1 : w1 = snd (cleanup_tick env w)) by (rewrite E; reflexivity).
    rewrite IH. rewrite Hw1, cleanup_tick_lookup.
    destruct (cleanup_tick_rest env w) as (-> & _).
    replace (S (now_reads w) + n)%nat with (now_reads w + S n)%nat by lia.
    apply retained_twice. apply Hmono. lia.
Qed.

Lemma sweeps_keep_exactly_the_recent_witness :
  entries (snd (cleanup_ticks (quiet_env (fun _ => DoError)) (S 2) one_entry_world)) !! "k-1"
  = retained (clock (quiet_env (fun _ => DoError)) (now_reads one_entry_world + 2))
      (entries one_entry_world !! "k-1").
Proof.
  apply (sweeps_keep_exactly_the_recent (quiet_env (fun _ => DoError)) 2 one_entry_world "k-1").
  intros i j _. simpl. lia.
Defined.

(** Property X16.  Idempotency ends with the retention window.  When a
    sweep finds the entry of a key older than 24 hours, the next
    [CreateOrder] with that key is processed as a new order: if it
    succeeds (with [MaxAttempts >= 1]) the payment service has been called
    again and the response carries the order id drawn for this request,
    not the stored one. *)
Theorem expired_key_is_processed_again env s req key c w resp w' :
  entries w !! key = Some c ->
  CreatedAt c < clock env (now_reads w) - 24 * Hour ->
  0 < MaxAttempts (retryConfig s) ->
  CreateOrder env s req key (snd (cleanup_tick env w)) = (Ok resp, w') ->
  resp_OrderID resp = fresh_uuid env (uuid_reads w)
  /\ (http_calls w < http_calls w')%nat.
Proof.
  intros Hk Hold Hmax HCO.
  set (w1 := snd (cleanup_tick env w)) in *.
  assert (Hnone : entries w1 !! key = None).
  { unfold w1. rewrite cleanup_tick_lookup, Hk. cbn.
    destruct (decide _); [lia | reflexivity]. }
  destruct (cleanup_tick_rest env w) as (_ & Hu & Hc). fold w1 in Hu, Hc.
  split.
  - destruct (CreateOrder_miss env s req key w1 (or_intror Hnone)) as (w0 & _ & Hrun).
    destruct (callPaymentService env s (fresh_uuid env (uuid_reads w1)) req w0) as [err w2] eqn:Hpay.
    destruct (Hrun _ _ eq_refl) as (r & w3 & HCO' & _ & Hr).
    rewrite HCO in HCO'. injection HCO' as <- <-.
    destruct err as [e|]; [discriminate Hr|]. injection Hr as ->. cbn [resp_OrderID]. f_equal.
  - destruct (CreateOrder_Ok_inv _ _ _ _ _ _ _ (or_intror Hnone) HCO) as (w0 & w2 & Hpay & Hc0 & Hc1).
    destruct (callPaymentService_nil_inv _ _ _ _ _ _ Hpay) as (wr & out & w3 & Hrun & Hnil & Hcr & Hc2).
    unfold RetryableHTTPCall in Hrun. destruct out as [r e]. cbn in Hnil. subst e.
    apply retry_loop_nil_inv in Hrun; [|intros; apply doPaymentRequest_calls].
    destruct Hrun as [(Hz & _) | (wl & Hl & Hle & Hcl)]; [lia|].
    destruct (doPaymentRequest_nil_inv _ _ _ _ _ _ _ Hl) as (_ & _ & _ & _ & _ & Hs).
    lia.
Qed.

Lemma expired_key_is_processed_again_witness :
  resp_OrderID {| resp_OrderID := "order-0"; resp_Status := "completed";
                  resp_CreatedAt := "1970-01-02T01:00:00Z" |}
  = fresh_uuid env_next_day (uuid_reads one_entry_world)
  /\ (http_calls one_entry_world
      < http_calls (snd (CreateOrder env_next_day svc order_m "k-1"
                           (snd (cleanup_tick env_next_day one_entry_world)))))%nat.
Proof.
  apply (expired_key_is_processed_again env_next_day svc order_m "k-1"
           {| OrderID := "order-0"; Status := "completed"; CreatedAt := 0 |}
           one_entry_world).
  - reflexivity.
  - vm_compute. reflexivity.
  - reflexivity.
  - vm_compute. reflexivity.
Defined.

(** ** The handler of the order service *)

(** Property X17.  The reply of [OrderHandler.CreateOrder] is decided by
    the body and by [CreateOrder].  A body that does not bind is answered
    400 with the binding error, and nothing else happens (no store access,
    no order id, no payment call).  A body that binds is handed, with the
    value of the header Idempotency-Key, to [CreateOrder], whose world the
    handler leaves as it is: its response is answered 200, and its error is
    answered 500 with that error, which is "payment failed" around one of
    the errors of the payment call, the store holding what it held. *)
Theorem handler_replies env s c w :
  match ShouldBindJSON c with
  | Fail err =>
      OrderHandler_CreateOrder env s c w
      = ({| Status_ := 400; Body := ErrorBody err |}, w)
  | Ok req =>
      let out := CreateOrder env s req (GetHeader c "Idempotency-Key") w in
      snd (OrderHandler_CreateOrder env s c w) = snd out
      /\ match fst out with
         | Ok resp =>
             fst (OrderHandler_CreateOrder env s c w)
             = {| Status_ := 200; Body := OrderBody resp |}
         | Fail e =>
             fst (OrderHandler_CreateOrder env s c w)
             = {| Status_ := 500; Body := ErrorBody e |}
             /\ (exists e', e = Errorf "payment failed" e'
                            /\ payment_error (retryConfig s) e')
             /\ entries (snd out) = entries w
         end
  end.
Proof.
  unfold OrderHandler_CreateOrder.
  destruct (ShouldBindJSON c) as [req|err]; [|reflexivity].
  cbv zeta. unfold bind.
  destruct (CreateOrder env s req (GetHeader c "Idempotency-Key") w) as [[resp|e] w1] eqn:E;
    cbn [ret fst snd].
  - split; reflexivity.
  - split; [reflexivity|]. split; [reflexivity|]. split.
    + destruct (CreateOrder_Fail_inv _ _ _ _ _ _ _ E) as (oid & w0 & w2 & e' & Hpay & ->).
      exists e'. split; [reflexivity|]. eapply callPaymentService_errors. exact Hpay.
    + apply CreateOrder_effect in E.
      destruct E as [(c0 & _ & _ & [=] & _) | [(_ & _ & He & _) | (_ & _ & w0 & He0 & _ & _ & _ & He & _)]];
        congruence.
Qed.

(** Property X18.  A request without the header Idempotency-Key, or with
    an empty one, never reads or writes the idempotency store, whatever its
    body and however the order ends. *)
Theorem handler_without_key_leaves_store_alone env s c w :
  Header c !! "Idempotency-Key" = None \/ Header c !! "Idempotency-Key" = Some ""%string ->
  let w' := snd (OrderHandler_CreateOrder env s c w) in
  entries w' = entries w /\ store_log w' = store_log w.
Proof.
  intros Hkey. cbv zeta. unfold OrderHandler_CreateOrder.
  assert (Hempty : GetHeader c "Idempotency-Key" = ""%string).
  { unfold GetHeader. destruct Hkey as [-> | ->]; reflexivity. }
  rewrite Hempty.
  destruct (ShouldBindJSON c) as [req|err]; [|split; reflexivity].
  unfold bind.
  destruct (CreateOrder env s req "" w) as [r w1] eqn:E.
  assert (H : entries w1 = entries w /\ store_log w1 = store_log w).
  { apply CreateOrder_effect in E.
    destruct E as [(c0 & Hne & _) | [(_ & _ & Hst) | (Hne & _)]]; try congruence.
    destruct r; cbn in Hst; exact Hst. }
  destruct r; exact H.
Qed.

Lemma handler_without_key_leaves_store_alone_witness :
  let c := {| ShouldBindJSON := Ok order_m; Header := ∅ |} in
  let w' := snd (OrderHandler_CreateOrder env_200 svc c one_entry_world) in
  entries w' = entries one_entry_world /\ store_log w' = store_log one_entry_world.
Proof.
  apply (handler_without_key_leaves_store_alone env_200 svc
           {| ShouldBindJSON := Ok order_m; Header := ∅ |} one_entry_world).
  left. reflexivity.
Defined.

(** ** The payment service *)

Section PaymentProperties.
Import Payment.

Lemma drawn_below_spec env p w :
  let out := drawn_below env p w in
  trace (snd out) = trace w /\ uuid_reads (snd out) = uuid_reads w
  /\ (fst out = true ->
      (0 < p)%Q /\ (rand_float env (rand_reads w) * 100 < p)%Q
      /\ rand_reads (snd out) = S (rand_reads w))
  /\ ((p <= 0)%Q -> out = (false, w))
  /\ ((0 < p)%Q -> rand_reads (snd out) = S (rand_reads w)
       /\ fst out = Qltb (rand_float env (rand_reads w) * 100) p).
Proof.
  cbv zeta. unfold drawn_below.
  destruct (Qltb 0 p) eqn:Hp.
  - apply Qltb_true in Hp. unfold bind, rand_Float64, ret. cbn.
    split; [reflexivity|]. split; [reflexivity|]. split; [|split].
    + intros Hlt. apply Qltb_true in Hlt. auto.
    + intros Hle. exfalso. apply (Qlt_not_le _ _ Hp Hle).
    + auto.
  - apply Qltb_false in Hp. cbn.
    split; [reflexivity|]. split; [reflexivity|]. split; [discriminate|]. split; [reflexivity|].
    intros Hlt. exfalso. apply (Qlt_not_le _ _ Hlt Hp).
Qed.

(** [ProcessCharge] in one piece: the fault injection decides first, then the amount; only a charge that passes both draws a transaction id. *)
Lemma ProcessCharge_run env fmt s req w :
  exists w0, rand_reads w0 = rand_reads w /\ uuid_reads w0 = uuid_reads w /\
    let d := drawn_below env (errorPercentage s) w0 in
    let out := ProcessCharge env fmt s req w in
    fst out =
      (if fst d then (None, Some ErrInjected)
       else if Qle_bool (Amount req) 0
            then (None, Some (ErrInvalidAmount (Amount req)))
            else (Some {| TransactionID := fresh_uuid env (uuid_reads w);
                          Status := "approved";
                          resp_Amount := Amount req;
                          resp_Currency := Currency req |}, None))
    /\ rand_reads (snd out) = rand_reads (snd d)
    /\ uuid_reads (snd out) =
       (if fst d then uuid_reads w
        else if Qle_bool (Amount req) 0 then uuid_reads w else S (uuid_reads w)).
Proof.
  remember (ProcessCharge env fmt s req w) as L eqn:HL.
  unfold ProcessCharge in HL. cbv zeta in HL. unfold bind at 1 in HL. cbn [span_op] in HL.
  unfold bind at 1 in HL.
  assert (Hwhen : exists wd, rand_reads wd = rand_reads w /\ uuid_reads wd = uuid_reads w /\
            when (0 <? delayMS s)
              (span_op (SetAttributes "processCharge" "fault.injected_delay_ms"
                          (AttrInt (delayMS s))))
              (set_trace (cons (SpanStart "processCharge"
                           [("order.id", AttrString (OrderID req));
                            ("merchant.id", AttrString (MerchantID req));
                            ("payment.amount", AttrFloat (Amount req));
                            ("payment.currency", AttrString (Currency req))])) w)
            = (tt, wd)).
  { destruct (0 <? delayMS s); eexists; (split; [|split; [|reflexivity]]); reflexivity. }
  destruct Hwhen as (wd & Hr & Hu & Hwhen). rewrite Hwhen in HL. clear Hwhen.
  exists wd. split; [exact Hr|]. split; [exact Hu|]. cbv zeta.
  unfold bind at 1 in HL.
  pose proof (drawn_below_spec env (errorPercentage s) wd) as (_ & Hud & _).
  destruct (drawn_below env (errorPercentage s) wd) as [inject w1].
  cbn [fst snd] in *. destruct inject.
  { unfold bind, span_op, ret in HL. subst L. cbn. repeat split. congruence. }
  unfold bind at 1 in HL. unfold validateRequest in HL. unfold bind at 1 in HL.
  cbn [span_op] in HL.
  destruct (Qle_bool (Amount req) 0).
  { unfold bind, span_op, ret in HL. subst L. cbn. repeat split. congruence. }
  unfold callPaymentGateway, bind, span_op, uuid_New, ret in HL. cbn in HL.
  subst L. cbn. rewrite Hud, Hu. repeat split.
Qed.

(** Property X19.  With an error percentage of zero or less,
    [ProcessCharge] draws no random number and the amount alone decides:
    a positive amount is approved, with the amount and the currency of the
    request and a freshly drawn transaction id; any other amount fails
    with "invalid amount" and the gateway is not called (no transaction id
    is drawn). *)
Theorem charge_without_fault_injection env fmt s req w :
  (errorPercentage s <= 0)%Q ->
  let out := ProcessCharge env fmt s req w in
  rand_reads (snd out) = rand_reads w
  /\ (fst out = (Some {| TransactionID := fresh_uuid env (uuid_reads w);
                         Status := "approved";
                         resp_Amount := Amount req;
                         resp_Currency := Currency req |}, None)
      /\ (0 < Amount req)%Q /\ uuid_reads (snd out) = S (uuid_reads w)
      \/ fst out = (None, Some (ErrInvalidAmount (Amount req)))
         /\ (Amount req <= 0)%Q /\ uuid_reads (snd out) = uuid_reads w).
Proof.
  intros Hpct. cbv zeta.
  destruct (ProcessCharge_run env fmt s req w) as (w0 & Hr & Hu & Hout & Hrand & Huuid).
  destruct (drawn_below_spec env (errorPercentage s) w0) as (_ & _ & _ & Hoff & _).
  rewrite (Hoff Hpct) in Hout, Hrand, Huuid. cbn [fst snd] in *.
  split; [congruence|].
  destruct (Qle_bool (Amount req) 0) eqn:Ha.
  - right. apply Qle_bool_iff in Ha. auto.
  - left. split; [exact Hout|]. split; [|exact Huuid].
    apply Qnot_le_lt. intros Hle. apply Qle_bool_iff in Hle. congruence.
Qed.

Lemma charge_without_fault_injection_witness :
  let out := ProcessCharge env_200 (fun _ => ""%string) no_faults charge_m NewWorld in
  rand_reads (snd out) = rand_reads NewWorld
  /\ (fst out = (Some {| TransactionID := fresh_uuid env_200 (uuid_reads NewWorld);
                         Status := "approved";
                         resp_Amount := Amount charge_m;
                         resp_Currency := Currency charge_m |}, None)
      /\ (0 < Amount charge_m)%Q /\ uuid_reads (snd out) = S (uuid_reads NewWorld)
      \/ fst out = (None, Some (ErrInvalidAmount (Amount charge_m)))
         /\ (Amount charge_m <= 0)%Q /\ uuid_reads (snd out) = uuid_reads NewWorld).
Proof.
  apply (charge_without_fault_injection env_200 (fun _ => ""%string) no_faults charge_m NewWorld).
  vm_compute. discriminate.
Defined.

(** Property X20.  With an error percentage of 100 or more (random
    numbers being below 1), [ProcessCharge] fails every charge with the
    injected error, after exactly one random draw and without validating
    the request or calling the gateway. *)
Theorem charge_always_fails_at_full_injection env fmt s req w :
  (forall i, (rand_float env i < 1)%Q) ->
  (100 <= errorPercentage s)%Q ->
  let out := ProcessCharge env fmt s req w in
  fst out = (None, Some ErrInjected)
  /\ uuid_reads (snd out) = uuid_reads w
  /\ rand_reads (snd out) = S (rand_reads w).
Proof.
  intros Hrand Hpct. cbv zeta.
  destruct (ProcessCharge_run env fmt s req w) as (w0 & Hr & Hu & Hout & Hrd & Huuid).
  destruct (drawn_below_spec env (errorPercentage s) w0) as (_ & _ & _ & _ & Hon).
  destruct Hon as [Hreads Hdraw]; [lra|].
  assert (Htrue : fst (drawn_below env (errorPercentage s) w0) = true).
  { rewrite Hdraw. apply Qltb_true. specialize (Hrand (rand_reads w0)). lra. }
  rewrite Htrue in Hout, Huuid. split; [exact Hout|]. split; [exact Huuid|]. congruence.
Qed.

Lemma charge_always_fails_at_full_injection_witness :
  let out := ProcessCharge env_200 (fun _ => ""%string) all_faults charge_m NewWorld in
  fst out = (None, Some ErrInjected)
  /\ uuid_reads (snd out) = uuid_reads NewWorld
  /\ rand_reads (snd out) = S (rand_reads NewWorld).
Proof.
  apply (charge_always_fails_at_full_injection env_200 (fun _ => ""%string) all_faults
           charge_m NewWorld).
  - intros i. vm_compute. reflexivity.
  - vm_compute. discriminate.
Defined.

(** Property X21.  Without fault injection (a rate limit and an error
    percentage of zero or less) the reply of [PaymentHandler.Charge] is
    decided by the body alone, and no random number is drawn: a body that
    does not bind is answered 400 with the binding error; a bound request
    with an amount that is not positive is answered 500 with "invalid
    amount", no transaction id being drawn; any other bound request is
    answered 200 with the approved charge, which carries its amount and
    currency and the one transaction id drawn. *)
Theorem charge_replies env fmt h c w :
  (rateLimitPct h <= 0)%Q -> (errorPercentage (paymentService h) <= 0)%Q ->
  let out := Charge env fmt h c w in
  rand_reads (snd out) = rand_reads w
  /\ match ShouldBindJSON c with
     | inr msg =>
         out = ({| Status_ := 400; Body := BindErrorBody msg |}, w)
     | inl req =>
         if Qle_bool (Amount req) 0
         then fst out = {| Status_ := 500;
                           Body := ChargeErrorBody (ErrInvalidAmount (Amount req)) |}
              /\ uuid_reads (snd out) = uuid_reads w
         else fst out = {| Status_ := 200;
                           Body := ChargeBody
                                     (Some {| TransactionID := fresh_uuid env (uuid_reads w);
                                              Status := "approved";
                                              resp_Amount := Amount req;
                                              resp_Currency := Currency req |}) |}
              /\ uuid_reads (snd out) = S (uuid_reads w)
     end.
Proof.
  intros Hrate Herr. cbv zeta.
  destruct (drawn_below_spec env (rateLimitPct h) w) as (_ & _ & _ & Hoff & _).
  assert (E : Charge env fmt h c w =
              match ShouldBindJSON c with
              | inr msg => ({| Status_ := 400; Body := BindErrorBody msg |}, w)
              | inl req =>
                  let out := ProcessCharge env fmt (paymentService h) req w in
                  (match snd (fst out) with
                   | Some err => {| Status_ := 500; Body := ChargeErrorBody err |}
                   | None => {| Status_ := 200; Body := ChargeBody (fst (fst out)) |}
                   end, snd out)
              end).
  { unfold Charge. unfold bind at 1. rewrite (Hoff Hrate).
    destruct (ShouldBindJSON c) as [req|msg]; [|reflexivity].
    cbv zeta. unfold bind.
    destruct (ProcessCharge env fmt (paymentService h) req w) as [[a b] w2].
    cbn [fst snd]. destruct b; reflexivity. }
  rewrite E. clear E.
  destruct (ShouldBindJSON c) as [req|msg]; [|split; reflexivity].
  destruct (ProcessCharge_run env fmt (paymentService h) req w)
    as (w0 & Hr0 & Hu0 & Hout & Hrand & Huuid).
  cbv zeta in Hout, Hrand, Huuid.
  destruct (drawn_below_spec env (errorPercentage (paymentService h)) w0)
    as (_ & _ & _ & Hoff' & _).
  rewrite (Hoff' Herr) in Hout, Hrand, Huuid. cbn [fst snd] in Hout, Hrand, Huuid.
  cbv zeta. cbn [fst snd]. rewrite Hout.
  destruct (Qle_bool (Amount req) 0); cbn [fst snd].
  - split; [congruence|]. split; [reflexivity | exact Huuid].
  - split; [congruence|]. split; [reflexivity | exact Huuid].
Qed.

Lemma charge_replies_witness :
  let h := {| paymentService := no_faults; rateLimitPct := 0 |} in
  let c := {| ShouldBindJSON := inl charge_m |} in
  let out := Charge env_200 (fun _ => ""%string) h c NewWorld in
  rand_reads (snd out) = rand_reads NewWorld
  /\ fst out = {| Status_ := 200;
                  Body := ChargeBody (Some {| TransactionID := "order-0";
                                              Status := "approved";
                                              resp_Amount := 10;
                                              resp_Currency := "USD" |}) |}
  /\ uuid_reads (snd out) = S (uuid_reads NewWorld).
Proof.
  apply (charge_replies env_200 (fun _ => ""%string)
           {| paymentService := no_faults; rateLimitPct := 0 |}
           {| ShouldBindJSON := inl charge_m |} NewWorld).
  - vm_compute. discriminate.
  - vm_compute. discriminate.
Defined.

(** Property X22.  The rate limit comes before everything else: with a
    rate limit of 100 percent or more (random numbers being below 1) every
    request is answered 429, a malformed one included (never 400), and
    nothing happens but the one random draw. *)
Theorem rate_limit_precedes_parsing env fmt h c w :
  (forall i, (rand_float env i < 1)%Q) ->
  (100 <= rateLimitPct h)%Q ->
  Charge env fmt h c w
  = ({| Status_ := 429; Body := RateLimitBody |}, set_rand_reads S w).
Proof.
  intros Hrand Hpct. unfold Charge. unfold bind at 1. unfold drawn_below.
  replace (Qltb 0 (rateLimitPct h)) with true by (symmetry; apply Qltb_true; lra).
  unfold bind, rand_Float64, ret.
  replace (Qltb (rand_float env (rand_reads w) * 100) (rateLimitPct h)) with true.
  - reflexivity.
  - symmetry. apply Qltb_true. specialize (Hrand (rand_reads w)). lra.
Qed.

Lemma rate_limit_precedes_parsing_witness :
  Charge env_200 (fun _ => ""%string)
    {| paymentService := no_faults; rateLimitPct := 100 |}
    {| ShouldBindJSON := inr "EOF"%string |} NewWorld
  = ({| Status_ := 429; Body := RateLimitBody |}, set_rand_reads S NewWorld).
Proof.
  apply (rate_limit_precedes_parsing env_200 (fun _ => ""%string)
           {| paymentService := no_faults; rateLimitPct := 100 |}
           {| ShouldBindJSON := inr "EOF"%string |} NewWorld).
  - intros i. vm_compute. reflexivity.
  - vm_compute. discriminate.
Defined.

End PaymentProperties.

(** ** The load generator *)

Section LoadgenProperties.
Import Loadgen.

Lemma increment_lookup code m c :
  default 0 (increment code m !! c)
  = default 0 (m !! c) + (if c =? code then 1 else 0).
Proof.
  unfold increment. destruct (Z.eqb_spec c code) as [->|Hne].
  - rewrite lookup_insert_eq. reflexivity.
  - rewrite lookup_insert_ne by congruence. lia.
Qed.

Lemma makeRequest_counts o s c :
  let s' := makeRequest o s in
  success s' + failed s' + timeout s' = success s + failed s + timeout s + 1
  /\ success s' = success s + (if is_success o then 1 else 0)
  /\ total s' = total s
  /\ durations s' = durations s ++ from_option (fun d => [d]) [] (success_duration o)
  /\ default 0 (statusCode s' !! c)
     = default 0 (statusCode s !! c) + (if answered_with c o then 1 else 0).
Proof.
  cbv zeta. destruct o as [| |status d]; cbn.
  - repeat split; try lia. rewrite app_nil_r. reflexivity.
  - repeat split; try lia. rewrite app_nil_r. reflexivity.
  - destruct ((200 <=? status) && (status <? 300)); cbn;
      rewrite increment_lookup, (Z.eqb_sym c status);
      repeat split; try lia. rewrite app_nil_r. reflexivity.
Qed.

(** Property X23.  Starting from empty statistics, after any sequence of
    requests every request is counted in exactly one of [success],
    [failed] and [timeout]; [success] is the number of answers with a
    status in [200, 300); the recorded durations are those of the
    successful requests, in order of completion; and the histogram holds
    under every status the number of answers with that status (failed
    answers included, requests without an answer not). *)
Theorem every_request_is_counted_once os c :
  let s := makeRequests os NewStats in
  success s + failed s + timeout s = Z.of_nat (length os)
  /\ success s = Z.of_nat (length (filter (fun o => is_success o = true) os))
  /\ durations s = omap success_duration os
  /\ default 0 (statusCode s !! c)
     = Z.of_nat (length (filter (fun o => answered_with c o = true) os)).
Proof.
  cbv zeta. unfold makeRequests.
  assert (H : forall s0,
    let s := fold_left (fun s o => makeRequest o s) os s0 in
    success s + failed s + timeout s
      = success s0 + failed s0 + timeout s0 + Z.of_nat (length os)
    /\ success s = success s0 + Z.of_nat (length (filter (fun o => is_success o = true) os))
    /\ durations s = durations s0 ++ omap success_duration os
    /\ default 0 (statusCode s !! c)
       = default 0 (statusCode s0 !! c)
         + Z.of_nat (length (filter (fun o => answered_with c o = true) os))).
  { induction os as [|o os IH]; intros s0; cbn [fold_left].
    - cbn. rewrite app_nil_r. repeat split; lia.
    - cbv zeta in IH. specialize (IH (makeRequest o s0)).
      destruct IH as (H1 & H2 & H3 & H4).
      destruct (makeRequest_counts o s0 c) as (G1 & G2 & _ & G3 & G4).
      rewrite H1, H2, H3, H4, G1, G2, G3, G4. clear.
      rewrite !filter_cons. cbn [omap].
      split; [|split; [|split]].
      + cbn [length]. lia.
      + destruct (is_success o); cbn.
        * rewrite decide_True by reflexivity. cbn [length]. lia.
        * rewrite decide_False by discriminate. lia.
      + rewrite <- app_assoc. f_equal. cbn. destruct (success_duration o); reflexivity.
      + destruct (answered_with c o); cbn.
        * rewrite decide_True by reflexivity. cbn [length]. lia.
        * rewrite decide_False by discriminate. lia. }
  specialize (H NewStats). cbv zeta in H. cbn in H.
  destruct H as (H1 & H2 & H3 & H4). rewrite H1, H2, H3, H4. repeat split; lia.
Qed.

Lemma swap_Permutation (d : list Z) i j x y :
  (i < j)%nat -> d !! i = Some x -> d !! j = Some y ->
  <[j := x]> (<[i := y]> d) ≡ₚ d.
Proof.
  intros Hij Hi Hj.
  assert (Hlen : (i < length d)%nat) by (eapply lookup_lt_Some; eauto).
  assert (Hj' : drop (S i) d !! (j - S i)%nat = Some y).
  { rewrite lookup_drop. replace (S i + (j - S i))%nat with j by lia. exact Hj. }
  assert (Hl : (j - S i < length (drop (S i) d))%nat) by (eapply lookup_lt_Some; eauto).
  assert (E2 : d = take i d ++ x :: take (j - S i) (drop (S i) d)
                     ++ y :: drop (S (j - S i)) (drop (S i) d)).
  { rewrite (take_drop_middle (drop (S i) d) _ y Hj').
    rewrite (take_drop_middle d i x Hi). reflexivity. }
  assert (La : length (take i d) = i) by (rewrite length_take; lia).
  assert (Lb : length (take (j - S i) (drop (S i) d)) = (j - S i)%nat)
    by (rewrite length_take; lia).
  revert E2 La Lb.
  generalize (take i d) (take (j - S i) (drop (S i) d)) (drop (S (j - S i)) (drop (S i) d)).
  intros a b c E2 La Lb.
  assert (E : <[j := x]> (<[i := y]> d) = a ++ y :: b ++ x :: c).
  { rewrite E2 at 1.
    rewrite (insert_app_r_alt a (x :: b ++ y :: c) i y); [|lia].
    rewrite (insert_app_r_alt a _ j x); [|lia].
    rewrite La, Nat.sub_diag. replace (j - i)%nat with (S (j - S i)) by lia.
    cbn. f_equal. f_equal.
    etransitivity; [apply (insert_app_r_alt b (y :: c) (j - S i) x); lia|].
    rewrite Lb, Nat.sub_diag. reflexivity. }
  rewrite E. etransitivity; [|rewrite E2; reflexivity].
  clear. solve_Permutation.
Qed.

Lemma compare_swap_spec i j d :
  (i < j)%nat -> (j < length d)%nat ->
  exists d' x y,
    compare_swap i j d = Some d'
    /\ d !! i = Some x /\ d !! j = Some y
    /\ d' !! i = Some (Z.min x y) /\ d' !! j = Some (Z.max x y)
    /\ (forall k, k <> i -> k <> j -> d' !! k = d !! k)
    /\ length d' = length d
    /\ d' ≡ₚ d.
Proof.
  intros Hij Hj.
  destruct (lookup_lt_is_Some_2 d i ltac:(lia)) as [x Hx].
  destruct (lookup_lt_is_Some_2 d j Hj) as [y Hy].
  assert (Hcs : compare_swap i j d
                = Some (if y <? x then <[j := x]> (<[i := y]> d) else d)).
  { unfold compare_swap. rewrite Hx, Hy. reflexivity. }
  destruct (Z.ltb_spec y x) as [Hlt|Hge].
  - exists (<[j := x]> (<[i := y]> d)), x, y.
    split; [exact Hcs|]. split; [exact Hx|]. split; [exact Hy|].
    split; [|split; [|split; [|split]]].
    + rewrite list_lookup_insert_ne by lia.
      rewrite list_lookup_insert_eq by lia. f_equal. lia.
    + rewrite list_lookup_insert_eq by (rewrite length_insert; lia). f_equal. lia.
    + intros k Hki Hkj. rewrite !list_lookup_insert_ne by congruence. reflexivity.
    + rewrite !length_insert. reflexivity.
    + eapply swap_Permutation; eauto.
  - exists d, x, y. split; [exact Hcs|]. split; [exact Hx|]. split; [exact Hy|].
    split; [rewrite Hx; f_equal; lia|]. split; [rewrite Hy; f_equal; lia|].
    split; [reflexivity|]. split; reflexivity.
Qed.

Lemma compare_swap_settled i j d d' :
  (i < j)%nat -> (j < length d)%nat ->
  compare_swap i j d = Some d' -> settled i d -> settled i d'.
Proof.
  intros Hij Hj Hcs Hset.
  destruct (compare_swap_spec i j d Hij Hj)
    as (d0 & x & y & Hcs' & Hx & Hy & Hi' & Hj' & Hrest & _).
  rewrite Hcs in Hcs'. injection Hcs' as <-.
  intros p k a b Hp Hpk Ha Hb.
  rewrite Hrest in Ha by lia.
  assert (Hsrc : exists k', (p < k')%nat /\ d !! k' = Some b).
  { destruct (decide (k = i)) as [->|Hki]; [|destruct (decide (k = j)) as [->|Hkj]].
    - rewrite Hi' in Hb. injection Hb as <-.
      destruct (Z.min_spec x y) as [[_ ->]|[_ ->]]; [exists i | exists j]; split; auto; lia.
    - rewrite Hj' in Hb. injection Hb as <-.
      destruct (Z.max_spec x y) as [[_ ->]|[_ ->]]; [exists j | exists i]; split; auto; lia.
    - rewrite Hrest in Hb by assumption. exists k. auto. }
  destruct Hsrc as (k' & Hpk' & Hb').
  eapply Hset; eauto.
Qed.

Lemma sort_inner_spec n : forall i j d,
  (i < j)%nat -> (j + n = length d)%nat ->
  settled i d -> leads i j d ->
  exists d', sort_inner n i j d = Some d'
    /\ length d' = length d /\ d' ≡ₚ d
    /\ settled i d' /\ leads i (length d') d'.
Proof.
  induction n as [|n IH]; intros i j d Hij Hlen Hset Hlead.
  - exists d. cbn. replace (length d) with j by lia. auto.
  - cbn [sort_inner].
    destruct (compare_swap_spec i j d Hij ltac:(lia))
      as (d1 & x & y & Hcs & Hx & Hy & Hi' & Hj' & Hrest & Hl1 & Hp1).
    rewrite Hcs.
    destruct (IH i (S j) d1) as (d' & Hrun & Hl' & Hp' & Hset' & Hlead').
    + lia.
    + lia.
    + eapply compare_swap_settled; eauto. lia.
    + intros k a b Hk Ha Hb. rewrite Hi' in Ha. injection Ha as <-.
      destruct (decide (k = j)) as [->|Hkj].
      * rewrite Hj' in Hb. injection Hb as <-. lia.
      * rewrite Hrest in Hb by lia.
        pose proof (Hlead k x b ltac:(lia) Hx Hb). lia.
    + exists d'. split; [exact Hrun|]. split; [congruence|].
      split; [etransitivity; eauto|]. auto.
Qed.

Lemma sort_outer_spec n : forall i d,
  (i + n = length d)%nat -> settled i d ->
  exists d', sort_outer n i d = Some d'
    /\ length d' = length d /\ d' ≡ₚ d /\ settled (length d') d'.
Proof.
  induction n as [|n IH]; intros i d Hlen Hset.
  - exists d. cbn. replace (length d) with i by lia. auto.
  - cbn [sort_outer].
    destruct (sort_inner_spec (length d - S i) i (S i) d) as (d1 & Hrun & Hl1 & Hp1 & Hset1 & Hlead1).
    + lia.
    + lia.
    + exact Hset.
    + intros k a b Hk. lia.
    + rewrite Hrun.
      destruct (IH (S i) d1) as (d' & Hrun' & Hl' & Hp' & Hset').
      * lia.
      * intros p k a b Hp Hpk Ha Hb.
        destruct (decide (p = i)) as [->|Hpi].
        -- apply (Hlead1 k a b); auto.
           split; [lia|]. eapply lookup_lt_Some; eauto.
        -- apply (Hset1 p k a b); auto. lia.
      * exists d'. split; [exact Hrun'|]. split; [congruence|].
        split; [etransitivity; eauto | exact Hset'].
Qed.

(** Property X24.  The sort of [printResults] never indexes out of range
    and returns the durations in non-decreasing order, each as often as it
    was recorded. *)
Theorem sort_sorts d :
  exists d', sort d = Some d'
    /\ d' ≡ₚ d
    /\ forall i j x y, (i <= j)%nat -> d' !! i = Some x -> d' !! j = Some y -> x <= y.
Proof.
  destruct (sort_outer_spec (length d) 0 d) as (d' & Hrun & Hl & Hp & Hset).
  - lia.
  - intros p k x y Hp. lia.
  - exists d'. split; [exact Hrun|]. split; [exact Hp|].
    intros i j x y Hij Hx Hy.
    destruct (decide (i = j)) as [->|Hne]; [rewrite Hx in Hy; injection Hy as <-; lia|].
    apply (Hset i j x y); auto; [|lia]. eapply lookup_lt_Some; eauto.
Qed.

Lemma sum_bounds (d : list Z) lo hi :
  (forall x, x ∈ d -> lo <= x <= hi) ->
  Z.of_nat (length d) * lo <= sum d <= Z.of_nat (length d) * hi.
Proof.
  unfold sum.
  assert (H : forall acc, (forall x, x ∈ d -> lo <= x <= hi) ->
            acc + Z.of_nat (length d) * lo <= fold_left Z.add d acc
            <= acc + Z.of_nat (length d) * hi).
  { induction d as [|x d IH]; intros acc Hall; cbn [fold_left length].
    - lia.
    - specialize (IH (acc + x) ltac:(intros z Hz; apply Hall; right; exact Hz)).
      pose proof (Hall x ltac:(left)) as Hx. lia. }
  intros Hall. specialize (H 0 Hall). lia.
Qed.

(** Property X25.  When at least one duration was recorded,
    [printResults] prints the latency section without indexing out of
    range, and [Min <= P50 <= P95 <= P99 <= Max]; [Min] and [Max] are the
    smallest and the largest recorded duration, the average lies between
    them, and every percentile printed is a recorded duration. *)
Theorem latency_statistics_are_ordered stats :
  durations stats <> [] ->
  exists l, latency stats = LatencyStatistics l
    /\ Min l <= P50 l <= P95 l /\ P95 l <= P99 l <= Max l
    /\ Min l <= Average l <= Max l
    /\ (forall x, x ∈ durations stats -> Min l <= x <= Max l)
    /\ Min l ∈ durations stats /\ P50 l ∈ durations stats /\ P95 l ∈ durations stats
    /\ P99 l ∈ durations stats /\ Max l ∈ durations stats.
Proof.
  intros Hne. unfold latency. cbv zeta.
  set (len := length (durations stats)).
  assert (Hlen : (0 < len)%nat).
  { unfold len. destruct (durations stats); [congruence | cbn; lia]. }
  replace (0 <? len)%nat with true by (symmetry; apply Nat.ltb_lt; exact Hlen).
  destruct (sort_outer_spec (length (durations stats)) 0 (durations stats))
    as (d & Hrun & Hl & Hp & Hset); [lia | intros p k x y Hp; lia |].
  fold (sort (durations stats)) in Hrun. rewrite Hrun. fold len in Hl.
  assert (Hsorted : forall i j x y, (i <= j)%nat -> d !! i = Some x -> d !! j = Some y -> x <= y).
  { intros i j x y Hij Hx Hy.
    destruct (decide (i = j)) as [->|Hneq]; [rewrite Hx in Hy; injection Hy as <-; lia|].
    apply (Hset i j x y); auto; [|lia]. eapply lookup_lt_Some; eauto. }
  assert (H50 : (len * 50 / 100 < len)%nat) by (apply Nat.Div0.div_lt_upper_bound; lia).
  assert (H95 : (len * 95 / 100 < len)%nat) by (apply Nat.Div0.div_lt_upper_bound; lia).
  assert (H99 : (len * 99 / 100 < len)%nat) by (apply Nat.Div0.div_lt_upper_bound; lia).
  assert (H5095 : (len * 50 / 100 <= len * 95 / 100)%nat) by (apply Nat.Div0.div_le_mono; lia).
  assert (H9599 : (len * 95 / 100 <= len * 99 / 100)%nat) by (apply Nat.Div0.div_le_mono; lia).
  destruct (lookup_lt_is_Some_2 d (len * 50 / 100) ltac:(lia)) as [p50 E50].
  destruct (lookup_lt_is_Some_2 d (len * 95 / 100) ltac:(lia)) as [p95 E95].
  destruct (lookup_lt_is_Some_2 d (len * 99 / 100) ltac:(lia)) as [p99 E99].
  destruct (lookup_lt_is_Some_2 d 0 ltac:(lia)) as [mn Emn].
  destruct (lookup_lt_is_Some_2 d (len - 1) ltac:(lia)) as [mx Emx].
  rewrite E50, E95, E99, Emn, Emx.
  eexists. split; [reflexivity|]. cbn [Min Max P50 P95 P99 Average].
  assert (Hin : forall i x, d !! i = Some x -> x ∈ durations stats).
  { intros i x Hx. rewrite <- Hp. eapply list_elem_of_lookup_2; eauto. }
  assert (Hall : forall x, x ∈ d -> mn <= x <= mx).
  { intros x Hx. apply list_elem_of_lookup in Hx as [i Hi].
    assert (i < len)%nat by (rewrite <- Hl; eapply lookup_lt_Some; eauto).
    split; [apply (Hsorted 0%nat i); auto; lia | apply (Hsorted i (len - 1)%nat); auto; lia]. }
  split.
  { split; [apply (Hsorted 0%nat (len * 50 / 100)%nat); auto; lia
           | apply (Hsorted (len * 50 / 100)%nat (len * 95 / 100)%nat); auto]. }
  split.
  { split; [apply (Hsorted (len * 95 / 100)%nat (len * 99 / 100)%nat); auto
           | apply (Hsorted (len * 99 / 100)%nat (len - 1)%nat); auto; lia]. }
  split.
  { pose proof (sum_bounds d mn mx Hall) as [Hlo Hhi]. rewrite Hl in Hlo, Hhi.
    assert (Hpos : 0 < Z.of_nat len) by lia.
    split.
    - rewrite <- (Z.quot_mul mn (Z.of_nat len)) at 1 by lia.
      apply Z.quot_le_mono; lia.
    - rewrite <- (Z.quot_mul mx (Z.of_nat len)) at 1 by lia.
      apply Z.quot_le_mono; lia. }
  split.
  { intros x Hx. apply Hall. rewrite Hp. exact Hx. }
  repeat split; eapply Hin; eauto.
Qed.

Lemma latency_statistics_are_ordered_witness :
  exists l, latency (makeRequests [Answered 200 30; Answered 500 7; Answered 201 10] NewStats)
            = LatencyStatistics l
    /\ Min l <= P50 l <= P95 l /\ P95 l <= P99 l <= Max l
    /\ Min l <= Average l <= Max l
    /\ (forall x, x ∈ durations (makeRequests [Answered 200 30; Answered 500 7; Answered 201 10] NewStats)
          -> Min l <= x <= Max l)
    /\ Min l ∈ durations (makeRequests [Answered 200 30; Answered 500 7; Answered 201 10] NewStats)
    /\ P50 l ∈ durations (makeRequests [Answered 200 30; Answered 500 7; Answered 201 10] NewStats)
    /\ P95 l ∈ durations (makeRequests [Answered 200 30; Answered 500 7; Answered 201 10] NewStats)
    /\ P99 l ∈ durations (makeRequests [Answered 200 30; Answered 500 7; Answered 201 10] NewStats)
    /\ Max l ∈ durations (makeRequests [Answered 200 30; Answered 500 7; Answered 201 10] NewStats).
Proof.
  apply (latency_statistics_are_ordered
           (makeRequests [Answered 200 30; Answered 500 7; Answered 201 10] NewStats)).
  vm_compute. discriminate.
Defined.

End LoadgenProperties.
